(** * seismicToolBox: the rendering pipeline of [seismicToolBoxClass.py]

    A shallow embedding of [seismicToolBox.__init__], [print_beta],
    [wiggle], [imageseis] and the slider callback [update], together with
    the properties of the range selection, the percentile clipping, the
    wiggle traces, the image colour scale and the interactive controls.

    Amplitudes are IEEE-754 binary64 values (numpy's float64), modelled by
    Rocq's primitive floats, so that [0/0], infinities and signed zeros
    behave as they do in numpy.  Python objects that the code shares or
    mutates (array buffers, lists, the raster, the sliders) live in a heap
    addressed by location; the calls made on the plotting backend are
    recorded in order.  The backend's own argument validation and styling
    are outside the model. *)

From Stdlib Require Import ZArith Floats Lia.
From stdpp Require Import base tactics option list strings.

Local Open Scope Z_scope.

(** ** Outcomes of Python code *)

Inductive exn :=
  | SystemExit          (* raised by sys.exit() *)
  | IndexError
  | TypeError
  | ValueError
  | KeyError
  | ZeroDivisionError
  | OverflowError.

Inductive result (A : Type) :=
  | Ok (a : A)
  | Raise (e : exn).
Arguments Ok {A} a.
Arguments Raise {A} e.

(** [SystemExit] derives from [BaseException], not from [Exception]: an
    [except Exception] handler does not stop it, and left alone it ends the
    interpreter. *)
Definition ends_interpreter (e : exn) : bool :=
  match e with SystemExit => true | _ => false end.

Definition rbind {A B} (r : result A) (f : A → result B) : result B :=
  match r with Ok a => f a | Raise e => Raise e end.

(** ** binary64 and Python numbers *)

Module F64.

Definition zero : float := PrimFloat.zero.
Definition one : float := PrimFloat.one.
Definition nan : float := PrimFloat.nan.

Definition is_nan (f : float) : bool := PrimFloat.is_nan f.

Definition Z_of_sign (s : bool) (z : Z) : Z := if s then - z else z.

(** [int(f)] of Python: truncation toward zero; [nan] and the infinities
    raise. *)
Definition trunc (f : float) : result Z :=
  match Prim2SF f with
  | S754_zero _ => Ok 0
  | S754_finite s m e => Ok (Z_of_sign s (Z.shiftl (Z.pos m) e))
  | S754_infinity _ => Raise OverflowError
  | S754_nan => Raise ValueError
  end.

(** The mathematical floor of a finite binary64 value. *)
Definition floor (f : float) : option Z :=
  match Prim2SF f with
  | S754_zero _ => Some 0
  | S754_finite s m e => Some (Z.shiftl (Z_of_sign s (Z.pos m)) e)
  | _ => None
  end.

(** The binary64 value nearest to an integer (ties to even); out of range
    it is an infinity. *)
Definition of_Z (z : Z) : float :=
  SF2Prim (binary_normalize prec emax z 0 false).

End F64.

(** A Python number is an [int] (unbounded) or a [float]. *)
Inductive pynum :=
  | PyInt (z : Z)
  | PyFloat (f : float).

Module Py.

(** [float(v)]; an [int] beyond the binary64 range raises. *)
Definition to_float (v : pynum) : result float :=
  match v with
  | PyFloat f => Ok f
  | PyInt z =>
      let f := F64.of_Z z in
      if PrimFloat.is_infinity f then Raise OverflowError else Ok f
  end.

(** [int(v)] *)
Definition int (v : pynum) : result Z :=
  match v with
  | PyInt z => Ok z
  | PyFloat f => F64.trunc f
  end.

(** An index position ([range] bounds, slice bounds of a sequence): only an
    [int] is accepted. *)
Definition index (v : pynum) : result Z :=
  match v with
  | PyInt z => Ok z
  | PyFloat _ => Raise TypeError
  end.

Definition arith (fz : Z → Z → Z) (ff : float → float → float)
    (a b : pynum) : result pynum :=
  match a, b with
  | PyInt x, PyInt y => Ok (PyInt (fz x y))
  | _, _ =>
      rbind (to_float a) (λ x,
      rbind (to_float b) (λ y, Ok (PyFloat (ff x y))))
  end.

Definition mul := arith Z.mul PrimFloat.mul.
Definition add := arith Z.add PrimFloat.add.
Definition sub := arith Z.sub PrimFloat.sub.

(** [a / d] with a Python float divisor. *)
Definition truediv (a : pynum) (d : float) : result float :=
  rbind (to_float a) (λ x,
    if PrimFloat.eqb d F64.zero then Raise ZeroDivisionError
    else Ok (PrimFloat.div x d)).

(** A Python int as an exact binary value (the mantissa is not bounded). *)
Definition exact (z : Z) : spec_float :=
  match z with
  | Z0 => S754_zero false
  | Zpos p => S754_finite false p 0
  | Zneg p => S754_finite true p 0
  end.

(** [a / b] of two Python ints: the exact quotient, rounded once to
    binary64 (ties to even); a quotient beyond the binary64 range raises. *)
Definition int_truediv (a b : Z) : result float :=
  if b =? 0 then Raise ZeroDivisionError
  else
    let q := SF2Prim (SFdiv prec emax (exact a) (exact b)) in
    if PrimFloat.is_infinity q then Raise OverflowError else Ok q.

(** [v / n] with a Python int divisor: int by int is the exact division
    above; a float is divided by [float(n)]. *)
Definition truediv_int (v : pynum) (n : Z) : result float :=
  match v with
  | PyInt z => int_truediv z n
  | PyFloat _ => rbind (to_float (PyInt n)) (truediv v)
  end.

(** Bounds of [seq[a:b]] on a sequence of length [n]: negative positions
    count from the end, positions are clamped, and an inverted slice is
    empty. *)
Definition slice_bound (n : nat) (i : Z) : nat :=
  Z.to_nat (if i <? 0 then Z.max (i + Z.of_nat n) 0 else Z.min i (Z.of_nat n)).

Definition slice (n : nat) (a b : Z) : nat * nat :=
  let s := slice_bound n a in (s, Nat.max s (slice_bound n b)).

Definition slice_list {A} (l : list A) (a b : Z) : list A :=
  let '(s, e) := slice (length l) a b in take (e - s) (drop s l).

(** [range(start, stop)] *)
Definition range (a b : Z) : list Z :=
  map (λ k : nat, a + Z.of_nat k) (seq 0 (Z.to_nat (b - a))).

(** The indices of [range(0, n, step)]; [step = 0] raises. *)
Definition range_step (n : nat) (step : Z) : result (list nat) :=
  if step =? 0 then Raise ValueError
  else if step <? 0 then Ok []
  else
    let s := Z.to_nat step in
    Ok (map (λ k : nat, (k * s)%nat) (seq 0 ((n + s - 1) / s)%nat)).

End Py.

(** ** numpy on binary64 data *)

Module Np.

(** One element of [np.clip] on floats: [min(max(x, lo), hi)], where a
    [nan] first argument is returned as it is. *)
Definition fmax (a b : float) : float :=
  if F64.is_nan a then a else if PrimFloat.ltb b a then a else b.
Definition fmin (a b : float) : float :=
  if F64.is_nan a then a else if PrimFloat.ltb a b then a else b.
Definition clip1 (lo hi x : float) : float := fmin (fmax x lo) hi.

Definition clip (rows : list (list float)) (lo hi : float) : list (list float) :=
  map (map (clip1 lo hi)) rows.

(** [np.maximum] / [np.minimum]: a [nan] on either side gives [nan]. *)
Definition maximum (a b : float) : float :=
  if PrimFloat.leb b a || F64.is_nan a then a else b.
Definition minimum (a b : float) : float :=
  if PrimFloat.leb a b || F64.is_nan a then a else b.

(** [np.fmax]: a [nan] is ignored when the other side is a number. *)
Definition fmax_ignoring_nan (a b : float) : float :=
  if PrimFloat.leb b a || F64.is_nan b then a else b.

Definition reduce (f : float → float → float) (l : list float) : result float :=
  match l with
  | [] => Raise ValueError
  | x :: l' => Ok (foldl f x l')
  end.

(** [np.max], [np.min], [np.nanmax] over all elements; an empty array
    raises. *)
Definition max (rows : list (list float)) : result float := reduce maximum (concat rows).
Definition min (rows : list (list float)) : result float := reduce minimum (concat rows).
Definition nanmax (rows : list (list float)) : result float :=
  reduce fmax_ignoring_nan (concat rows).

Definition abs (rows : list (list float)) : list (list float) :=
  map (map PrimFloat.abs) rows.

Fixpoint insert_sorted (x : float) (l : list float) : list float :=
  match l with
  | [] => [x]
  | y :: l' => if PrimFloat.leb x y then x :: l else y :: insert_sorted x l'
  end.
Definition sort (l : list float) : list float := foldr insert_sorted [] l.

(** Linear interpolation between two neighbouring order statistics. *)
Definition lerp (a b t : float) : float :=
  let d := PrimFloat.sub b a in
  if PrimFloat.leb 0.5 t
  then PrimFloat.sub b (PrimFloat.mul d (PrimFloat.sub F64.one t))
  else PrimFloat.add a (PrimFloat.mul d t).

(** [np.percentile(a, p)] with the default linear method, over the
    flattened array: the value at the virtual index [(n-1) * p/100] of the
    sorted data, interpolated between the two neighbouring elements.  A
    percentile outside [0, 100] raises; data holding a [nan], or no data,
    give [nan]. *)
Definition percentile (rows : list (list float)) (p : float) : result float :=
  let q := PrimFloat.div p 100 in
  if negb (PrimFloat.leb 0 q && PrimFloat.leb q 1) then Raise ValueError
  else
    let a := concat rows in
    let n := length a in
    if (n =? 0)%nat then Ok F64.nan
    else if existsb F64.is_nan a then Ok F64.nan
    else
      let s := sort a in
      let vi := PrimFloat.mul (F64.of_Z (Z.of_nat n - 1)) q in
      match F64.floor vi with
      | None => Ok F64.nan
      | Some lo =>
          let i := Z.to_nat lo in
          let j := Nat.min (i + 1) (n - 1) in
          let g := PrimFloat.sub vi (F64.of_Z lo) in
          Ok (lerp (nth i s F64.nan) (nth j s F64.nan) g)
      end.

End Np.

(** ** The Python heap *)

Definition loc := nat.
Bind Scope nat_scope with loc.

(** An [ndarray] is a window (rows [[nd_r0, nd_r1)], columns
    [[nd_c0, nd_c1)]) on a buffer of the heap: basic slicing makes a new
    window on the same buffer, never a copy. *)
Record ndarray := NdArray {
  nd_base : loc;
  nd_r0 : nat; nd_r1 : nat;
  nd_c0 : nat; nd_c1 : nat }.

Arguments NdArray (nd_base nd_r0 nd_r1 nd_c0 nd_c1)%_nat_scope.

Definition nrows (a : ndarray) : nat := (nd_r1 a - nd_r0 a)%nat.
Definition ncols (a : ndarray) : nat := (nd_c1 a - nd_c0 a)%nat.

(** Axis coordinates: a [range] / [np.arange] of ints, or a float array
    supplied by the caller. *)
Inductive coords :=
  | IntCoords (l : list Z)
  | FloatCoords (l : list float).

(** The callback registered on the sliders: the closure [update] with the
    objects it captures. *)
Inductive callback :=
  | Update (s_cmin s_cmax s_gain img : loc).

(** The raster made by [pcolormesh]. *)
Record quadmesh := QuadMesh {
  mesh_x : coords;
  mesh_t : coords;
  mesh_C : list (list float);
  mesh_clim : float * float;
  mesh_cmap : string }.

Record slider := Slider {
  sl_label : string;
  sl_valmin : float;
  sl_valmax : float;
  sl_val : float;
  sl_observers : list callback }.

Inductive obj :=
  | Buf (rows : list (list float))
  | PyList (items : list pynum)
  | PyDict (entries : list (string * pynum))
  | Mesh (m : quadmesh)
  | SliderW (s : slider).

(** Calls on the plotting backend, in the order made. *)
Inductive cmd :=
  | Gca
  | SetXLabel (s : string)
  | SetYLabel (s : string)
  | Plot (xs : list float) (ys : coords) (color : string) (lwidth : float)
  | FillBetweenX (ys : coords) (x1 : pynum) (x2 : list float)
      (where_ : list bool) (color : string)
  | Grid (b : bool)
  | SetXLim (lo hi : pynum)
  | SetYLim (lo hi : pynum)
  | InvertYAxis
  | SubplotsAdjust
  | Pcolormesh (img : loc)
  | Colorbar
  | Axis (s : string)
  | NewAxes
  | NewSlider (s : loc)
  | OnChanged (s : loc) (cb : callback)
  | Draw.

Inductive out :=
  | OutStr (s : string)
  | OutList (l : list pynum)
  | OutFormat (template : string) (arg : pynum).   (* template.format(arg) *)

Record world := World {
  heap : list obj;
  stdout : list out;
  backend : list cmd }.

(** ** State and exceptions *)

Definition M (A : Type) : Type := world → result A * world.

Definition ret {A} (a : A) : M A := λ w, (Ok a, w).
Definition raise {A} (e : exn) : M A := λ w, (Raise e, w).
Definition bind {A B} (m : M A) (f : A → M B) : M B :=
  λ w, match m w with
       | (Ok a, w') => f a w'
       | (Raise e, w') => (Raise e, w')
       end.
Definition lift {A} (r : result A) : M A := λ w, (r, w).

Notation "x <- m ;; k" := (bind m (λ x, k))
  (at level 100, m at next level, right associativity).
Notation "m ;; k" := (bind m (λ _, k))
  (at level 100, right associativity).

Fixpoint for_each {A} (l : list A) (body : A → M unit) : M unit :=
  match l with
  | [] => ret tt
  | a :: l' => body a ;; for_each l' body
  end.

Definition alloc (o : obj) : M loc :=
  λ w, (Ok (length (heap w)), World (heap w ++ [o]) (stdout w) (backend w)).

Definition load (l : loc) : M obj :=
  λ w, match heap w !! l with
       | Some o => (Ok o, w)
       | None => (Raise TypeError, w)
       end.

Definition store (l : loc) (o : obj) : M unit :=
  λ w, (Ok tt, World (<[l := o]> (heap w)) (stdout w) (backend w)).

Definition emit (c : cmd) : M unit :=
  λ w, (Ok tt, World (heap w) (stdout w) (backend w ++ [c])).

Definition print (o : out) : M unit :=
  λ w, (Ok tt, World (heap w) (stdout w ++ [o]) (backend w)).

(** *** Lists *)

Definition load_list (l : loc) : M (list pynum) :=
  o <- load l ;;
  match o with PyList items => ret items | _ => raise TypeError end.

(** [lst[k]] *)
Definition list_get (l : loc) (k : nat) : M pynum :=
  items <- load_list l ;;
  match items !! k with Some v => ret v | None => raise IndexError end.

(** [lst[k] = v]: the list object itself is updated. *)
Definition list_set (l : loc) (k : nat) (v : pynum) : M unit :=
  items <- load_list l ;;
  if decide (k < length items)%nat
  then store l (PyList (<[k := v]> items))
  else raise IndexError.

(** *** Arrays *)

Definition window (a : ndarray) (rows : list (list float)) : list (list float) :=
  map (λ r, take (ncols a) (drop (nd_c0 a) r)) (take (nrows a) (drop (nd_r0 a) rows)).

Definition load_buf (l : loc) : M (list (list float)) :=
  o <- load l ;;
  match o with Buf rows => ret rows | _ => raise TypeError end.

(** The elements seen through an array. *)
Definition read_array (a : ndarray) : M (list (list float)) :=
  rows <- load_buf (nd_base a) ;; ret (window a rows).

(** A new array with its own buffer. *)
Definition new_array (rows : list (list float)) (nr nc : nat) : M ndarray :=
  b <- alloc (Buf rows) ;; ret (NdArray b 0 nr 0 nc).

(** [copy.copy(a)]: the elements are copied to a new buffer. *)
Definition copy_array (a : ndarray) : M ndarray :=
  rows <- read_array a ;; new_array rows (nrows a) (ncols a).

(** [a[:, i:j]] and [a[i:j, :]] *)
Definition slice_cols (a : ndarray) (i j : Z) : ndarray :=
  let '(s, e) := Py.slice (ncols a) i j in
  NdArray (nd_base a) (nd_r0 a) (nd_r1 a) (nd_c0 a + s) (nd_c0 a + e).
Definition slice_rows (a : ndarray) (i j : Z) : ndarray :=
  let '(s, e) := Py.slice (nrows a) i j in
  NdArray (nd_base a) (nd_r0 a + s) (nd_r0 a + e) (nd_c0 a) (nd_c1 a).

(** [a[r, c]] *)
Definition array_get (a : ndarray) (r c : nat) : M float :=
  rows <- read_array a ;;
  match rows !! r with
  | Some row => match row !! c with Some v => ret v | None => raise IndexError end
  | None => raise IndexError
  end.

(** [a[r, c] = v]: written through the window into the buffer. *)
Definition array_set (a : ndarray) (r c : nat) (v : float) : M unit :=
  rows <- load_buf (nd_base a) ;;
  if decide (r < nrows a ∧ c < ncols a)%nat then
    match rows !! (nd_r0 a + r)%nat with
    | Some row =>
        if decide (nd_c0 a + c < length row)%nat
        then store (nd_base a) (Buf (<[(nd_r0 a + r)%nat := <[(nd_c0 a + c)%nat := v]> row]> rows))
        else raise IndexError
    | None => raise IndexError
    end
  else raise IndexError.

(** [a[:, c]] as a list *)
Definition read_column (a : ndarray) (c : nat) : M (list float) :=
  rows <- read_array a ;;
  ret (map (λ row, nth c row F64.nan) rows).

(** *** Coordinates *)

Definition coords_get (x : coords) (i : nat) : result pynum :=
  match x with
  | IntCoords l => match l !! i with Some z => Ok (PyInt z) | None => Raise IndexError end
  | FloatCoords l => match l !! i with Some f => Ok (PyFloat f) | None => Raise IndexError end
  end.

Definition coords_len (x : coords) : nat :=
  match x with IntCoords l => length l | FloatCoords l => length l end.

(** [x[-1]] *)
Definition coords_last (x : coords) : result pynum :=
  coords_get x (coords_len x - 1).

(** [np.min(t)] and [np.max(t)] *)
Definition coords_min (t : coords) : result pynum :=
  match t with
  | IntCoords [] => Raise ValueError
  | IntCoords (z :: l) => Ok (PyInt (foldl Z.min z l))
  | FloatCoords l => rbind (Np.reduce Np.minimum l) (λ f, Ok (PyFloat f))
  end.
Definition coords_max (t : coords) : result pynum :=
  match t with
  | IntCoords [] => Raise ValueError
  | IntCoords (z :: l) => Ok (PyInt (foldl Z.max z l))
  | FloatCoords l => rbind (Np.reduce Np.maximum l) (λ f, Ok (PyFloat f))
  end.

(** ** The toolbox object *)

(** No method assigns an attribute after [__init__], so the object is the
    record of its four attributes; the arrays and the header dictionary
    they name are heap objects. *)
Record seismicToolBox := ToolBox {
  Data : ndarray;
  SH : loc;
  STH : ndarray;
  dt : float }.

Definition dict_get (d : loc) (key : string) : M pynum :=
  o <- load d ;;
  match o with
  | PyDict entries =>
      match list_find (λ kv, kv.1 = key) entries with
      | Some (_, (_, v)) => ret v
      | None => raise KeyError
      end
  | _ => raise TypeError
  end.

(** [__init__] (lines 86-89): [dt] is the header's sample interval in
    microseconds divided by 1000000. *)
Definition init (segy : ndarray * loc * ndarray) : M seismicToolBox :=
  let '(d, sh, sth) := segy in
  us <- dict_get sh "dt" ;;
  s <- lift (Py.truediv_int us 1000000) ;;
  ret (ToolBox d sh sth s).

(** [print_beta] (lines 91-97): two lines on the standard output; the
    second needs the elements [STH[4,1]] and [STH[4,0]] of the trace header
    table. *)
Definition print_beta (self : seismicToolBox) : M unit :=
  print (OutFormat "time step in s: {}" (PyFloat (dt self))) ;;
  a <- array_get (STH self) 4 1 ;;
  b <- array_get (STH self) 4 0 ;;
  print (OutFormat "receiver sampling: {}" (PyFloat (PrimFloat.sub a b))).

(** ** Range selection and percentile clipping

    Lines 139-170 of [wiggle] and lines 275-304 of [imageseis] are the same
    statements; only the text printed for a malformed
    [timesample_interval] differs. *)

Section Select.

Variable self : seismicToolBox.
Variables trace_interval timesample_interval : option loc.

(** [ts[k] = int(ts[k] / self.dt)] *)
Definition seconds_to_index (ts : loc) (k : nat) : M unit :=
  v <- list_get ts k ;;
  q <- lift (Py.truediv v (dt self)) ;;
  i <- lift (F64.trunc q) ;;
  list_set ts k (PyInt i).

(** Lines 139-145 / 275-281. *)
Definition convert_timewindow : M unit :=
  match timesample_interval with
  | None => raise TypeError
  | Some ts =>
      _starttime <- list_get ts 0 ;;
      _endtime <- list_get ts 1 ;;
      seconds_to_index ts 0 ;;
      seconds_to_index ts 1 ;;
      items <- load_list ts ;;
      print (OutList items)
  end.

(** [if iv is not None: if len(iv) != 2 or len(iv) > 2: print(..); sys.exit()] *)
Definition check_interval (iv : option loc) (msg : string) : M unit :=
  match iv with
  | None => ret tt
  | Some l =>
      items <- load_list l ;;
      if decide (length items ≠ 2%nat ∨ (2 < length items)%nat)
      then print (OutStr msg) ;; raise SystemExit
      else ret tt
  end.

(** The two [int(iv[0]):int(iv[1])] bounds of a slice. *)
Definition int_bounds (l : loc) : M (Z * Z) :=
  a <- list_get l 0 ;;
  i <- lift (Py.int a) ;;
  b <- list_get l 1 ;;
  j <- lift (Py.int b) ;;
  ret (i, j).

(** Lines 157-163 / 293-298. *)
Definition select_view : M ndarray :=
  D <- copy_array (Data self) ;;
  D <- match trace_interval with
       | None => ret D
       | Some l => ij <- int_bounds l ;; ret (slice_cols D ij.1 ij.2)
       end ;;
  match timesample_interval with
  | None => ret D
  | Some l => ij <- int_bounds l ;; ret (slice_rows D ij.1 ij.2)
  end.

(** Lines 166-170 / 300-304. *)
Definition percentile_clip (D : ndarray) (perc : float) : M ndarray :=
  rows <- read_array D ;;
  p <- lift (Np.percentile rows perc) ;;
  let nth_percentile := PrimFloat.abs p in
  new_array (Np.clip rows (PrimFloat.opp nth_percentile) nth_percentile)
    (nrows D) (ncols D).

(** Lines 139-163 / 275-298. *)
Definition select_range (timewindow : bool) (msg_ts : string) : M ndarray :=
  (if timewindow then convert_timewindow else ret tt) ;;
  check_interval trace_interval "Error: trace_interval should be a list of two elements" ;;
  check_interval timesample_interval msg_ts ;;
  select_view.

Definition select_clip (timewindow : bool) (perc : float) (msg_ts : string) : M ndarray :=
  D <- select_range timewindow msg_ts ;;
  percentile_clip D perc.

(** The [(x, label)] and [(t, yl)] choices shared by both plots
    (lines 194-205 / 341-352). *)
Definition index_bounds (l : loc) : M (Z * Z) :=
  a <- list_get l 0 ;;
  b <- list_get l 1 ;;
  i <- lift (Py.index a) ;;
  j <- lift (Py.index b) ;;
  ret (i, j).

Definition time_axis (t : option (list float)) (ns : nat) : M (coords * string) :=
  match t, timesample_interval with
  | Some tv, Some l =>
      ij <- index_bounds l ;;
      ret (FloatCoords (Py.slice_list tv ij.1 ij.2), "Time [s]")
  | Some tv, None => ret (FloatCoords tv, "Time [s]")
  | None, Some l =>
      ij <- index_bounds l ;;
      ret (IntCoords (Py.range ij.1 ij.2), "Sample number")
  | None, None => ret (IntCoords (Py.range 0 (Z.of_nat ns)), "Sample number")
  end.

End Select.

(** ** wiggle (lines 99-236) *)

Section Wiggle.

Variable self : seismicToolBox.
Variables x t : option (list float).
Variables trace_interval timesample_interval : option loc.
Variable timewindow : bool.
Variable perc : float.
Variable skipt : Z.
Variable lwidth : float.
Variable gain : pynum.
Variables typeD color : string.

(** Lines 177-182: [ntmax = 1e+9]. *)
Definition effective_skipt (ntraces : nat) : M Z :=
  if 1000000000 <? Z.of_nat ntraces then
    s <- lift (F64.trunc (PrimFloat.div (F64.of_Z (Z.of_nat ntraces)) 1e9)) ;;
    ret (if s <? 1 then 1 else s)
  else ret skipt.

(** Lines 184-192. *)
Definition wiggle_x_axis (ntraces : nat) : M coords :=
  match x with
  | Some xv => emit (SetXLabel "Distance [m]") ;; ret (FloatCoords xv)
  | None =>
      xs <- match trace_interval with
            | Some l => ij <- index_bounds l ;; ret (IntCoords (Py.range ij.1 ij.2))
            | None => ret (IntCoords (Py.range 0 (Z.of_nat ntraces)))
            end ;;
      emit (SetXLabel "Trace number") ;;
      ret xs
  end.

(** The curve of one trace (lines 219-220):
    [clip(x[i] + gain*skipt*dx*trace/maxval, x[i]-dx, dx+x[i])]. *)
Definition trace_curve (xi : pynum) (sk : Z) (dx : pynum) (maxval : float)
    (trace : list float) : result (list float) :=
  rbind (Py.mul gain (PyInt sk)) (λ gs,
  rbind (Py.mul gs dx) (λ c,
  rbind (Py.to_float c) (λ cf,
  rbind (Py.to_float xi) (λ xf,
  let traceplt :=
    map (λ v, PrimFloat.add xf (PrimFloat.div (PrimFloat.mul cf v) maxval)) trace in
  rbind (Py.sub xi dx) (λ lo,
  rbind (Py.add dx xi) (λ hi,
  rbind (Py.to_float lo) (λ a_min,
  rbind (Py.to_float hi) (λ a_max,
  Ok (map (Np.clip1 a_min a_max) traceplt))))))))).

(** Lines 227-229: [if trace[a] < 0: trace[a] = 0]. *)
Definition zero_negative (D : ndarray) (i a : nat) : M unit :=
  v <- array_get D a i ;;
  if PrimFloat.ltb v 0 then array_set D a i 0 else ret tt.

(** One pass of the loop (lines 214-231).  [trace = Data[:, i]] is a window
    on column [i] of the clipped array [D], so the assignments to [trace]
    are assignments to [D]; the copy of line 215 is dropped at once by the
    rebinding of line 216. *)
Definition wiggle_trace (D : ndarray) (xs ts : coords) (sk : Z) (dx : pynum)
    (maxval : float) (i : nat) : M unit :=
  array_set D 0 i 0 ;;
  array_set D (nrows D - 1) i 0 ;;
  xi <- lift (coords_get xs i) ;;
  trace <- read_column D i ;;
  traceplt <- lift (trace_curve xi sk dx maxval trace) ;;
  emit (Plot traceplt ts color lwidth) ;;
  let offset := xi in
  if decide (typeD = "VA") then
    for_each (seq 0 (nrows D)) (zero_negative D i) ;;
    off <- lift (Py.to_float offset) ;;
    emit (FillBetweenX ts offset traceplt (map (λ v, PrimFloat.ltb off v) traceplt) color) ;;
    emit (Grid false)
  else ret tt.

(** Lines 172-236, on the clipped array. *)
Definition wiggle_render (D : ndarray) : M unit :=
  let ns := nrows D in
  let ntraces := ncols D in
  emit Gca ;;
  emit Gca ;;
  sk <- effective_skipt ntraces ;;
  xs <- wiggle_x_axis ntraces ;;
  tyl <- time_axis timesample_interval t ns ;;
  x1 <- lift (coords_get xs 1) ;;
  x0 <- lift (coords_get xs 0) ;;
  dx <- lift (Py.sub x1 x0) ;;
  rows <- read_array D ;;
  Dmax <- lift (Np.nanmax rows) ;;
  let maxval := PrimFloat.abs Dmax in
  idx <- lift (Py.range_step ntraces sk) ;;
  for_each idx (wiggle_trace D xs tyl.1 sk dx maxval) ;;
  x0 <- lift (coords_get xs 0) ;;
  lo <- lift (Py.sub x0 (PyInt 1)) ;;
  xl <- lift (coords_last xs) ;;
  hi <- lift (Py.add xl (PyInt 1)) ;;
  emit (SetXLim lo hi) ;;
  tmin <- lift (coords_min tyl.1) ;;
  tmax <- lift (coords_max tyl.1) ;;
  emit (SetYLim tmin tmax) ;;
  emit InvertYAxis ;;
  emit (SetYLabel tyl.2).

Definition wiggle : M unit :=
  D <- select_clip self trace_interval timesample_interval timewindow perc
         "Error: trace_interval should be a list of two elements" ;;
  wiggle_render D.

End Wiggle.

(** ** imageseis (lines 240-382) and its callback *)

Definition slider_val (s : loc) : M float :=
  o <- load s ;;
  match o with SliderW sl => ret (sl_val sl) | _ => raise TypeError end.

(** [img.set_clim([lo, hi])] *)
Definition set_clim (img : loc) (lim : float * float) : M unit :=
  o <- load img ;;
  match o with
  | Mesh m => store img (Mesh (QuadMesh (mesh_x m) (mesh_t m) (mesh_C m) lim (mesh_cmap m)))
  | _ => raise TypeError
  end.

(** [update] (lines 372-376); the slider values are numpy scalars, so the
    divisions are binary64 divisions. *)
Definition update (cb : callback) : M unit :=
  let '(Update s_cmin s_cmax s_gain img) := cb in
  a <- slider_val s_cmin ;;
  g <- slider_val s_gain ;;
  let _cmin := PrimFloat.div a g in
  b <- slider_val s_cmax ;;
  g' <- slider_val s_gain ;;
  let _cmax := PrimFloat.div b g' in
  set_clim img (_cmin, _cmax) ;;
  emit Draw.

(** [Slider(ax, label, valmin, valmax, valinit=valinit)] *)
Definition new_slider (label : string) (valmin valmax valinit : float) : M loc :=
  s <- alloc (SliderW (Slider label valmin valmax valinit [])) ;;
  emit (NewSlider s) ;;
  ret s.

(** [s.on_changed(cb)] *)
Definition on_changed (s : loc) (cb : callback) : M unit :=
  o <- load s ;;
  match o with
  | SliderW sl =>
      store s (SliderW (Slider (sl_label sl) (sl_valmin sl) (sl_valmax sl) (sl_val sl)
                          (sl_observers sl ++ [cb]))) ;;
      emit (OnChanged s cb)
  | _ => raise TypeError
  end.

(** A control change: the backend stores the new value of the slider and
    calls the observers registered on it. *)
Definition control_change (s : loc) (v : float) : M unit :=
  o <- load s ;;
  match o with
  | SliderW sl =>
      store s (SliderW (Slider (sl_label sl) (sl_valmin sl) (sl_valmax sl) v
                          (sl_observers sl))) ;;
      for_each (sl_observers sl) update
  | _ => raise TypeError
  end.

Section Imageseis.

Variable self : seismicToolBox.
Variables x t : option (list float).
Variables trace_interval timesample_interval : option loc.
Variable timewindow : bool.
Variable gain : pynum.
Variable perc : float.

(** Lines 322-339.  After line 323 [x] is never [None], so the test of
    line 331 always holds and lines 334-339 are never run. *)
Definition image_x_axis (ns ntraces : nat) : M (coords * string) :=
  match x with
  | None => ret (IntCoords (map (λ z, z + 1) (Py.range 0 (Z.of_nat ntraces))), "Distance [m]")
  | Some xv =>
      if decide (length xv ≠ ntraces) then
        match t with
        | None => raise TypeError          (* len(None) in the message *)
        | Some _ => print (OutStr "Error: x array not of same length as number of trace samples in data") ;;
                    raise SystemExit
        end
      else ret (FloatCoords xv, "Distance [m]")
  end.

(** Lines 362-382: the three sliders and their callback.  The slider
    values are held as binary64 ([g] is [gain] as a float). *)
Definition add_widgets (rows : list (list float)) (g : float) (img : loc) : M loc :=
  emit NewAxes ;;
  emit NewAxes ;;
  emit NewAxes ;;
  amax <- lift (Np.max (Np.abs rows)) ;;
  s_cmax <- new_slider "max clip " 0 amax amax ;;
  s_cmin <- new_slider "min clip" (PrimFloat.opp amax) 0 (PrimFloat.opp amax) ;;
  g10 <- lift (rbind (Py.mul (PyInt 10) gain) Py.to_float) ;;
  s_gain <- new_slider "gain" g g10 g ;;
  let cb := Update s_cmin s_cmax s_gain img in
  on_changed s_cmin cb ;;
  on_changed s_cmax cb ;;
  on_changed s_gain cb ;;
  ret img.

(** Lines 306-382, on the clipped array. *)
Definition imageseis_render (D : ndarray) : M loc :=
  let ns := nrows D in
  let ntraces := ncols D in
  rows <- read_array D ;;
  let maxval := PyInt (-1) in
  Dmax <- lift (Np.max rows) ;;
  m1 <- lift (Py.mul (PyInt (-1)) maxval) ;;
  mv <- lift (Py.mul m1 (PyFloat Dmax)) ;;
  maxval <- lift (Py.to_float mv) ;;
  xl <- image_x_axis ns ntraces ;;
  tyl <- time_axis timesample_interval t ns ;;
  emit SubplotsAdjust ;;
  g <- lift (Py.to_float gain) ;;
  let C := map (map (λ v, PrimFloat.mul v g)) rows in
  vmin <- lift (rbind (Py.mul (PyInt (-1)) (PyFloat maxval)) Py.to_float) ;;
  img <- alloc (Mesh (QuadMesh xl.1 tyl.1 C (vmin, maxval) "seismic")) ;;
  emit (Pcolormesh img) ;;
  emit Colorbar ;;
  emit (Axis "normal") ;;
  emit (SetXLabel xl.2) ;;
  emit (SetYLabel tyl.2) ;;
  emit Gca ;;
  emit InvertYAxis ;;
  add_widgets rows g img.

Definition imageseis : M loc :=
  D <- select_clip self trace_interval timesample_interval timewindow perc
         "Error: timesample_interval should be a list of two elements" ;;
  imageseis_render D.

End Imageseis.

(** ** Example datasets *)

Module ClipExamples.

(** One sample of three traces, and one sample of two traces. *)
Definition world_of (rows : list (list float)) : world :=
  World [Buf rows] [] [].

Definition view (nr nc : nat) : ndarray := NdArray 0 0 nr 0 nc.

Definition skewed : list (list float) := [[-5; 0; 1]]%float.
Definition lopsided : list (list float) := [[-5; 1]]%float.
Definition negative : list (list float) := [[-3; -1]]%float.

(** The array that [percentile_clip] returns, read back from the heap. *)
Definition clipped (rows : list (list float)) (nr nc : nat) (perc : float)
    : result (list (list float)) :=
  match percentile_clip (view nr nc) perc (world_of rows) with
  | (Ok K, w) => (read_array K w).1
  | (Raise e, _) => Raise e
  end.

End ClipExamples.


(** A small survey on the heap: the data at location 0, the header
    dictionary ([dt] = 2000 microseconds) at 1, the trace headers at 2, and
    the caller's lists from location 3 on. *)
Module Survey.

Definition world_of (rows : list (list float)) (lists : list (list pynum)) : world :=
  World ([Buf rows; PyDict [("dt", PyInt 2000)]; Buf [[0; 10]]%float]
           ++ map PyList lists) [] [].

Definition box (nr nc : nat) : seismicToolBox :=
  ToolBox (NdArray 0 0 nr 0 nc) 1 (NdArray 2 0 1 0 2) (2000 / 1000000)%float.

(** Three samples of two traces. *)
Definition small : list (list float) := [[1; -1]; [2; -2]; [0; 0]]%float.

(** Three samples of four traces, all zero. *)
Definition flat : list (list float) :=
  [[0; 0; 0; 0]; [0; 0; 0; 0]; [0; 0; 0; 0]]%float.

(** Four samples of two traces, all negative. *)
Definition trough : list (list float) :=
  [[-2; -2]; [-4; -4]; [-2; -2]; [-2; -2]]%float.

(** [n] samples of two traces: sample [k] holds [k] and [-k]. *)
Definition ramp (n : nat) : list (list float) :=
  map (λ k : nat, [F64.of_Z (Z.of_nat k); PrimFloat.opp (F64.of_Z (Z.of_nat k))]) (seq 0 n).

(** 0.1 and 0.3 seconds, as the binary64 values nearest to them. *)
Definition s01 : float := 0x1.999999999999ap-4%float.
Definition s03 : float := 0x1.3333333333333p-2%float.

End Survey.

(** The columns that a trace range selects from the copy [D] of the data:
    [D[:, int(ti[0]):int(ti[1])]], or [D] itself without a trace range. *)
Definition col_window (h : list obj) (ti : option loc) (D : ndarray) : option ndarray :=
  match ti with
  | None => Some D
  | Some l =>
      match h !! l with
      | Some (PyList [a; b]) =>
          match Py.int a, Py.int b with
          | Ok i, Ok j => Some (slice_cols D i j)
          | _, _ => None
          end
      | _ => None
      end
  end.

(** ** Reading the display state *)

Definition slider_value (h : list obj) (s : loc) : option float :=
  match h !! s with Some (SliderW sl) => Some (sl_val sl) | _ => None end.

Definition raster (h : list obj) (img : loc) : option quadmesh :=
  match h !! img with Some (Mesh m) => Some m | _ => None end.

Definition with_clim (m : quadmesh) (lim : float * float) : quadmesh :=
  QuadMesh (mesh_x m) (mesh_t m) (mesh_C m) lim (mesh_cmap m).

(** The three controls of [imageseis]: sliders of the heap, each observed
    by the callback that captures them and the raster. *)
Definition controls (h : list obj) (cb : callback) : Prop :=
  let '(Update c_min c_max c_gain img) := cb in
  is_Some (raster h img) ∧
  ∀ s, s ∈ [c_min; c_max; c_gain] →
       ∃ sl, h !! s = Some (SliderW sl) ∧ sl_observers sl = [cb].

(** ** Reading the wiggle plot *)

(** The curves drawn by [ax.plot], in the order drawn. *)
Definition plotted (cmds : list cmd) : list (list float) :=
  omap (λ c, match c with Plot xs _ _ _ => Some xs | _ => None end) cmds.

(** [ns] samples of [nt] traces, all zero. *)
Definition zeros (ns nt : nat) : list (list float) :=
  replicate ns (replicate nt 0%float).

(** A trace with its first and last sample set to zero (lines 217-218). *)
Definition pinned (trace : list float) : list float :=
  <[(length trace - 1)%nat := 0%float]> (<[0%nat := 0%float]> trace).

(** Column [i] of a list of rows. *)
Definition column (rows : list (list float)) (i : nat) : list float :=
  map (λ row, nth i row F64.nan) rows.

(** The factor [gain * skipt] stays an exact integer below 2^53, or is a
    float. *)
Definition gain_in_range (gain : pynum) (skipt : Z) : Prop :=
  match gain with
  | PyFloat _ => True
  | PyInt g => Z.abs (g * skipt) < 2 ^ 53
  end.

(** The backend calls of one pass of the wiggle loop that draws the curve
    [curve] for trace [i]. *)
Definition trace_cmds (lwidth : float) (typeD color : string) (ts : coords)
    (i : Z) (curve : list float) (where_ : list bool) : list cmd :=
  Plot curve ts color lwidth ::
  (if decide (typeD = "VA")
   then [FillBetweenX ts (PyInt i) curve where_ color; Grid false]
   else []).

(** An array that is the whole of its buffer: the buffer has at most [nr]
    rows of at most [nc] elements. *)
Definition covers (nr nc : nat) (rows : list (list float)) : Prop :=
  (length rows ≤ nr)%nat ∧ Forall (λ r, (length r ≤ nc)%nat) rows.
(** * Properties *)

(** ** Running monadic code *)

Lemma bind_ok {A B} (m : M A) (f : A → M B) w a w1 :
  m w = (Ok a, w1) → bind m f w = f a w1.
Proof. intros H. unfold bind. by rewrite H. Qed.

Lemma bind_raise {A B} (m : M A) (f : A → M B) w e w1 :
  m w = (Raise e, w1) → bind m f w = (Raise e, w1).
Proof. intros H. unfold bind. by rewrite H. Qed.

Lemma bind_inv_ok {A B} (m : M A) (f : A → M B) w b w' :
  bind m f w = (Ok b, w') → ∃ a w1, m w = (Ok a, w1) ∧ f a w1 = (Ok b, w').
Proof.
  unfold bind. destruct (m w) as [[a|e] w1]; [eauto | discriminate].
Qed.

Lemma lift_inv_ok {A} (r : result A) w a w' :
  lift r w = (Ok a, w') → r = Ok a ∧ w' = w.
Proof. unfold lift. by intros [= -> ->]. Qed.

Lemma rbind_inv_ok {A B} (r : result A) (f : A → result B) b :
  rbind r f = Ok b → ∃ a, r = Ok a ∧ f a = Ok b.
Proof. destruct r; [eauto | discriminate]. Qed.

Lemma load_list_run l items w :
  heap w !! l = Some (PyList items) → load_list l w = (Ok items, w).
Proof. intros H. unfold load_list, bind, load. by rewrite H. Qed.

Lemma list_get_run l k items v w :
  heap w !! l = Some (PyList items) → items !! k = Some v →
  list_get l k w = (Ok v, w).
Proof.
  intros H Hk. unfold list_get. rewrite (bind_ok _ _ _ _ _ (load_list_run _ _ _ H)).
  by rewrite Hk.
Qed.

Lemma list_set_run l k items v w :
  heap w !! l = Some (PyList items) → (k < length items)%nat →
  list_set l k v w =
    (Ok tt, World (<[l := PyList (<[k := v]> items)]> (heap w)) (stdout w) (backend w)).
Proof.
  intros H Hk. unfold list_set. rewrite (bind_ok _ _ _ _ _ (load_list_run _ _ _ H)).
  by rewrite decide_True.
Qed.

Lemma load_buf_run l rows w :
  heap w !! l = Some (Buf rows) → load_buf l w = (Ok rows, w).
Proof. intros H. unfold load_buf, bind, load. by rewrite H. Qed.

Lemma read_array_run a rows w :
  heap w !! nd_base a = Some (Buf rows) → read_array a w = (Ok (window a rows), w).
Proof.
  intros H. unfold read_array. by rewrite (bind_ok _ _ _ _ _ (load_buf_run _ _ _ H)).
Qed.

Lemma load_buf_inv l rows w w' :
  load_buf l w = (Ok rows, w') → heap w !! l = Some (Buf rows) ∧ w' = w.
Proof.
  unfold load_buf, bind, load. destruct (heap w !! l) as [[]|]; simpl; try discriminate.
  by intros [= -> ->].
Qed.

Lemma read_array_inv a rows w w' :
  read_array a w = (Ok rows, w') →
  ∃ buf, heap w !! nd_base a = Some (Buf buf) ∧ rows = window a buf ∧ w' = w.
Proof.
  unfold read_array. intros (buf & w1 & H1 & H2)%bind_inv_ok.
  apply load_buf_inv in H1 as [H1 ->]. injection H2 as <- <-. eauto.
Qed.

Lemma load_list_inv l items w w' :
  load_list l w = (Ok items, w') → heap w !! l = Some (PyList items) ∧ w' = w.
Proof.
  unfold load_list, bind, load. destruct (heap w !! l) as [[]|]; simpl; try discriminate.
  by intros [= -> ->].
Qed.

Lemma list_get_inv l k v w w' :
  list_get l k w = (Ok v, w') →
  ∃ items, heap w !! l = Some (PyList items) ∧ items !! k = Some v ∧ w' = w.
Proof.
  unfold list_get. intros (items & w1 & H1 & H2)%bind_inv_ok.
  apply load_list_inv in H1 as [H1 ->].
  destruct (items !! k) eqn:E; [|discriminate]. injection H2 as <- <-. eauto.
Qed.

(** ** The percentile clip on signed data *)

(** C1 (the code departs from the claim).  On the view [[-5, 0, 1]] with
    [perc = 50] the clip bound of lines 167 / 301 is the absolute value of
    the median of the signed data, 0, and every sample is saturated to 0;
    the percentile of the absolute amplitudes, which the claim names as the
    bound, is 1 and would leave [[-1, 0, 1]]. *)
Theorem percentile_clip_takes_signed_percentile :
  Np.percentile ClipExamples.skewed 50 = Ok 0%float ∧
  ClipExamples.clipped ClipExamples.skewed 1%nat 3%nat 50 = Ok [[0; 0; 0]]%float ∧
  Np.percentile (Np.abs ClipExamples.skewed) 50 = Ok 1%float ∧
  Np.clip ClipExamples.skewed (-1) 1 = [[-1; 0; 1]]%float.
Proof. repeat split; vm_compute; reflexivity. Qed.

(** C2 (the code departs from the claim).  With [perc = 100] the bound is
    the absolute value of the largest signed sample, not the largest
    absolute amplitude: [[-5, 1]] has bound 1 and is clipped to [[-1, 1]],
    and the all-negative [[-3, -1]] has bound 1 and is clipped to
    [[-1, -1]], although the maximum absolute amplitudes are 5 and 3. *)
Theorem percentile_100_clips_larger_negatives :
  Np.percentile ClipExamples.lopsided 100 = Ok 1%float ∧
  Np.max (Np.abs ClipExamples.lopsided) = Ok 5%float ∧
  ClipExamples.clipped ClipExamples.lopsided 1%nat 2%nat 100 = Ok [[-1; 1]]%float ∧
  Np.percentile ClipExamples.negative 100 = Ok (-1)%float ∧
  Np.max (Np.abs ClipExamples.negative) = Ok 3%float ∧
  ClipExamples.clipped ClipExamples.negative 1%nat 2%nat 100 = Ok [[-1; -1]]%float.
Proof. repeat split; vm_compute; reflexivity. Qed.

(** ** Invariants of a computation

    [triple I m Q]: [m] keeps the invariant [I] of the world, however it
    ends, and what it returns satisfies [Q]. *)

Section Triple.

Variable I : world → Prop.

Definition triple {A} (m : M A) (Q : A → Prop) : Prop :=
  ∀ w, I w → I (m w).2 ∧ ∀ a, (m w).1 = Ok a → Q a.

Lemma triple_ret {A} (a : A) (Q : A → Prop) : Q a → triple (ret a) Q.
Proof. intros HQ w Hw. split; [done|]. by intros ? [= <-]. Qed.

Lemma triple_raise {A} e (Q : A → Prop) : triple (raise e) Q.
Proof. intros w Hw. split; [done|]. discriminate. Qed.

Lemma triple_lift {A} (r : result A) (Q : A → Prop) :
  (∀ a, r = Ok a → Q a) → triple (lift r) Q.
Proof. intros HQ w Hw. split; [done|]. apply HQ. Qed.

Lemma triple_lift_any {A} (r : result A) : triple (lift r) (λ _, True).
Proof. by apply triple_lift. Qed.

Lemma triple_bind {A B} (m : M A) (f : A → M B) Q R :
  triple m Q → (∀ a, Q a → triple (f a) R) → triple (bind m f) R.
Proof.
  intros Hm Hf w Hw. destruct (Hm w Hw) as [H1 H2]. unfold bind.
  destruct (m w) as [[a|e] w1]; simpl in *.
  - by apply Hf; [apply H2|].
  - split; [done|]. discriminate.
Qed.

Lemma triple_weaken {A} (m : M A) (Q Q' : A → Prop) :
  triple m Q → (∀ a, Q a → Q' a) → triple m Q'.
Proof. intros Hm HQ w Hw. destruct (Hm w Hw). naive_solver. Qed.

Lemma triple_any {A} (m : M A) (Q : A → Prop) :
  triple m Q → triple m (λ _, True).
Proof. intros Hm. by eapply triple_weaken. Qed.

Lemma triple_for_each {A} (l : list A) (body : A → M unit) :
  (∀ a, triple (body a) (λ _, True)) → triple (for_each l body) (λ _, True).
Proof.
  intros Hb. induction l as [|a l IH]; simpl.
  - by apply triple_ret.
  - eapply triple_bind; [apply Hb|]. by intros _ _.
Qed.

End Triple.

(** ** What a computation leaves alone

    [framed h0 P w]: the heap of [w] extends [h0], and every object of [h0]
    that satisfies [P] is still in place, unchanged. *)

Section Frame.

Variable h0 : list obj.
Variable P : obj → Prop.

Definition framed (w : world) : Prop :=
  (length h0 ≤ length (heap w))%nat ∧
  ∀ l o, h0 !! l = Some o → P o → heap w !! l = Some o.

Definition fresh (l : loc) : Prop := (length h0 ≤ l)%nat.

Lemma triple_alloc o : triple framed (alloc o) fresh.
Proof.
  intros w [Hlen Hw]. split; [split|]; simpl.
  - rewrite length_app. lia.
  - intros l o' Hl HP. apply lookup_app_l_Some. by apply Hw.
  - by intros ? [= <-].
Qed.

Lemma triple_load l : triple framed (load l) (λ _, True).
Proof.
  intros w Hw. unfold load. by destruct (heap w !! l).
Qed.

Lemma triple_store_fresh l o : fresh l → triple framed (store l o) (λ _, True).
Proof.
  intros Hl w [Hlen Hw]. split; [split|done]; simpl.
  - by rewrite length_insert.
  - intros l' o' Hl' HP. rewrite list_lookup_insert_ne; [by apply Hw|].
    apply lookup_lt_Some in Hl'. unfold fresh in Hl. lia.
Qed.

(** Storing over an object that [P] does not protect. *)
Lemma framed_store_over l o o' w :
  framed w → heap w !! l = Some o' → ¬ P o' →
  framed (World (<[l := o]> (heap w)) (stdout w) (backend w)).
Proof.
  intros [Hlen Hw] Hl HP. split; simpl.
  - by rewrite length_insert.
  - intros l' o'' Hl' HP'. rewrite list_lookup_insert_ne; [by apply Hw|].
    intros <-. specialize (Hw _ _ Hl' HP'). congruence.
Qed.

Lemma triple_emit c : triple framed (emit c) (λ _, True).
Proof. by intros w Hw. Qed.

Lemma triple_print o : triple framed (print o) (λ _, True).
Proof. by intros w Hw. Qed.

End Frame.

Create HintDb frame discriminated.
#[local] Hint Resolve triple_raise triple_lift_any triple_alloc triple_load
  triple_emit triple_print : frame.

(** One step through a computation whose parts are all in [frame]. *)
Ltac frame_known :=
  first [ solve [eauto 4 with frame] | eapply triple_any; solve [eauto 4 with frame] ].
Ltac frame_step :=
  lazymatch goal with
  | |- triple _ (raise _) _ => apply triple_raise
  | |- triple _ (ret _) _ => apply triple_ret; solve [done | eauto]
  | |- triple _ (lift _) _ => apply triple_lift_any
  | |- triple _ (bind (lift _) _) _ =>
      eapply triple_bind; [apply triple_lift_any | intros ? ?]
  | |- triple _ (bind (match _ with _ => _ end) _) _ =>
      eapply (triple_bind _ _ _ (λ _, True)); [|intros ? ?]
  | |- triple _ (bind _ _) _ =>
      eapply triple_bind; [frame_known | intros ? ?]
  | |- triple _ (match ?x with _ => _ end) _ => destruct x
  | |- triple _ _ _ => frame_known
  end.
Ltac frame_auto := repeat (cbv zeta; frame_step).

Section FrameOps.

Variable h0 : list obj.
Variable P : obj → Prop.

Lemma triple_load_list l : triple (framed h0 P) (load_list l) (λ _, True).
Proof. unfold load_list. frame_auto. Qed.

Lemma triple_list_get l k : triple (framed h0 P) (list_get l k) (λ _, True).
Proof. unfold list_get. pose proof triple_load_list. frame_auto. Qed.

Lemma triple_load_buf l : triple (framed h0 P) (load_buf l) (λ _, True).
Proof. unfold load_buf. frame_auto. Qed.

Lemma triple_read_array a : triple (framed h0 P) (read_array a) (λ _, True).
Proof. unfold read_array. pose proof triple_load_buf. frame_auto. Qed.

Lemma triple_new_array rows nr nc :
  triple (framed h0 P) (new_array rows nr nc) (λ D, fresh h0 (nd_base D)).
Proof. unfold new_array. frame_auto. Qed.

Lemma triple_copy_array a :
  triple (framed h0 P) (copy_array a) (λ D, fresh h0 (nd_base D)).
Proof.
  unfold copy_array. pose proof triple_read_array. pose proof triple_new_array.
  frame_auto.
Qed.

Lemma triple_array_get a r c : triple (framed h0 P) (array_get a r c) (λ _, True).
Proof. unfold array_get. pose proof triple_read_array. frame_auto. Qed.

Lemma triple_array_set a r c v :
  fresh h0 (nd_base a) → triple (framed h0 P) (array_set a r c v) (λ _, True).
Proof.
  intros Hf. unfold array_set. pose proof triple_load_buf.
  pose proof (triple_store_fresh h0 P (nd_base a)). frame_auto.
Qed.

Lemma triple_read_column a c : triple (framed h0 P) (read_column a c) (λ _, True).
Proof. unfold read_column. pose proof triple_read_array. frame_auto. Qed.

End FrameOps.

Lemma nd_base_slice_cols a i j : nd_base (slice_cols a i j) = nd_base a.
Proof. unfold slice_cols. by destruct (Py.slice _ _ _). Qed.

Lemma nd_base_slice_rows a i j : nd_base (slice_rows a i j) = nd_base a.
Proof. unfold slice_rows. by destruct (Py.slice _ _ _). Qed.

#[local] Hint Resolve triple_load_list triple_list_get triple_load_buf
  triple_read_array triple_new_array triple_copy_array triple_array_get
  triple_read_column triple_for_each : frame.

Section FrameCalls.

Variable h0 : list obj.
Variable P : obj → Prop.

Lemma triple_check_interval iv msg : triple (framed h0 P) (check_interval iv msg) (λ _, True).
Proof. unfold check_interval. frame_auto. Qed.

Lemma triple_int_bounds l : triple (framed h0 P) (int_bounds l) (λ _, True).
Proof. unfold int_bounds. frame_auto. Qed.

Lemma triple_index_bounds l : triple (framed h0 P) (index_bounds l) (λ _, True).
Proof. unfold index_bounds. frame_auto. Qed.

Lemma triple_select_view self ti tsi :
  triple (framed h0 P) (select_view self ti tsi) (λ D, fresh h0 (nd_base D)).
Proof.
  unfold select_view. pose proof triple_int_bounds.
  eapply triple_bind; [apply triple_copy_array|]. intros D HD.
  eapply (triple_bind _ _ _ (λ D, fresh h0 (nd_base D))).
  - destruct ti; [|by apply triple_ret].
    eapply triple_bind; [apply triple_int_bounds|]. intros ij _.
    apply triple_ret. by rewrite nd_base_slice_cols.
  - intros D' HD'. destruct tsi; [|by apply triple_ret].
    eapply triple_bind; [apply triple_int_bounds|]. intros ij _.
    apply triple_ret. by rewrite nd_base_slice_rows.
Qed.

Lemma triple_percentile_clip D perc :
  triple (framed h0 P) (percentile_clip D perc) (λ K, fresh h0 (nd_base K)).
Proof. unfold percentile_clip. frame_auto. Qed.

Lemma triple_time_axis tsi t ns : triple (framed h0 P) (time_axis tsi t ns) (λ _, True).
Proof. unfold time_axis. pose proof triple_index_bounds. frame_auto. Qed.

(** Everything of [select_clip] after the conversion of the time window. *)
Lemma triple_select_after_conversion self ti tsi perc msg :
  triple (framed h0 P)
    (D <- (check_interval ti "Error: trace_interval should be a list of two elements" ;;
           check_interval tsi msg ;;
           select_view self ti tsi) ;;
     percentile_clip D perc)
    (λ K, fresh h0 (nd_base K)).
Proof.
  pose proof triple_check_interval. pose proof triple_select_view.
  pose proof triple_percentile_clip.
  eapply triple_bind; [|intros D HD; apply triple_percentile_clip].
  eapply triple_bind; [apply triple_check_interval|]. intros _ _.
  eapply triple_bind; [apply triple_check_interval|]. intros _ _.
  apply triple_select_view.
Qed.

Lemma triple_zero_negative D i a :
  fresh h0 (nd_base D) → triple (framed h0 P) (zero_negative D i a) (λ _, True).
Proof.
  intros HD. unfold zero_negative. pose proof (triple_array_set h0 P D).
  frame_auto.
Qed.

Lemma triple_wiggle_trace lwidth gain typeD color D xs ts sk dx maxval i :
  fresh h0 (nd_base D) →
  triple (framed h0 P) (wiggle_trace lwidth gain typeD color D xs ts sk dx maxval i) (λ _, True).
Proof.
  intros HD. unfold wiggle_trace.
  pose proof (triple_array_set h0 P D). pose proof (triple_zero_negative D i).
  frame_auto.
Qed.

Lemma triple_effective_skipt skipt n : triple (framed h0 P) (effective_skipt skipt n) (λ _, True).
Proof. unfold effective_skipt. frame_auto. Qed.

Lemma triple_wiggle_x_axis x ti n : triple (framed h0 P) (wiggle_x_axis x ti n) (λ _, True).
Proof. unfold wiggle_x_axis. pose proof triple_index_bounds. frame_auto. Qed.

Lemma triple_wiggle_render x t ti tsi skipt lwidth gain typeD color D :
  fresh h0 (nd_base D) →
  triple (framed h0 P) (wiggle_render x t ti tsi skipt lwidth gain typeD color D) (λ _, True).
Proof.
  intros HD. unfold wiggle_render.
  pose proof triple_effective_skipt. pose proof triple_wiggle_x_axis.
  pose proof triple_time_axis.
  pose proof (λ xs ts sk dx mv i,
    triple_wiggle_trace lwidth gain typeD color D xs ts sk dx mv i HD).
  frame_auto.
Qed.

Lemma triple_new_slider label a b c : triple (framed h0 P) (new_slider label a b c) (fresh h0).
Proof. unfold new_slider. frame_auto. Qed.

Lemma triple_on_changed s cb : fresh h0 s → triple (framed h0 P) (on_changed s cb) (λ _, True).
Proof.
  intros Hs. unfold on_changed. pose proof (triple_store_fresh h0 P s).
  frame_auto.
Qed.

Lemma triple_image_x_axis x t ns n : triple (framed h0 P) (image_x_axis x t ns n) (λ _, True).
Proof. unfold image_x_axis. frame_auto. Qed.

Lemma triple_add_widgets gain rows g img :
  triple (framed h0 P) (add_widgets gain rows g img) (λ _, True).
Proof.
  unfold add_widgets.
  pose proof triple_new_slider. pose proof triple_on_changed.
  frame_auto.
Qed.

Lemma triple_imageseis_render x t tsi gain D :
  triple (framed h0 P) (imageseis_render x t tsi gain D) (λ _, True).
Proof.
  unfold imageseis_render.
  pose proof triple_image_x_axis. pose proof triple_time_axis.
  pose proof triple_add_widgets.
  frame_auto.
Qed.

End FrameCalls.

Lemma bind_assoc {A B C} (m : M A) (f : A → M B) (g : B → M C) w :
  bind (bind m f) g w = bind m (λ a, bind (f a) g) w.
Proof. unfold bind. by destruct (m w) as [[a|e] w1]. Qed.

(** Array buffers and dictionaries: the kinds of object a dataset is made
    of. *)
Definition dataset_object (o : obj) : Prop :=
  match o with Buf _ | PyDict _ => True | _ => False end.

Section FrameMutation.

Variable h0 : list obj.
Variable P : obj → Prop.

(** The assignments to a list, a slider or the raster leave alone what
    [P] protects, as long as [P] protects none of these kinds. *)
Hypothesis P_list : ∀ items, ¬ P (PyList items).
Hypothesis P_slider : ∀ s, ¬ P (SliderW s).
Hypothesis P_mesh : ∀ m, ¬ P (Mesh m).

Lemma triple_list_set l k v : triple (framed h0 P) (list_set l k v) (λ _, True).
Proof.
  intros w Hw. unfold list_set, load_list, bind, load.
  destruct (heap w !! l) as [[]|] eqn:E; simpl; try done.
  case_decide; simpl; [|done]. split; [|done].
  eapply framed_store_over; eauto.
Qed.

Lemma triple_seconds_to_index self ts k :
  triple (framed h0 P) (seconds_to_index self ts k) (λ _, True).
Proof. unfold seconds_to_index. pose proof triple_list_set. frame_auto. Qed.

Lemma triple_convert_timewindow self tsi :
  triple (framed h0 P) (convert_timewindow self tsi) (λ _, True).
Proof.
  unfold convert_timewindow. pose proof triple_seconds_to_index. frame_auto.
Qed.

Lemma triple_select_clip self ti tsi tw perc msg :
  triple (framed h0 P) (select_clip self ti tsi tw perc msg) (λ K, fresh h0 (nd_base K)).
Proof.
  unfold select_clip, select_range.
  eapply triple_bind; [|intros D HD; apply triple_percentile_clip].
  eapply (triple_bind _ _ _ (λ _, True)).
  { destruct tw; [apply triple_convert_timewindow | by apply triple_ret]. }
  intros _ _.
  eapply triple_bind; [apply triple_check_interval|]. intros _ _.
  eapply triple_bind; [apply triple_check_interval|]. intros _ _.
  apply triple_select_view.
Qed.

Lemma triple_wiggle self x t ti tsi tw perc skipt lwidth gain typeD color :
  triple (framed h0 P) (wiggle self x t ti tsi tw perc skipt lwidth gain typeD color) (λ _, True).
Proof.
  unfold wiggle. eapply triple_bind; [apply triple_select_clip|].
  intros K HK. by apply triple_wiggle_render.
Qed.

Lemma triple_imageseis self x t ti tsi tw gain perc :
  triple (framed h0 P) (imageseis self x t ti tsi tw gain perc) (λ _, True).
Proof.
  unfold imageseis. eapply triple_bind; [apply triple_select_clip|].
  intros K HK. eapply triple_any, triple_imageseis_render.
Qed.

Lemma triple_slider_val s : triple (framed h0 P) (slider_val s) (λ _, True).
Proof. unfold slider_val. frame_auto. Qed.

Lemma triple_set_clim img lim : triple (framed h0 P) (set_clim img lim) (λ _, True).
Proof.
  intros w Hw. unfold set_clim, bind, load.
  destruct (heap w !! img) as [[]|] eqn:E; simpl; try done.
  split; [|done]. eapply framed_store_over; eauto.
Qed.

Lemma triple_update cb : triple (framed h0 P) (update cb) (λ _, True).
Proof.
  unfold update. destruct cb.
  pose proof triple_slider_val. pose proof triple_set_clim. frame_auto.
Qed.

Lemma triple_control_change s v : triple (framed h0 P) (control_change s v) (λ _, True).
Proof.
  intros w Hw. unfold control_change.
  destruct (heap w !! s) as [o|] eqn:E.
  - assert (load s w = (Ok o, w)) as Hl by (unfold load; by rewrite E).
    rewrite (bind_ok _ _ _ _ _ Hl).
    destruct o; try by apply triple_raise.
    erewrite bind_ok; [|reflexivity].
    apply (triple_for_each _ _ _ triple_update).
    eapply framed_store_over; eauto.
  - assert (load s w = (Raise TypeError, w)) as Hl by (unfold load; by rewrite E).
    by rewrite (bind_raise _ _ _ _ _ Hl).
Qed.

End FrameMutation.

Lemma framed_refl P w : framed (heap w) P w.
Proof. by split. Qed.

(** ** The conversion of a time window given in seconds *)

Lemma seconds_to_index_run self ts k items v q i w :
  heap w !! ts = Some (PyList items) → items !! k = Some v →
  Py.truediv v (dt self) = Ok q → F64.trunc q = Ok i →
  seconds_to_index self ts k w =
    (Ok tt, World (<[ts := PyList (<[k := PyInt i]> items)]> (heap w)) (stdout w) (backend w)).
Proof.
  intros Hts Hk Hq Hi. unfold seconds_to_index.
  rewrite (bind_ok _ _ _ _ _ (list_get_run _ _ _ _ _ Hts Hk)).
  rewrite Hq. erewrite bind_ok; [|reflexivity].
  rewrite Hi. erewrite bind_ok; [|reflexivity].
  apply list_set_run; [done|]. by apply lookup_lt_Some in Hk.
Qed.

Lemma convert_timewindow_run self ts a b rest qa qb i0 i1 w :
  heap w !! ts = Some (PyList (a :: b :: rest)) →
  Py.truediv a (dt self) = Ok qa → F64.trunc qa = Ok i0 →
  Py.truediv b (dt self) = Ok qb → F64.trunc qb = Ok i1 →
  convert_timewindow self (Some ts) w =
    (Ok tt, World (<[ts := PyList (PyInt i0 :: PyInt i1 :: rest)]> (heap w))
                  (stdout w ++ [OutList (PyInt i0 :: PyInt i1 :: rest)]) (backend w)).
Proof.
  intros Hts Ha Hi0 Hb Hi1. unfold convert_timewindow.
  pose proof (lookup_lt_Some _ _ _ Hts) as Hlt.
  rewrite (bind_ok _ _ _ _ _ (list_get_run _ 0 _ a _ Hts eq_refl)).
  rewrite (bind_ok _ _ _ _ _ (list_get_run _ 1 _ b _ Hts eq_refl)).
  rewrite (bind_ok _ _ _ _ _ (seconds_to_index_run _ _ 0 _ _ _ _ _ Hts eq_refl Ha Hi0)).
  erewrite bind_ok; cycle 1.
  { eapply (seconds_to_index_run _ _ 1 (PyInt i0 :: b :: rest));
      [|reflexivity|exact Hb|exact Hi1].
    simpl. by apply list_lookup_insert_eq. }
  simpl. rewrite list_insert_insert_eq.
  erewrite bind_ok; cycle 1.
  { apply load_list_run. simpl. by apply list_lookup_insert_eq. }
  reflexivity.
Qed.

(** [wiggle] and [imageseis] as the conversion followed by the rest. *)
Definition wiggle_after_conversion self x t ti tsi perc skipt lwidth gain typeD color
    : M unit :=
  K <- (D <- (check_interval ti "Error: trace_interval should be a list of two elements" ;;
              check_interval tsi "Error: trace_interval should be a list of two elements" ;;
              select_view self ti tsi) ;;
        percentile_clip D perc) ;;
  wiggle_render x t ti tsi skipt lwidth gain typeD color K.

Definition imageseis_after_conversion self x t ti tsi gain perc : M loc :=
  K <- (D <- (check_interval ti "Error: trace_interval should be a list of two elements" ;;
              check_interval tsi "Error: timesample_interval should be a list of two elements" ;;
              select_view self ti tsi) ;;
        percentile_clip D perc) ;;
  imageseis_render x t tsi gain K.

Lemma wiggle_split self x t ti tsi tw perc skipt lwidth gain typeD color w :
  wiggle self x t ti tsi tw perc skipt lwidth gain typeD color w =
  bind (if tw then convert_timewindow self tsi else ret tt)
    (λ _, wiggle_after_conversion self x t ti tsi perc skipt lwidth gain typeD color) w.
Proof.
  unfold wiggle, select_clip, select_range, wiggle_after_conversion.
  destruct tw; unfold bind; [|reflexivity].
  by destruct (convert_timewindow self tsi w) as [[[]|e] w1].
Qed.

Lemma imageseis_split self x t ti tsi tw gain perc w :
  imageseis self x t ti tsi tw gain perc w =
  bind (if tw then convert_timewindow self tsi else ret tt)
    (λ _, imageseis_after_conversion self x t ti tsi gain perc) w.
Proof.
  unfold imageseis, select_clip, select_range, imageseis_after_conversion.
  destruct tw; unfold bind; [|reflexivity].
  by destruct (convert_timewindow self tsi w) as [[[]|e] w1].
Qed.

Lemma triple_wiggle_after_conversion h0 P self x t ti tsi perc skipt lwidth gain typeD color :
  triple (framed h0 P) (wiggle_after_conversion self x t ti tsi perc skipt lwidth gain typeD color)
    (λ _, True).
Proof.
  unfold wiggle_after_conversion.
  eapply triple_bind; [apply triple_select_after_conversion|].
  intros K HK. by apply triple_wiggle_render.
Qed.

Lemma triple_imageseis_after_conversion h0 P self x t ti tsi gain perc :
  triple (framed h0 P) (imageseis_after_conversion self x t ti tsi gain perc) (λ _, True).
Proof.
  unfold imageseis_after_conversion.
  eapply triple_bind; [apply triple_select_after_conversion|].
  intros K HK. eapply triple_any, triple_imageseis_render.
Qed.

(** After the conversion nothing that the call finds on the heap is
    written again. *)
Lemma after_conversion_keeps_heap {A} (m : M A) w l o :
  triple (framed (heap w) (λ _, True)) m (λ _, True) →
  heap w !! l = Some o → heap (m w).2 !! l = Some o.
Proof.
  intros Hm Hl. destruct (Hm w (framed_refl _ w)) as [[_ H] _]. by apply H.
Qed.

(** ** The source dataset and the caller's lists *)

(** C9.  The array buffers of [Data] and [STH] and the header dictionary
    [SH] are the same after a call of [wiggle] or [imageseis] and after a
    control change, whatever the arguments and whether or not the call
    raises; and the array that range selection and clipping hand to the
    renderer lies in a buffer that the call itself allocated. *)
Theorem source_dataset_unchanged
    self x t ti tsi tw perc skipt lwidth gain typeD color s v w data sh sth :
  heap w !! nd_base (Data self) = Some (Buf data) →
  heap w !! SH self = Some (PyDict sh) →
  heap w !! nd_base (STH self) = Some (Buf sth) →
  (∀ w',
     w' = (wiggle self x t ti tsi tw perc skipt lwidth gain typeD color w).2 ∨
     w' = (imageseis self x t ti tsi tw gain perc w).2 ∨
     w' = (control_change s v w).2 →
     heap w' !! nd_base (Data self) = Some (Buf data) ∧
     heap w' !! SH self = Some (PyDict sh) ∧
     heap w' !! nd_base (STH self) = Some (Buf sth)) ∧
  (∀ msg K w1,
     select_clip self ti tsi tw perc msg w = (Ok K, w1) →
     (length (heap w) ≤ nd_base K)%nat).
Proof.
  intros HD HS HT.
  assert (∀ A (m : M A), triple (framed (heap w) dataset_object) m (λ _, True) →
            heap (m w).2 !! nd_base (Data self) = Some (Buf data) ∧
            heap (m w).2 !! SH self = Some (PyDict sh) ∧
            heap (m w).2 !! nd_base (STH self) = Some (Buf sth)) as Hkeep.
  { intros A m Hm. destruct (Hm w (framed_refl _ w)) as [[_ H] _].
    repeat split; by apply H. }
  split.
  - intros w' [-> | [-> | ->]]; apply Hkeep.
    + apply triple_wiggle; intros ? [].
    + apply triple_imageseis; intros ? [].
    + apply triple_control_change; intros ? [].
  - intros msg K w1 HK.
    destruct (triple_select_clip (heap w) dataset_object (λ _, id) self ti tsi tw perc msg
                w (framed_refl _ w)) as [_ H].
    apply H. by rewrite HK.
Qed.

Lemma source_dataset_unchanged_witness :
  let w := Survey.world_of Survey.small [] in
  let self := Survey.box 3 2 in
  let kept w' :=
    heap w' !! 0%nat = Some (Buf Survey.small) ∧
    heap w' !! 1%nat = Some (PyDict [("dt", PyInt 2000)]) ∧
    heap w' !! 2%nat = Some (Buf [[0; 10]]%float) in
  kept (wiggle self None None None None false 100 1 0.5 (PyInt 1) "VA" "red" w).2 ∧
  kept (imageseis self None None None None false (PyInt 1) 100 w).2 ∧
  kept (control_change 7 2 w).2.
Proof.
  intros w self kept.
  pose proof (proj1 (source_dataset_unchanged self None None None None false 100 1 0.5
                       (PyInt 1) "VA" "red" 7%nat 2%float w _ _ _ eq_refl eq_refl eq_refl))
    as H.
  split; [|split]; apply H; auto.
Defined.

(** C10.  With [timewindow=True] the first two elements of the caller's
    [timesample_interval] list are replaced, in the list object itself, by
    the integer sample indices [int(seconds / dt)], and the list still holds
    them when [wiggle] or [imageseis] is over, however the call ends. *)
Theorem timewindow_rewrites_callers_list
    self x t ti ts perc skipt lwidth gain typeD color a b rest qa qb i0 i1 w :
  heap w !! ts = Some (PyList (a :: b :: rest)) →
  Py.truediv a (dt self) = Ok qa → F64.trunc qa = Ok i0 →
  Py.truediv b (dt self) = Ok qb → F64.trunc qb = Ok i1 →
  heap (wiggle self x t ti (Some ts) true perc skipt lwidth gain typeD color w).2 !! ts
    = Some (PyList (PyInt i0 :: PyInt i1 :: rest)) ∧
  heap (imageseis self x t ti (Some ts) true gain perc w).2 !! ts
    = Some (PyList (PyInt i0 :: PyInt i1 :: rest)).
Proof.
  intros Hts Ha Hi0 Hb Hi1.
  pose proof (convert_timewindow_run _ _ _ _ _ _ _ _ _ _ Hts Ha Hi0 Hb Hi1) as Hconv.
  pose proof (lookup_lt_Some _ _ _ Hts) as Hlt.
  split.
  - rewrite wiggle_split, (bind_ok _ _ _ _ _ Hconv).
    apply after_conversion_keeps_heap; [apply triple_wiggle_after_conversion|].
    simpl. by apply list_lookup_insert_eq.
  - rewrite imageseis_split, (bind_ok _ _ _ _ _ Hconv).
    apply after_conversion_keeps_heap; [apply triple_imageseis_after_conversion|].
    simpl. by apply list_lookup_insert_eq.
Qed.

Lemma timewindow_rewrites_callers_list_witness :
  let w := Survey.world_of (Survey.ramp 200) [[PyFloat Survey.s01; PyFloat Survey.s03]] in
  let self := Survey.box 200 2 in
  heap w !! 3%nat = Some (PyList [PyFloat Survey.s01; PyFloat Survey.s03]) ∧
  heap (wiggle self None None None (Some 3%nat) true 100 1 0.5 (PyInt 1) "VA" "red" w).2 !! 3%nat
    = Some (PyList [PyInt 50; PyInt 150]) ∧
  heap (imageseis self None None None (Some 3%nat) true (PyInt 1) 100 w).2 !! 3%nat
    = Some (PyList [PyInt 50; PyInt 150]).
Proof.
  intros w self. split; [reflexivity|].
  apply (timewindow_rewrites_callers_list self None None None 3%nat 100 1 0.5 (PyInt 1)
           "VA" "red" (PyFloat Survey.s01) (PyFloat Survey.s03) [] 50%float 150%float 50 150 w);
    vm_compute; reflexivity.
Defined.

(** ** Malformed ranges *)

(** An interval argument names a list of the heap; it is malformed when the
    list does not have two elements. *)
Definition listed (h : list obj) (iv : option loc) : Prop :=
  ∀ l, iv = Some l → ∃ items, h !! l = Some (PyList items).

Definition malformed (h : list obj) (iv : option loc) : Prop :=
  ∃ l items, iv = Some l ∧ h !! l = Some (PyList items) ∧ length items ≠ 2%nat.

(** What the conversion of the time window keeps: the backend has seen no
    call, no object was made, and every list has the length it had. *)
Definition quiet (w0 w : world) : Prop :=
  backend w = backend w0 ∧
  length (heap w) = length (heap w0) ∧
  ∀ l items, heap w0 !! l = Some (PyList items) →
    ∃ items', heap w !! l = Some (PyList items') ∧ length items' = length items.

Lemma quiet_refl w : quiet w w.
Proof. repeat split. eauto. Qed.

Section Quiet.

Variable w0 : world.

Lemma quiet_same_heap w o :
  quiet w0 w → quiet w0 (World (heap w) o (backend w)).
Proof. by intros (? & ? & ?). Qed.

Lemma quiet_load l : triple (quiet w0) (load l) (λ _, True).
Proof. intros w Hw. unfold load. by destruct (heap w !! l). Qed.

Lemma quiet_load_list l : triple (quiet w0) (load_list l) (λ _, True).
Proof.
  unfold load_list. eapply triple_bind; [apply quiet_load|].
  intros [] _; first [by apply triple_ret | apply triple_raise].
Qed.

Lemma quiet_list_get l k : triple (quiet w0) (list_get l k) (λ _, True).
Proof.
  unfold list_get. eapply triple_bind; [apply quiet_load_list|].
  intros items _. destruct (items !! k); [by apply triple_ret | apply triple_raise].
Qed.

Lemma quiet_list_set l k v : triple (quiet w0) (list_set l k v) (λ _, True).
Proof.
  intros w (Hb & Hlen & Hl). unfold list_set, load_list, bind, load.
  destruct (heap w !! l) as [[]|] eqn:E; simpl; try done.
  case_decide; simpl; [|done]. split; [|done].
  split; [done|]. simpl. split; [by rewrite length_insert|].
  intros l' its Hl'. destruct (Hl _ _ Hl') as (its' & H1 & H2).
  destruct (decide (l' = l)) as [->|Hne].
  - exists (<[k := v]> items). rewrite list_lookup_insert_eq by by eapply lookup_lt_Some.
    split; [done|]. rewrite length_insert.
    by pose proof (eq_trans (eq_sym E) H1) as [= ->].
  - exists its'. by rewrite list_lookup_insert_ne.
Qed.

Lemma quiet_convert_timewindow self tsi :
  triple (quiet w0) (convert_timewindow self tsi) (λ _, True).
Proof.
  unfold convert_timewindow. destruct tsi as [ts|]; [|apply triple_raise].
  assert (∀ k, triple (quiet w0) (seconds_to_index self ts k) (λ _, True)) as Hs.
  { intros k. unfold seconds_to_index.
    eapply triple_bind; [apply quiet_list_get|]. intros v _.
    eapply triple_bind; [apply triple_lift_any|]. intros q _.
    eapply triple_bind; [apply triple_lift_any|]. intros i _.
    apply quiet_list_set. }
  eapply triple_bind; [apply quiet_list_get|]. intros _ _.
  eapply triple_bind; [apply quiet_list_get|]. intros _ _.
  eapply triple_bind; [apply Hs|]. intros _ _.
  eapply triple_bind; [apply Hs|]. intros _ _.
  eapply triple_bind; [apply quiet_load_list|]. intros items _.
  intros w Hw. split; [|done]. by apply quiet_same_heap.
Qed.

End Quiet.

Lemma check_interval_bad l items msg w :
  heap w !! l = Some (PyList items) → length items ≠ 2%nat →
  check_interval (Some l) msg w =
    (Raise SystemExit, World (heap w) (stdout w ++ [OutStr msg]) (backend w)).
Proof.
  intros Hl Hlen. unfold check_interval.
  rewrite (bind_ok _ _ _ _ _ (load_list_run _ _ _ Hl)).
  rewrite decide_True by by left. reflexivity.
Qed.

Lemma check_interval_good iv msg w :
  listed (heap w) iv → ¬ malformed (heap w) iv → check_interval iv msg w = (Ok tt, w).
Proof.
  intros Hl Hm. unfold check_interval. destruct iv as [l|]; [|done].
  destruct (Hl l eq_refl) as [items Hi].
  rewrite (bind_ok _ _ _ _ _ (load_list_run _ _ _ Hi)).
  rewrite decide_False; [done|].
  intros Hbad. apply Hm. exists l, items. repeat split; [done|]. lia.
Qed.

Lemma malformed_dec h iv : listed h iv → malformed h iv ∨ ¬ malformed h iv.
Proof.
  intros Hl. destruct iv as [l|].
  - destruct (Hl l eq_refl) as [items Hi].
    destruct (decide (length items = 2%nat)) as [He|Hne].
    + right. intros (l' & its & [= <-] & H1 & H2). congruence.
    + left. by exists l, items.
  - right. by intros (l' & its & [=] & _).
Qed.

(** The two checks stop a malformed range with [sys.exit()]. *)
Lemma checks_exit self ti tsi msg w :
  listed (heap w) ti → listed (heap w) tsi →
  malformed (heap w) ti ∨ malformed (heap w) tsi →
  ∃ out,
    (check_interval ti "Error: trace_interval should be a list of two elements" ;;
     check_interval tsi msg ;;
     select_view self ti tsi) w
    = (Raise SystemExit, World (heap w) (stdout w ++ [OutStr out]) (backend w)).
Proof.
  intros Hti Htsi Hbad.
  destruct (malformed_dec _ _ Hti) as [(l & items & -> & Hl & Hlen) | Hok].
  - eexists. by rewrite (bind_raise _ _ _ _ _ (check_interval_bad _ _ _ _ Hl Hlen)).
  - destruct Hbad as [? | (l & items & -> & Hl & Hlen)]; [done|].
    rewrite (bind_ok _ _ _ _ _ (check_interval_good _ _ _ Hti Hok)).
    eexists. by rewrite (bind_raise _ _ _ _ _ (check_interval_bad _ _ _ _ Hl Hlen)).
Qed.

Lemma listed_quiet w0 w iv : quiet w0 w → listed (heap w0) iv → listed (heap w) iv.
Proof.
  intros (_ & _ & Hq) Hl l ->. destruct (Hl l eq_refl) as [items Hi].
  destruct (Hq _ _ Hi) as (items' & ? & _). eauto.
Qed.

Lemma malformed_quiet w0 w iv : quiet w0 w → malformed (heap w0) iv → malformed (heap w) iv.
Proof.
  intros (_ & _ & Hq) (l & items & -> & Hi & Hlen).
  destruct (Hq _ _ Hi) as (items' & ? & Hlen'). exists l, items'.
  repeat split; [done|congruence].
Qed.

(** The range selection on a malformed range: it raises, and until then the
    backend has seen no call and no array was made. *)
Lemma select_range_malformed self ti tsi tw w :
  listed (heap w) ti → listed (heap w) tsi →
  malformed (heap w) ti ∨ malformed (heap w) tsi →
  ∃ e, ∀ msg, ∃ w',
    select_range self ti tsi tw msg w = (Raise e, w') ∧
    backend w' = backend w ∧
    length (heap w') = length (heap w) ∧
    (tw = false → e = SystemExit ∧ heap w' = heap w).
Proof.
  intros Hti Htsi Hbad. unfold select_range. destruct tw.
  - destruct (quiet_convert_timewindow w self tsi w (quiet_refl w)) as [Hq _].
    unfold bind at 1.
    destruct (convert_timewindow self tsi w) as [[[]|e] w1]; simpl in Hq.
    + exists SystemExit. intros msg.
      destruct (checks_exit self ti tsi msg w1) as [out Hout].
      * by eapply listed_quiet.
      * by eapply listed_quiet.
      * destruct Hbad; [left|right]; by eapply malformed_quiet.
      * destruct Hq as (Hb & Hlen & _).
        eexists. split; [exact Hout|]. by repeat split.
    + destruct Hq as (Hb & Hlen & _). exists e. intros _. eexists. by repeat split.
  - exists SystemExit. intros msg.
    destruct (checks_exit self ti tsi msg w Hti Htsi Hbad) as [out Hout].
    erewrite bind_ok; [|reflexivity].
    eexists. split; [exact Hout|]. by repeat split.
Qed.

(** C6 (as amended).  A [trace_interval] or [timesample_interval] list whose
    length is not 2 makes [wiggle] and [imageseis] raise before the data are
    copied or sliced and before any call on the plotting backend.  With
    [timewindow] off the exception is the [SystemExit] of [sys.exit()] and
    the heap is untouched; [SystemExit] ends the interpreter unless it is
    caught. *)
Theorem malformed_range_exits
    self x t ti tsi tw perc skipt lwidth gain typeD color w :
  listed (heap w) ti → listed (heap w) tsi →
  malformed (heap w) ti ∨ malformed (heap w) tsi →
  ∃ e w',
    wiggle self x t ti tsi tw perc skipt lwidth gain typeD color w = (Raise e, w') ∧
    (imageseis self x t ti tsi tw gain perc w).1 = Raise e ∧
    backend w' = backend w ∧
    backend (imageseis self x t ti tsi tw gain perc w).2 = backend w ∧
    length (heap w') = length (heap w) ∧
    length (heap (imageseis self x t ti tsi tw gain perc w).2) = length (heap w) ∧
    (tw = false →
       e = SystemExit ∧ ends_interpreter e = true ∧ heap w' = heap w ∧
       heap (imageseis self x t ti tsi tw gain perc w).2 = heap w).
Proof.
  intros Hti Htsi Hbad.
  destruct (select_range_malformed self ti tsi tw w Hti Htsi Hbad) as [e He].
  destruct (He "Error: trace_interval should be a list of two elements")
    as (w' & Hw & Hb & Hlen & Hoff).
  destruct (He "Error: timesample_interval should be a list of two elements")
    as (w2 & Hw2 & Hb2 & Hlen2 & Hoff2).
  exists e, w'. unfold wiggle, imageseis, select_clip.
  rewrite (bind_raise _ _ _ _ _ (bind_raise _ _ _ _ _ Hw)).
  rewrite (bind_raise _ _ _ _ _ (bind_raise _ _ _ _ _ Hw2)). simpl.
  repeat split; try done.
  - by destruct Hoff.
  - destruct Hoff as [-> _]; done.
  - by destruct Hoff.
  - by destruct Hoff2.
Qed.

Lemma malformed_range_exits_witness :
  let w := Survey.world_of Survey.small [[PyInt 1; PyInt 2; PyInt 3]] in
  let self := Survey.box 3 2 in
  malformed (heap w) (Some 3%nat) ∧
  ∃ e w',
    wiggle self None None (Some 3%nat) None false 100 1 0.5 (PyInt 1) "VA" "red" w = (Raise e, w') ∧
    (imageseis self None None (Some 3%nat) None false (PyInt 1) 100 w).1 = Raise e ∧
    backend w' = backend w ∧
    backend (imageseis self None None (Some 3%nat) None false (PyInt 1) 100 w).2 = backend w ∧
    length (heap w') = length (heap w) ∧
    length (heap (imageseis self None None (Some 3%nat) None false (PyInt 1) 100 w).2)
      = length (heap w) ∧
    (false = false →
       e = SystemExit ∧ ends_interpreter e = true ∧ heap w' = heap w ∧
       heap (imageseis self None None (Some 3%nat) None false (PyInt 1) 100 w).2 = heap w).
Proof.
  intros w self.
  assert (malformed (heap w) (Some 3%nat)) as Hbad.
  { exists 3%nat, [PyInt 1; PyInt 2; PyInt 3]. repeat split. simpl. lia. }
  split; [exact Hbad|].
  apply (malformed_range_exits self None None (Some 3%nat) None false 100 1 0.5 (PyInt 1)
           "VA" "red" w).
  - intros l [= <-]. by eexists.
  - intros l [=].
  - by left.
Defined.

(** C6 (the claim as stated fails).  For [trace_interval = [1, 2, 3]] both
    functions end in [SystemExit], which ends the interpreter when it is not
    caught: the failure is not an ordinary error confined to the call. *)
Lemma malformed_range_is_SystemExit :
  let w := Survey.world_of Survey.small [[PyInt 1; PyInt 2; PyInt 3]] in
  let self := Survey.box 3 2 in
  (wiggle self None None (Some 3%nat) None false 100 1 0.5 (PyInt 1) "VA" "red" w).1
    = Raise SystemExit ∧
  (imageseis self None None (Some 3%nat) None false (PyInt 1) 100 w).1 = Raise SystemExit ∧
  ends_interpreter SystemExit = true.
Proof. repeat split; vm_compute; reflexivity. Qed.

(** ** Seconds to sample indices *)

(** On a quotient that is not negative, the truncation of [int()] is the
    floor. *)
(** [int()] of a float truncates toward zero: the floor of a quotient that
    is not negative, the ceiling (minus the floor of the opposite) of a
    negative one. *)
Lemma trunc_floor_or_ceiling q i :
  F64.trunc q = Ok i →
  (PrimFloat.leb 0 q = true → F64.floor q = Some i) ∧
  (PrimFloat.ltb q 0 = true → F64.floor (PrimFloat.opp q) = Some (- i)).
Proof.
  rewrite leb_spec, ltb_spec. unfold F64.floor, F64.trunc. rewrite opp_spec.
  change (Prim2SF 0) with (S754_zero false).
  destruct (Prim2SF q) as [s|s| |[] m e]; simpl; try discriminate;
    intros [= <-]; split; try discriminate; try done.
  intros _. by rewrite Z.opp_involutive.
Qed.

Lemma int_bounds_run l a b rest i j w :
  heap w !! l = Some (PyList (a :: b :: rest)) → Py.int a = Ok i → Py.int b = Ok j →
  int_bounds l w = (Ok (i, j), w).
Proof.
  intros Hl Ha Hb. unfold int_bounds.
  rewrite (bind_ok _ _ _ _ _ (list_get_run _ 0 _ a _ Hl eq_refl)).
  rewrite Ha. erewrite bind_ok; [|reflexivity].
  rewrite (bind_ok _ _ _ _ _ (list_get_run _ 1 _ b _ Hl eq_refl)).
  rewrite Hb. by erewrite bind_ok.
Qed.

Lemma copy_array_run a rows w :
  heap w !! nd_base a = Some (Buf rows) →
  copy_array a w =
    (Ok (NdArray (length (heap w)) 0 (nrows a) 0 (ncols a)),
     World (heap w ++ [Buf (window a rows)]) (stdout w) (backend w)).
Proof.
  intros Ha. unfold copy_array. by rewrite (bind_ok _ _ _ _ _ (read_array_run _ _ _ Ha)).
Qed.

Lemma check_interval_pair l a b msg w :
  heap w !! l = Some (PyList [a; b]) → check_interval (Some l) msg w = (Ok tt, w).
Proof.
  intros Hl. unfold check_interval.
  rewrite (bind_ok _ _ _ _ _ (load_list_run _ _ _ Hl)).
  rewrite decide_False; [done|]. simpl. lia.
Qed.

Lemma col_window_check h ti D Dc msg w :
  heap w = h → col_window h ti D = Some Dc →
  check_interval ti msg w = (Ok tt, w).
Proof.
  intros <-. unfold col_window. destruct ti as [l|]; [|done].
  destruct (heap w !! l) as [[|[|a [|b []]]| | |]|] eqn:E; try discriminate.
  intros _. by eapply check_interval_pair.
Qed.

(** C7 (as amended).  With [timewindow=True] both endpoints of the time
    range are replaced by [int(seconds / dt)] before the data are sliced:
    the quotient truncated toward zero, which is [floor(seconds / dt)] when
    the quotient is not negative and the ceiling when it is negative.  The
    rows selected are those of the Python slice between the two indices;
    the columns are those of the trace range, if there is one. *)
Theorem timewindow_index_truncates self ti ts s0 s1 i0 i1 rows Dc msg w :
  heap w !! ts = Some (PyList [PyFloat s0; PyFloat s1]) →
  heap w !! nd_base (Data self) = Some (Buf rows) →
  PrimFloat.eqb (dt self) F64.zero = false →
  F64.trunc (s0 / dt self) = Ok i0 →
  F64.trunc (s1 / dt self) = Ok i1 →
  col_window (<[ts := PyList [PyInt i0; PyInt i1]]> (heap w)) ti
    (NdArray (length (heap w)) 0 (nrows (Data self)) 0 (ncols (Data self))) = Some Dc →
  (∀ s i, (s, i) ∈ [(s0, i0); (s1, i1)] →
     let q := (s / dt self)%float in
     (PrimFloat.leb 0 q = true → F64.floor q = Some i) ∧
     (PrimFloat.ltb q 0 = true → F64.floor (PrimFloat.opp q) = Some (- i))) ∧
  ∃ w',
    select_range self ti (Some ts) true msg w = (Ok (slice_rows Dc i0 i1), w') ∧
    heap w' !! ts = Some (PyList [PyInt i0; PyInt i1]) ∧
    heap w' !! length (heap w) = Some (Buf (window (Data self) rows)).
Proof.
  intros Hts HD Hdt Hi0 Hi1 Hcol. split.
  { intros s i Hin q. apply trunc_floor_or_ceiling.
    rewrite !elem_of_cons, elem_of_nil in Hin.
    destruct Hin as [[= -> ->]|[[= -> ->]|[]]]; done. }
  pose proof (lookup_lt_Some _ _ _ Hts) as Hlt.
  assert (Py.truediv (PyFloat s0) (dt self) = Ok (s0 / dt self)%float) as Ha.
  { unfold Py.truediv. simpl. by rewrite Hdt. }
  assert (Py.truediv (PyFloat s1) (dt self) = Ok (s1 / dt self)%float) as Hb.
  { unfold Py.truediv. simpl. by rewrite Hdt. }
  pose proof (convert_timewindow_run self ts _ _ [] _ _ i0 i1 w Hts Ha Hi0 Hb Hi1) as Hconv.
  unfold select_range. rewrite (bind_ok _ _ _ _ _ Hconv).
  set (h1 := <[ts := PyList [PyInt i0; PyInt i1]]> (heap w)) in *.
  set (w1 := World h1 _ _).
  assert (h1 !! ts = Some (PyList [PyInt i0; PyInt i1])) as Hts1
    by by apply list_lookup_insert_eq.
  assert (h1 !! nd_base (Data self) = Some (Buf rows)) as HD1.
  { unfold h1. rewrite list_lookup_insert_ne; [done|]. intros Heq.
    rewrite <- Heq in HD. by pose proof (eq_trans (eq_sym Hts) HD). }
  rewrite (bind_ok _ _ _ _ _ (col_window_check h1 ti _ _ _ w1 eq_refl Hcol)).
  rewrite (bind_ok _ _ _ _ _ (check_interval_pair ts _ _ msg w1 Hts1)).
  unfold select_view.
  rewrite (bind_ok _ _ _ _ _ (copy_array_run _ _ w1 HD1)).
  set (w2 := World (heap w1 ++ _) _ _).
  assert (length (heap w1) = length (heap w)) as Hlen by apply length_insert.
  rewrite Hlen.
  assert (∀ l o, h1 !! l = Some o → heap w2 !! l = Some o) as Hext.
  { intros l o Hl. simpl. by apply lookup_app_l_Some. }
  assert ((match ti with
           | Some l => ij <- int_bounds l ;;
                       ret (slice_cols (NdArray (length (heap w)) 0 (nrows (Data self)) 0
                                          (ncols (Data self))) ij.1 ij.2)
           | None => ret (NdArray (length (heap w)) 0 (nrows (Data self)) 0
                            (ncols (Data self)))
           end) w2 = (Ok Dc, w2)) as Hti.
  { unfold col_window in Hcol. destruct ti as [l|]; [|by injection Hcol as <-].
    destruct (h1 !! l) as [[|[|a [|b []]]| | |]|] eqn:E; try discriminate.
    destruct (Py.int a) as [i|] eqn:Ea; [|discriminate].
    destruct (Py.int b) as [j|] eqn:Eb; [|discriminate].
    injection Hcol as <-.
    by rewrite (bind_ok _ _ _ _ _ (int_bounds_run l a b [] i j w2 (Hext _ _ E) Ea Eb)). }
  rewrite (bind_ok _ _ _ _ _ Hti).
  rewrite (bind_ok _ _ _ _ _
             (int_bounds_run ts _ _ [] i0 i1 w2 (Hext _ _ Hts1) eq_refl eq_refl)).
  exists w2. split; [done|]. split; [by apply Hext|].
  simpl. rewrite <- Hlen. by apply list_lookup_middle.
Qed.

Lemma timewindow_index_truncates_witness :
  let w := Survey.world_of (Survey.ramp 200) [[PyFloat Survey.s01; PyFloat Survey.s03]] in
  let self := Survey.box 200 2 in
  dt self = (2000 / 1000000)%float ∧
  F64.floor (Survey.s01 / dt self) = Some 50 ∧
  F64.floor (Survey.s03 / dt self) = Some 150 ∧
  ∃ w',
    select_range self None (Some 3%nat) true "" w
      = (Ok (NdArray 4 50 150 0 2), w') ∧
    heap w' !! 3%nat = Some (PyList [PyInt 50; PyInt 150]) ∧
    heap w' !! 4%nat = Some (Buf (Survey.ramp 200)).
Proof.
  intros w self.
  pose proof (timewindow_index_truncates self None 3%nat Survey.s01 Survey.s03 50 150
                (Survey.ramp 200) (NdArray 4 0 200 0 2) "" w
                eq_refl eq_refl eq_refl eq_refl eq_refl eq_refl) as [Hfloor Hrun].
  split; [vm_compute; reflexivity|].
  split; [|split; [|exact Hrun]].
  - apply (Hfloor Survey.s01 50); [rewrite !elem_of_cons; tauto|].
    vm_compute. reflexivity.
  - apply (Hfloor Survey.s03 150); [rewrite !elem_of_cons; tauto|].
    vm_compute. reflexivity.
Defined.

(** C7 (the claim as stated fails).  For the time range [-0.003, 0.3]
    seconds and [dt = 0.002] the first quotient is -1.5: its floor is -2,
    but [int()] truncates toward zero and the list is left holding -1; the
    call goes on and slices the rows with it (the Python slice [-1:150] of
    200 rows, which is empty). *)
Lemma timewindow_index_is_not_floor :
  let m0003 := (-0x1.89374bc6a7efap-9)%float in
  let w := Survey.world_of (Survey.ramp 200) [[PyFloat m0003; PyFloat Survey.s03]] in
  let self := Survey.box 200 2 in
  let r := select_range self None (Some 3%nat) true "" w in
  (m0003 / dt self)%float = (-1.5)%float ∧
  F64.floor (m0003 / dt self) = Some (-2) ∧
  heap r.2 !! 3%nat = Some (PyList [PyInt (-1); PyInt 150]) ∧
  r.1 = Ok (NdArray 4 199 199 0 2).
Proof. repeat split; vm_compute; reflexivity. Qed.

(** ** The interactive controls *)

Lemma slider_val_run h s a w :
  heap w = h → slider_value h s = Some a → slider_val s w = (Ok a, w).
Proof.
  intros <-. unfold slider_value, slider_val, bind, load.
  destruct (heap w !! s) as [[]|]; try discriminate. by intros [= <-].
Qed.

Lemma set_clim_run img lim m w :
  raster (heap w) img = Some m →
  set_clim img lim w =
    (Ok tt, World (<[img := Mesh (with_clim m lim)]> (heap w)) (stdout w) (backend w)).
Proof.
  unfold raster, set_clim, bind, load.
  destruct (heap w !! img) as [[]|]; try discriminate. by intros [= ->].
Qed.

Lemma update_run c_min c_max c_gain img a b g m w :
  slider_value (heap w) c_min = Some a →
  slider_value (heap w) c_max = Some b →
  slider_value (heap w) c_gain = Some g →
  raster (heap w) img = Some m →
  update (Update c_min c_max c_gain img) w =
    (Ok tt, World (<[img := Mesh (with_clim m (a / g, b / g)%float)]> (heap w))
                  (stdout w) (backend w ++ [Draw])).
Proof.
  intros Ha Hb Hg Hm. unfold update.
  rewrite (bind_ok _ _ _ _ _ (slider_val_run _ _ _ w eq_refl Ha)).
  rewrite (bind_ok _ _ _ _ _ (slider_val_run _ _ _ w eq_refl Hg)).
  rewrite (bind_ok _ _ _ _ _ (slider_val_run _ _ _ w eq_refl Hb)).
  rewrite (bind_ok _ _ _ _ _ (slider_val_run _ _ _ w eq_refl Hg)).
  by rewrite (bind_ok _ _ _ _ _ (set_clim_run _ _ _ w Hm)).
Qed.

Lemma slider_value_insert_mesh h img m s :
  is_Some (raster h img) →
  slider_value (<[img := Mesh m]> h) s = slider_value h s.
Proof.
  intros [m' Hm]. unfold slider_value, raster in *.
  destruct (decide (s = img)) as [->|Hne].
  - destruct (h !! img) as [[]|] eqn:E; try discriminate.
    rewrite list_lookup_insert_eq; [done|]. by eapply lookup_lt_Some.
  - by rewrite list_lookup_insert_ne.
Qed.

Lemma raster_insert_mesh h img m :
  is_Some (raster h img) → raster (<[img := Mesh m]> h) img = Some m.
Proof.
  intros [m' Hm]. unfold raster in *.
  destruct (h !! img) as [[]|] eqn:E; try discriminate.
  rewrite list_lookup_insert_eq; [done|]. by eapply lookup_lt_Some.
Qed.

Lemma slider_value_insert_slider h s sl s' :
  is_Some (slider_value h s) →
  slider_value (<[s := SliderW sl]> h) s' =
    if decide (s' = s) then Some (sl_val sl) else slider_value h s'.
Proof.
  intros [a Ha]. unfold slider_value in *. case_decide as Hd.
  - subst. destruct (h !! s) as [[]|] eqn:E; try discriminate.
    rewrite list_lookup_insert_eq; [done|]. by eapply lookup_lt_Some.
  - by rewrite list_lookup_insert_ne.
Qed.

Lemma raster_insert_slider h s sl img :
  is_Some (slider_value h s) →
  raster (<[s := SliderW sl]> h) img = raster h img.
Proof.
  intros [a Ha]. unfold slider_value, raster in *.
  destruct (decide (img = s)) as [->|Hne].
  - destruct (h !! s) as [[]|] eqn:E; try discriminate.
    rewrite list_lookup_insert_eq; [done|]. by eapply lookup_lt_Some.
  - by rewrite list_lookup_insert_ne.
Qed.

Lemma controls_slider_value h c_min c_max c_gain img s :
  controls h (Update c_min c_max c_gain img) → s ∈ [c_min; c_max; c_gain] →
  is_Some (slider_value h s).
Proof.
  intros [_ Hs] Hin. destruct (Hs s Hin) as (sl & Hsl & _).
  unfold slider_value. rewrite Hsl. by eexists.
Qed.

(** C4.  A change of any of the three controls to any value sets the colour
    limits of the raster to (min clip value / gain value, max clip value /
    gain value), read from the controls after the change; the raster's
    coordinates, data and colour map are what they were; and calling the
    callback again on the same control values leaves the same limits. *)
Theorem control_change_sets_limits c_min c_max c_gain img s v m w :
  controls (heap w) (Update c_min c_max c_gain img) →
  raster (heap w) img = Some m →
  s ∈ [c_min; c_max; c_gain] →
  ∃ w' a b g,
    control_change s v w = (Ok tt, w') ∧
    slider_value (heap w') s = Some v ∧
    slider_value (heap w') c_min = Some a ∧
    slider_value (heap w') c_max = Some b ∧
    slider_value (heap w') c_gain = Some g ∧
    raster (heap w') img = Some (with_clim m (a / g, b / g)%float) ∧
    ∃ w'',
      update (Update c_min c_max c_gain img) w' = (Ok tt, w'') ∧
      raster (heap w'') img = Some (with_clim m (a / g, b / g)%float) ∧
      heap w'' = heap w'.
Proof.
  intros Hc Hm Hs.
  pose proof Hc as [Hr Hsl]. destruct (Hsl s Hs) as (sl & Hsls & Hobs).
  destruct sl as [lab vmin vmax val obs]. simpl in Hobs. subst obs.
  set (sl := Slider lab vmin vmax val _) in *.
  set (sl' := Slider (sl_label sl) (sl_valmin sl) (sl_valmax sl) v (sl_observers sl)).
  set (h1 := <[s := SliderW sl']> (heap w)).
  assert (is_Some (slider_value (heap w) s)) as Hsv by by eapply controls_slider_value.
  assert (∀ s', s' ∈ [c_min; c_max; c_gain] → is_Some (slider_value h1 s')) as Hval.
  { intros s' Hs'. unfold h1. rewrite slider_value_insert_slider by done.
    case_decide; [by eexists|]. by eapply controls_slider_value. }
  destruct (Hval c_min) as [a Ha]; [rewrite !elem_of_cons; tauto|].
  destruct (Hval c_max) as [b Hb]; [rewrite !elem_of_cons; tauto|].
  destruct (Hval c_gain) as [g Hg]; [rewrite !elem_of_cons; tauto|].
  assert (raster h1 img = Some m) as Hm1.
  { unfold h1. by rewrite raster_insert_slider. }
  set (m' := with_clim m (a / g, b / g)%float).
  set (h2 := <[img := Mesh m']> h1).
  assert (is_Some (raster h1 img)) as Hr1 by by eexists.
  exists (World h2 (stdout w) (backend w ++ [Draw])), a, b, g.
  split; [|split; [|split; [|split; [|split; [|split]]]]]; simpl.
  - unfold control_change, bind at 1, load. rewrite Hsls. simpl.
    erewrite bind_ok; [|reflexivity]. simpl.
    erewrite bind_ok; [reflexivity|].
    by apply (update_run c_min c_max c_gain img a b g m (World h1 (stdout w) (backend w))).
  - unfold h2. rewrite slider_value_insert_mesh by done.
    unfold h1. rewrite slider_value_insert_slider by done. by rewrite decide_True.
  - unfold h2. by rewrite slider_value_insert_mesh.
  - unfold h2. by rewrite slider_value_insert_mesh.
  - unfold h2. by rewrite slider_value_insert_mesh.
  - unfold h2. by rewrite raster_insert_mesh.
  - eexists. split.
    + apply (update_run c_min c_max c_gain img a b g m'); simpl; unfold h2.
      * by rewrite slider_value_insert_mesh.
      * by rewrite slider_value_insert_mesh.
      * by rewrite slider_value_insert_mesh.
      * by rewrite raster_insert_mesh.
    + simpl. unfold h2. rewrite list_insert_insert_eq.
      split; [by rewrite raster_insert_mesh|done].
Qed.

(** ** binary64 products with 1 and -1 *)

Lemma digits2_pos_shift52 m :
  Z.pos (digits2_pos (4503599627370496 * m)) = Z.pos (digits2_pos m) + 52.
Proof. cbv [Pos.mul]. cbn [digits2_pos]. lia. Qed.

Lemma iter_shr52 m :
  SpecFloat.iter_pos shr_1 52 (shr_record_of_loc (Z.pos (4503599627370496 * m)) loc_Exact)
  = {| shr_m := Z.pos m; shr_r := false; shr_s := false |}.
Proof. cbv [Pos.mul]. cbn. reflexivity. Qed.

(** Rounding the exact product of a mantissa by 2^52, at an exponent lowered
    by 52, gives the mantissa back. *)
Lemma round_unit s m e :
  bounded prec emax m e = true →
  binary_round_aux prec emax s (Z.pos (4503599627370496 * m)) (-52 + e) loc_Exact
  = S754_finite s m e.
Proof.
  intros Hb. unfold bounded, canonical_mantissa in Hb.
  apply andb_prop in Hb as [Hc He]. apply Z.eqb_eq in Hc. apply Z.leb_le in He.
  unfold binary_round_aux, shr_fexp, Zdigits2.
  rewrite digits2_pos_shift52.
  replace (Z.pos (digits2_pos m) + 52 + (-52 + e)) with (Z.pos (digits2_pos m) + e) by lia.
  rewrite Hc. replace (e - (-52 + e)) with 52 by lia.
  unfold shr at 1. rewrite !iter_shr52.
  cbn [shr_m loc_of_shr_record shr_r shr_s round_nearest_even].
  replace (-52 + e + 52) with e by lia.
  rewrite Hc. replace (e - e) with 0 by lia.
  cbn [shr shr_record_of_loc shr_m].
  apply Z.leb_le in He. by rewrite He.
Qed.

Lemma mul_one_l (x : float) : PrimFloat.mul 1 x = x.
Proof.
  apply Prim2SF_inj. rewrite mul_spec.
  change (Prim2SF 1) with (S754_finite false 4503599627370496 (-52)).
  pose proof (Prim2SF_valid x) as Hv.
  destruct (Prim2SF x) as [s|s| |s m e]; try reflexivity.
  unfold SF64mul, SFmul. cbn [xorb]. by apply round_unit.
Qed.

Lemma mul_minus_one_l (x : float) : PrimFloat.mul (-1) x = PrimFloat.opp x.
Proof.
  apply Prim2SF_inj. rewrite mul_spec, opp_spec.
  change (Prim2SF (-1)) with (S754_finite true 4503599627370496 (-52)).
  pose proof (Prim2SF_valid x) as Hv.
  destruct (Prim2SF x) as [s|s| |s m e]; try reflexivity.
  unfold SF64mul, SFmul. cbn [SFopp].
  replace (xorb true s) with (negb s) by (by destruct s). by apply round_unit.
Qed.

(** ** The colour scale of the image *)

Lemma index_bounds_inv l ij w w' : index_bounds l w = (Ok ij, w') → w' = w.
Proof.
  unfold index_bounds.
  intros (a & w1 & (? & _ & _ & ->)%list_get_inv & H)%bind_inv_ok.
  apply bind_inv_ok in H as (b & w2 & (? & _ & _ & ->)%list_get_inv & H).
  apply bind_inv_ok in H as (i & w3 & [_ ->]%lift_inv_ok & H).
  apply bind_inv_ok in H as (j & w4 & [_ ->]%lift_inv_ok & H).
  by injection H.
Qed.

Lemma time_axis_inv tsi t ns r w w' : time_axis tsi t ns w = (Ok r, w') → w' = w.
Proof.
  unfold time_axis. destruct t, tsi.
  - intros (ij & w1 & ->%index_bounds_inv & H)%bind_inv_ok. by injection H.
  - by intros [= _ ->].
  - intros (ij & w1 & ->%index_bounds_inv & H)%bind_inv_ok. by injection H.
  - by intros [= _ ->].
Qed.

Lemma image_x_axis_inv x t ns n r w w' : image_x_axis x t ns n w = (Ok r, w') → w' = w.
Proof.
  unfold image_x_axis. destruct x; [|by intros [= _ ->]].
  case_decide; [|by intros [= _ ->]]. by destruct t.
Qed.

Definition add_observer (sl : slider) (cb : callback) : slider :=
  Slider (sl_label sl) (sl_valmin sl) (sl_valmax sl) (sl_val sl) (sl_observers sl ++ [cb]).

Lemma on_changed_tail h tl k sl cb so be :
  tl !! k = Some (SliderW sl) →
  on_changed (length h + k) cb (World (h ++ tl) so be) =
    (Ok tt, World (h ++ <[k := SliderW (add_observer sl cb)]> tl) so
                  (be ++ [OnChanged (length h + k) cb])).
Proof.
  intros Hk. unfold on_changed, bind at 1, load. simpl.
  rewrite lookup_app_r by lia.
  replace (length h + k - length h)%nat with k by lia. rewrite Hk.
  unfold bind, store, emit. simpl. by rewrite insert_app_r.
Qed.

(** The heap objects and backend calls that [add_widgets] adds. *)
Lemma add_widgets_run gain rows g amax g10 h M so be :
  Np.max (Np.abs rows) = Ok amax →
  rbind (Py.mul (PyInt 10) gain) Py.to_float = Ok g10 →
  let img := length h in
  let cb := Update (img + 2) (img + 1) (img + 3) img in
  add_widgets gain rows g img (World (h ++ [Mesh M]) so be) =
    (Ok img,
     World (h ++ [Mesh M;
                  SliderW (Slider "max clip " 0 amax amax [cb]);
                  SliderW (Slider "min clip" (PrimFloat.opp amax) 0 (PrimFloat.opp amax) [cb]);
                  SliderW (Slider "gain" g g10 g [cb])])
           so
           (be ++ [NewAxes; NewAxes; NewAxes;
                   NewSlider (img + 1); NewSlider (img + 2); NewSlider (img + 3);
                   OnChanged (img + 2) cb; OnChanged (img + 1) cb; OnChanged (img + 3) cb])).
Proof.
  intros Hamax Hg10 img cb. unfold add_widgets.
  do 3 (erewrite bind_ok; [|reflexivity]).
  rewrite Hamax. erewrite bind_ok; [|reflexivity].
  do 2 (erewrite bind_ok; [|reflexivity]).
  rewrite Hg10. erewrite bind_ok; [|reflexivity].
  erewrite bind_ok; [|reflexivity].
  simpl. rewrite !length_app. simpl. rewrite <- !app_assoc. simpl.
  replace (length h + 1 + 1)%nat with (length h + 2)%nat by lia.
  replace (length h + 2 + 1)%nat with (length h + 3)%nat by lia.
  fold img. fold cb.
  erewrite bind_ok; [|by apply (on_changed_tail h _ 2)].
  erewrite bind_ok; [|by apply (on_changed_tail h _ 1)].
  erewrite bind_ok; [|by apply (on_changed_tail h _ 3)].
  simpl. unfold ret. by rewrite <- !app_assoc.
Qed.

Lemma add_widgets_inv gain rows g img r w w' :
  add_widgets gain rows g img w = (Ok r, w') →
  ∃ amax g10,
    Np.max (Np.abs rows) = Ok amax ∧
    rbind (Py.mul (PyInt 10) gain) Py.to_float = Ok g10.
Proof.
  unfold add_widgets. intros H.
  do 3 (apply bind_inv_ok in H as (? & ? & _ & H)).
  apply bind_inv_ok in H as (amax & ? & [Ha _]%lift_inv_ok & H).
  do 2 (apply bind_inv_ok in H as (? & ? & _ & H)).
  apply bind_inv_ok in H as (g10 & ? & [Hg _]%lift_inv_ok & H).
  eauto.
Qed.

Lemma to_float_one : Py.to_float (PyInt 1) = Ok 1%float.
Proof. vm_compute. reflexivity. Qed.

Lemma to_float_minus_one : Py.to_float (PyInt (-1)) = Ok (-1)%float.
Proof. vm_compute. reflexivity. Qed.

(** [maxval = -1; maxval = -1*maxval*Dmax] leaves [Dmax] (lines 307-309). *)
Lemma image_maxval Dmax m1 mv maxval :
  Py.mul (PyInt (-1)) (PyInt (-1)) = Ok m1 →
  Py.mul m1 (PyFloat Dmax) = Ok mv →
  Py.to_float mv = Ok maxval →
  maxval = Dmax.
Proof.
  intros [= <-]. unfold Py.mul, Py.arith. change (-1 * -1) with 1.
  rewrite to_float_one. simpl. intros [= <-]. simpl. intros [= <-].
  apply mul_one_l.
Qed.

(** [vmin=-1*maxval] *)
Lemma image_vmin maxval vmin :
  rbind (Py.mul (PyInt (-1)) (PyFloat maxval)) Py.to_float = Ok vmin →
  vmin = PrimFloat.opp maxval.
Proof.
  unfold Py.mul, Py.arith. rewrite to_float_minus_one. simpl. intros [= <-].
  apply mul_minus_one_l.
Qed.

Lemma emit_inv c a w w' :
  emit c w = (Ok a, w') → w' = World (heap w) (stdout w) (backend w ++ [c]).
Proof. by intros [= _ <-]. Qed.

(** What a successful [imageseis_render] has made. *)
Lemma imageseis_render_inv x t tsi gain D img w w' :
  imageseis_render x t tsi gain D w = (Ok img, w') →
  ∃ rows Dmax g xl tyl amax g10 be,
    read_array D w = (Ok rows, w) ∧
    Np.max rows = Ok Dmax ∧
    Py.to_float gain = Ok g ∧
    Np.max (Np.abs rows) = Ok amax ∧
    img = length (heap w) ∧
    let cb := Update (img + 2) (img + 1) (img + 3) img in
    w' = World (heap w ++
                  [Mesh (QuadMesh xl tyl (map (map (λ v, PrimFloat.mul v g)) rows)
                           (PrimFloat.opp Dmax, Dmax) "seismic");
                   SliderW (Slider "max clip " 0 amax amax [cb]);
                   SliderW (Slider "min clip" (PrimFloat.opp amax) 0 (PrimFloat.opp amax) [cb]);
                   SliderW (Slider "gain" g g10 g [cb])])
               (stdout w) be.
Proof.
  unfold imageseis_render. intros H.
  apply bind_inv_ok in H as (rows & w1 & Hrows & H).
  pose proof Hrows as (buf & _ & _ & ->)%read_array_inv.
  apply bind_inv_ok in H as (Dmax & ? & [HDmax ->]%lift_inv_ok & H).
  apply bind_inv_ok in H as (m1 & ? & [Hm1 ->]%lift_inv_ok & H).
  apply bind_inv_ok in H as (mv & ? & [Hmv ->]%lift_inv_ok & H).
  apply bind_inv_ok in H as (maxval & ? & [Hmaxval ->]%lift_inv_ok & H).
  pose proof (image_maxval _ _ _ _ Hm1 Hmv Hmaxval) as ->.
  apply bind_inv_ok in H as (xl & ? & ->%image_x_axis_inv & H).
  apply bind_inv_ok in H as (tyl & ? & ->%time_axis_inv & H).
  apply bind_inv_ok in H as ([] & ? & ->%emit_inv & H).
  apply bind_inv_ok in H as (g & ? & [Hg ->]%lift_inv_ok & H).
  apply bind_inv_ok in H as (vmin & ? & [->%image_vmin ->]%lift_inv_ok & H).
  apply bind_inv_ok in H as (img' & ? & Halloc & H).
  injection Halloc as <- <-. simpl in H.
  do 7 (apply bind_inv_ok in H as ([] & ? & ->%emit_inv & H); simpl in H).
  pose proof H as (amax & g10 & Hamax & Hg10)%add_widgets_inv.
  rewrite (add_widgets_run gain rows g amax g10 _ _ _ _ Hamax Hg10) in H.
  injection H as <- <-.
  by eexists rows, Dmax, g, xl.1, tyl.1, amax, g10, _.
Qed.

Lemma imageseis_render_controls h ms s1 s2 s3 cb :
  cb = Update (length h + 2) (length h + 1) (length h + 3) (length h) →
  sl_observers s1 = [cb] → sl_observers s2 = [cb] → sl_observers s3 = [cb] →
  controls (h ++ [Mesh ms; SliderW s1; SliderW s2; SliderW s3]) cb.
Proof.
  intros -> H1 H2 H3.
  assert (∀ k o, [Mesh ms; SliderW s1; SliderW s2; SliderW s3] !! k = Some o →
            (h ++ [Mesh ms; SliderW s1; SliderW s2; SliderW s3]) !! (length h + k)%nat
              = Some o) as Hk.
  { intros k o Ho. rewrite lookup_app_r by lia.
    by replace (length h + k - length h)%nat with k by lia. }
  split.
  - unfold raster. rewrite lookup_app_r by lia. rewrite Nat.sub_diag. by eexists.
  - intros s. rewrite !elem_of_cons, elem_of_nil.
    intros [-> | [-> | [-> | []]]]; eexists; (split; [by apply Hk|done]).
Qed.

(** C3 (as amended).  When [imageseis] returns, the colour scale is
    [maxval = max(Data)] over the clipped view, without the gain (and not
    the maximum of the absolute values); the raster is drawn over
    [Data*gain] with colour limits [[-maxval, maxval]]. *)
Theorem image_colour_scale self x t ti tsi tw gain perc img w w' :
  imageseis self x t ti tsi tw gain perc w = (Ok img, w') →
  ∃ D w1 rows Dmax g m,
    select_clip self ti tsi tw perc
      "Error: timesample_interval should be a list of two elements" w = (Ok D, w1) ∧
    read_array D w1 = (Ok rows, w1) ∧
    Np.max rows = Ok Dmax ∧
    Py.to_float gain = Ok g ∧
    raster (heap w') img = Some m ∧
    mesh_C m = map (map (λ v, PrimFloat.mul v g)) rows ∧
    mesh_clim m = (PrimFloat.opp Dmax, Dmax) ∧
    controls (heap w') (Update (img + 2) (img + 1) (img + 3) img).
Proof.
  unfold imageseis. intros (D & w1 & HD & H)%bind_inv_ok.
  apply imageseis_render_inv in H
    as (rows & Dmax & g & xl & tyl & amax & g10 & be & Hrows & HDmax & Hg & _ & -> & ->).
  eexists D, w1, rows, Dmax, g,
    (QuadMesh xl tyl (map (map (λ v, PrimFloat.mul v g)) rows)
       (PrimFloat.opp Dmax, Dmax) "seismic").
  do 4 (split; [done|]). cbn [heap].
  split; [|split; [done|split; [done|]]].
  - unfold raster. rewrite lookup_app_r by lia. by rewrite Nat.sub_diag.
  - by apply imageseis_render_controls.
Qed.

Lemma image_colour_scale_witness :
  let w := Survey.world_of Survey.small [] in
  let self := Survey.box 3 2 in
  ∃ w' D w1 rows Dmax g m,
    imageseis self None None None None false (PyInt 2) 100 w = (Ok 5%nat, w') ∧
    select_clip self None None false 100
      "Error: timesample_interval should be a list of two elements" w = (Ok D, w1) ∧
    read_array D w1 = (Ok rows, w1) ∧
    Np.max rows = Ok Dmax ∧
    Py.to_float (PyInt 2) = Ok g ∧
    raster (heap w') 5%nat = Some m ∧
    mesh_C m = map (map (λ v, PrimFloat.mul v g)) rows ∧
    mesh_clim m = (PrimFloat.opp Dmax, Dmax) ∧
    controls (heap w') (Update 7 6 8 5).
Proof.
  intros w self.
  exists (imageseis self None None None None false (PyInt 2) 100 w).2.
  assert (imageseis self None None None None false (PyInt 2) 100 w
          = (Ok 5%nat, (imageseis self None None None None false (PyInt 2) 100 w).2)) as Hrun
    by (vm_compute; reflexivity).
  destruct (image_colour_scale self None None None None false (PyInt 2) 100 5%nat w _ Hrun)
    as (D & w1 & rows & Dmax & g & m & H).
  exists D, w1, rows, Dmax, g, m. split; [exact Hrun | exact H].
Defined.

(** C3 (the claim as stated fails).  On the samples
    [[1, -1], [2, -2], [0, 0]] with [gain = 2] the raster shows [Data*2]
    between the limits -2 and 2: [maxval] is [max(Data) = 2], not
    [max(Data) * gain = 4]. *)
Lemma image_maxval_ignores_gain :
  let w := Survey.world_of Survey.small [] in
  let self := Survey.box 3 2 in
  let w' := (imageseis self None None None None false (PyInt 2) 100 w).2 in
  (imageseis self None None None None false (PyInt 2) 100 w).1 = Ok 5%nat ∧
  mesh_C <$> raster (heap w') 5%nat = Some [[2; -2]; [4; -4]; [0; 0]]%float ∧
  mesh_clim <$> raster (heap w') 5%nat = Some (-2, 2)%float ∧
  Np.max Survey.small = Ok 2%float ∧
  (2 * 2 =? 2)%float = false.
Proof. repeat split; vm_compute; reflexivity. Qed.

Lemma control_change_sets_limits_witness :
  let w := (imageseis (Survey.box 3 2) None None None None false (PyInt 2) 100
              (Survey.world_of Survey.small [])).2 in
  raster (heap w) 5%nat =
    Some (QuadMesh (IntCoords [1; 2]) (IntCoords [0; 1; 2])
            [[2; -2]; [4; -4]; [0; 0]]%float (-2, 2)%float "seismic") ∧
  ∃ w' a b g,
    control_change 8%nat 4%float w = (Ok tt, w') ∧
    slider_value (heap w') 8%nat = Some 4%float ∧
    slider_value (heap w') 7%nat = Some a ∧
    slider_value (heap w') 6%nat = Some b ∧
    slider_value (heap w') 8%nat = Some g ∧
    raster (heap w') 5%nat =
      Some (with_clim (QuadMesh (IntCoords [1; 2]) (IntCoords [0; 1; 2])
                         [[2; -2]; [4; -4]; [0; 0]]%float (-2, 2)%float "seismic")
              (a / g, b / g)%float) ∧
    ∃ w'',
      update (Update 7 6 8 5) w' = (Ok tt, w'') ∧
      raster (heap w'') 5%nat =
        Some (with_clim (QuadMesh (IntCoords [1; 2]) (IntCoords [0; 1; 2])
                           [[2; -2]; [4; -4]; [0; 0]]%float (-2, 2)%float "seismic")
                (a / g, b / g)%float) ∧
      heap w'' = heap w'.
Proof.
  intros w. split; [vm_compute; reflexivity|].
  apply (control_change_sets_limits 7%nat 6%nat 8%nat 5%nat 8%nat 4%float _ w).
  - split; [by eexists|].
    intros s. rewrite !elem_of_cons, elem_of_nil.
    intros [-> | [-> | [-> | []]]]; eexists; (split; [vm_compute; reflexivity|reflexivity]).
  - vm_compute. reflexivity.
  - rewrite !elem_of_cons. tauto.
Defined.

(** ** Integers that fit in binary64 *)

Lemma digits_iter_xO k p :
  Z.pos (digits2_pos (Pos.iter xO p k)) = Z.pos (digits2_pos p) + Z.pos k.
Proof.
  induction k as [|k IH] using Pos.peano_ind.
  - simpl. lia.
  - rewrite Pos.iter_succ. cbn [digits2_pos]. lia.
Qed.

Lemma digits_bound p n :
  0 <= n → Z.pos p < 2 ^ n → Z.pos (digits2_pos p) <= n.
Proof.
  revert n. induction p as [p IH|p IH|]; intros n Hn Hp.
  - assert (n ≠ 0) by (intros ->; simpl in Hp; lia).
    replace n with (Z.succ (n - 1)) in Hp by lia.
    rewrite Z.pow_succ_r in Hp by lia.
    specialize (IH (n - 1)). cbn [digits2_pos]. lia.
  - assert (n ≠ 0) by (intros ->; simpl in Hp; lia).
    replace n with (Z.succ (n - 1)) in Hp by lia.
    rewrite Z.pow_succ_r in Hp by lia.
    specialize (IH (n - 1)). cbn [digits2_pos]. lia.
  - assert (n ≠ 0) by (intros ->; simpl in Hp; lia). simpl. lia.
Qed.

(** An integer mantissa of at most 53 bits is rounded to a finite value. *)
Lemma binary_round_small s p :
  Z.pos (digits2_pos p) <= 53 →
  ∃ m e, binary_round prec emax s p 0 = S754_finite s m e ∧ bounded prec emax m e = true.
Proof.
  intros Hd. unfold binary_round.
  set (d := Z.pos (digits2_pos p)) in *.
  assert (fexp prec emax (d + 0) = d - 53) as ->.
  { unfold fexp, SpecFloat.emin, prec, emax. unfold d. rewrite Z.max_l by lia. lia. }
  assert (∃ m e, shl_align p 0 (d - 53) = (m, e) ∧
            Z.pos (digits2_pos m) = 53 ∧ -52 <= e <= 0) as (m & e & -> & Hm & He).
  { unfold shl_align. destruct (d - 53 - 0) as [|q|q] eqn:E.
    - exists p, 0. fold d. split; [done|]. lia.
    - unfold d in *. lia.
    - exists (Pos.iter xO p q), (d - 53). split; [done|].
      rewrite digits_iter_xO. fold d. unfold d in *. lia. }
  exists m, e.
  assert (fexp prec emax (Z.pos (digits2_pos m) + e) = e) as Hf.
  { unfold fexp, SpecFloat.emin, prec, emax. rewrite Z.max_l by lia. lia. }
  split.
  - unfold binary_round_aux, shr_fexp, Zdigits2. rewrite Hf.
    replace (e - e) with 0 by lia.
    cbn [shr shr_record_of_loc shr_m loc_of_shr_record shr_r shr_s round_nearest_even].
    rewrite Hf. replace (e - e) with 0 by lia.
    cbn [shr shr_record_of_loc shr_m].
    assert ((e <=? emax - prec) = true) as -> by (apply Z.leb_le; unfold emax, prec; lia).
    done.
  - unfold bounded, canonical_mantissa. rewrite Hf, Z.eqb_refl. simpl.
    apply Z.leb_le. unfold emax, prec. lia.
Qed.

Lemma finite_not_infinity s m e :
  bounded prec emax m e = true →
  PrimFloat.is_infinity (SF2Prim (S754_finite s m e)) = false.
Proof.
  intros Hb. unfold PrimFloat.is_infinity.
  rewrite FloatAxioms.eqb_spec, abs_spec, Prim2SF_SF2Prim by done.
  reflexivity.
Qed.

(** [float(z)] does not overflow below 2^53. *)
Lemma to_float_small z :
  Z.abs z < 2 ^ 53 → Py.to_float (PyInt z) = Ok (F64.of_Z z).
Proof.
  intros Hz. unfold Py.to_float, F64.of_Z.
  destruct z as [|p|p]; [done| |]; unfold binary_normalize.
  - destruct (binary_round_small false p) as (m & e & -> & Hb).
    { apply digits_bound; lia. }
    by rewrite finite_not_infinity.
  - destruct (binary_round_small true p) as (m & e & -> & Hb).
    { apply digits_bound; lia. }
    by rewrite finite_not_infinity.
Qed.

(** ** binary64 at zero and at nan *)

Lemma zero_over_zero (c : float) : (c * 0 / 0)%float = F64.nan.
Proof.
  apply Prim2SF_inj. rewrite div_spec, mul_spec.
  change (Prim2SF 0) with (S754_zero false).
  by destruct (Prim2SF c) as [s|s| |s m e].
Qed.

Lemma add_nan (x : float) : (x + F64.nan)%float = F64.nan.
Proof.
  apply Prim2SF_inj. rewrite add_spec.
  change (Prim2SF F64.nan) with S754_nan.
  by destruct (Prim2SF x) as [s|s| |s m e].
Qed.

Lemma ltb_nan (x : float) : PrimFloat.ltb x F64.nan = false.
Proof.
  rewrite ltb_spec. change (Prim2SF F64.nan) with S754_nan.
  by destruct (Prim2SF x) as [s|s| |s m e].
Qed.

Lemma clip1_nan lo hi : Np.clip1 lo hi F64.nan = F64.nan.
Proof. reflexivity. Qed.

(** Clipping a zero to a symmetric bound that is a number leaves zero. *)
Lemma clip1_zero (p : float) :
  F64.is_nan p = false →
  Np.clip1 (PrimFloat.opp (PrimFloat.abs p)) (PrimFloat.abs p) 0 = 0%float.
Proof.
  intros Hp. unfold F64.is_nan, PrimFloat.is_nan in Hp.
  rewrite FloatAxioms.eqb_spec in Hp.
  unfold Np.clip1, Np.fmax, Np.fmin.
  change (F64.is_nan 0) with false. cbn [negb].
  rewrite ltb_spec, opp_spec, abs_spec.
  change (Prim2SF 0) with (S754_zero false).
  destruct (Prim2SF p) as [s|s| |s m e] eqn:E; simpl in *; try discriminate.
  - assert (PrimFloat.abs p = 0%float) as ->.
    { apply Prim2SF_inj. by rewrite abs_spec, E. }
    reflexivity.
  - change (F64.is_nan 0) with false. cbn [negb].
    rewrite ltb_spec, abs_spec, E. reflexivity.
  - change (F64.is_nan 0) with false. cbn [negb].
    rewrite ltb_spec, abs_spec, E. reflexivity.
Qed.

(** ** The wiggle plot of an all-zero view *)

Lemma world_eta w : World (heap w) (stdout w) (backend w) = w.
Proof. by destruct w. Qed.

Lemma window_zeros k ns nt :
  window (NdArray k 0 ns 0 nt) (zeros ns nt) = zeros ns nt.
Proof.
  unfold window, nrows, ncols, zeros. simpl. rewrite !Nat.sub_0_r.
  rewrite drop_0, take_ge by by rewrite length_replicate.
  rewrite fmap_replicate. f_equal.
  rewrite drop_0. apply take_ge. by rewrite length_replicate.
Qed.

Lemma clip_zeros ns nt p :
  F64.is_nan p = false →
  Np.clip (zeros ns nt) (PrimFloat.opp (PrimFloat.abs p)) (PrimFloat.abs p) = zeros ns nt.
Proof.
  intros Hp. unfold Np.clip, zeros. rewrite !fmap_replicate. by rewrite clip1_zero.
Qed.

Lemma foldl_fmax_zeros n :
  foldl Np.fmax_ignoring_nan 0%float (replicate n 0%float) = 0%float.
Proof. induction n as [|n IH]; [done|]. simpl. exact IH. Qed.

Lemma concat_zeros ns nt : concat (zeros ns nt) = replicate (ns * nt) 0%float.
Proof.
  unfold zeros. induction ns as [|ns IH]; [done|].
  simpl. rewrite IH. by rewrite replicate_add.
Qed.

Lemma nanmax_zeros ns nt :
  (0 < ns)%nat → (0 < nt)%nat → Np.nanmax (zeros ns nt) = Ok 0%float.
Proof.
  intros Hs Ht. unfold Np.nanmax. rewrite concat_zeros.
  destruct (ns * nt)%nat as [|n] eqn:E; [nia|].
  simpl. by rewrite foldl_fmax_zeros.
Qed.

Lemma zeros_lookup ns nt r :
  (r < ns)%nat → zeros ns nt !! r = Some (replicate nt 0%float).
Proof. intros Hr. by apply lookup_replicate_2. Qed.

Lemma column_zeros ns nt i :
  (i < nt)%nat → column (zeros ns nt) i = replicate ns 0%float.
Proof.
  intros Hi. unfold column, zeros. rewrite fmap_replicate. f_equal.
  rewrite nth_lookup, lookup_replicate_2; done.
Qed.

Section ZeroView.

Variables (k ns nt : nat).
Let K := NdArray k 0 ns 0 nt.

(** Writing a zero into the zero array changes nothing. *)
Lemma array_set_zeros r c w :
  heap w !! k = Some (Buf (zeros ns nt)) → (r < ns)%nat → (c < nt)%nat →
  array_set K r c 0 w = (Ok tt, w).
Proof.
  intros Hk Hr Hc. unfold array_set.
  rewrite (bind_ok _ _ _ _ _ (load_buf_run _ _ _ Hk)).
  unfold K, nrows, ncols. simpl. rewrite !Nat.sub_0_r.
  rewrite decide_True by done. rewrite (zeros_lookup _ _ _ Hr).
  rewrite decide_True by by rewrite length_replicate.
  unfold store. rewrite (list_insert_id (replicate nt 0%float)).
  - rewrite (list_insert_id (zeros ns nt)) by by apply zeros_lookup.
    rewrite list_insert_id by done. by rewrite world_eta.
  - by apply lookup_replicate_2.
Qed.

Lemma array_get_zeros r c w :
  heap w !! k = Some (Buf (zeros ns nt)) → (r < ns)%nat → (c < nt)%nat →
  array_get K r c w = (Ok 0%float, w).
Proof.
  intros Hk Hr Hc. unfold array_get.
  rewrite (bind_ok _ _ _ _ _ (read_array_run K _ _ Hk)).
  unfold K. rewrite window_zeros, (zeros_lookup _ _ _ Hr).
  by rewrite lookup_replicate_2.
Qed.

Lemma read_column_zeros c w :
  heap w !! k = Some (Buf (zeros ns nt)) → (c < nt)%nat →
  read_column K c w = (Ok (replicate ns 0%float), w).
Proof.
  intros Hk Hc. unfold read_column.
  rewrite (bind_ok _ _ _ _ _ (read_array_run K _ _ Hk)).
  unfold K. rewrite window_zeros. unfold ret. f_equal. f_equal.
  by apply column_zeros.
Qed.

Lemma zero_negative_zeros i a w :
  heap w !! k = Some (Buf (zeros ns nt)) → (a < ns)%nat → (i < nt)%nat →
  zero_negative K i a w = (Ok tt, w).
Proof.
  intros Hk Ha Hi. unfold zero_negative.
  by rewrite (bind_ok _ _ _ _ _ (array_get_zeros _ _ _ Hk Ha Hi)).
Qed.

End ZeroView.

Lemma for_each_unchanged {A} (l : list A) (body : A → M unit) w :
  (∀ a, a ∈ l → body a w = (Ok tt, w)) → for_each l body w = (Ok tt, w).
Proof.
  induction l as [|a l IH]; intros Hb; [done|]. simpl.
  rewrite (bind_ok _ _ _ _ _ (Hb a ltac:(by left))).
  apply IH. intros b Hin. apply Hb. by right.
Qed.

(** A loop whose passes only add calls on the backend. *)
Lemma for_each_emits {A} (l : list A) (body : A → M unit) (out : A → list cmd) h so :
  (∀ a be, a ∈ l → body a (World h so be) = (Ok tt, World h so (be ++ out a))) →
  ∀ be, for_each l body (World h so be) = (Ok tt, World h so (be ++ concat (map out l))).
Proof.
  induction l as [|a l IH]; intros Hb be; simpl.
  - by rewrite app_nil_r.
  - rewrite (bind_ok _ _ _ _ _ (Hb a be ltac:(by left))).
    rewrite IH; [by rewrite <- app_assoc|].
    intros b be' Hin. apply Hb. by right.
Qed.

Lemma range_lookup n i :
  (i < n)%nat → Py.range 0 (Z.of_nat n) !! i = Some (Z.of_nat i).
Proof.
  intros Hi. unfold Py.range. rewrite Z.sub_0_r, Nat2Z.id.
  rewrite list_lookup_fmap, lookup_seq_lt by done. done.
Qed.

Lemma range_length n : length (Py.range 0 (Z.of_nat n)) = n.
Proof. unfold Py.range. by rewrite Z.sub_0_r, Nat2Z.id, length_fmap, length_seq. Qed.

Lemma range_step_lt n step idx i :
  Py.range_step n step = Ok idx → i ∈ idx → (i < n)%nat.
Proof.
  unfold Py.range_step. destruct (step =? 0) eqn:E0; [done|].
  destruct (step <? 0) eqn:E1.
  - intros [= <-]. by rewrite elem_of_nil.
  - intros [= <-]. rewrite list_elem_of_fmap. intros (j & -> & Hj).
    apply elem_of_seq in Hj as [_ Hj]. simpl in Hj.
    apply Z.eqb_neq in E0. apply Z.ltb_ge in E1.
    set (s := Z.to_nat step) in *. assert (0 < s)%nat by (unfold s; lia).
    pose proof (Nat.Div0.mul_div_le (n + s - 1) s). nia.
Qed.

(** [gain * skipt * dx] as a float, for [dx = 1]. *)
Lemma trace_factor gain sk :
  gain_in_range gain sk → Z.abs sk < 2 ^ 53 →
  ∃ gs c cf,
    Py.mul gain (PyInt sk) = Ok gs ∧ Py.mul gs (PyInt 1) = Ok c ∧ Py.to_float c = Ok cf.
Proof.
  intros Hg Hs. destruct gain as [g|g]; simpl in Hg.
  - exists (PyInt (g * sk)), (PyInt (g * sk * 1)), (F64.of_Z (g * sk * 1)).
    repeat split. apply to_float_small. lia.
  - exists (PyFloat (g * F64.of_Z sk)), (PyFloat (g * F64.of_Z sk * F64.of_Z 1)),
      (g * F64.of_Z sk * F64.of_Z 1)%float.
    split; [|split; [|done]].
    + unfold Py.mul, Py.arith. by rewrite (to_float_small sk Hs).
    + unfold Py.mul, Py.arith. by rewrite to_float_one.
Qed.

(** The curve of a zero trace scaled by [maxval = 0]: every sample is
    [0/0]. *)
Lemma trace_curve_zeros gain i sk n :
  gain_in_range gain sk → Z.abs sk < 2 ^ 53 → -1 < i + 1 < 2 ^ 53 →
  trace_curve gain (PyInt i) sk (PyInt 1) 0 (replicate n 0%float) =
    Ok (replicate n F64.nan).
Proof.
  intros Hg Hs Hi. destruct (trace_factor gain sk Hg Hs) as (gs & c & cf & H1 & H2 & H3).
  unfold trace_curve. rewrite H1. cbn [rbind]. rewrite H2. cbn [rbind].
  rewrite H3. cbn [rbind].
  rewrite (to_float_small i) by lia. cbn [rbind].
  unfold Py.sub, Py.add, Py.arith. cbn [rbind].
  rewrite (to_float_small (i - 1)) by lia. cbn [rbind].
  rewrite (to_float_small (1 + i)) by lia. cbn [rbind].
  rewrite !fmap_replicate. by rewrite zero_over_zero, add_nan, clip1_nan.
Qed.

Section ZeroTrace.

Variables (lwidth : float) (gain : pynum) (typeD color : string).
Variables (k ns nt : nat) (sk : Z) (ts : coords).
Let K := NdArray k 0 ns 0 nt.
Let xs := IntCoords (Py.range 0 (Z.of_nat nt)).

Hypothesis gain_ok : gain_in_range gain sk.
Hypothesis sk_ok : Z.abs sk < 2 ^ 53.
Hypothesis ns_pos : (0 < ns)%nat.
Hypothesis nt_ok : Z.of_nat nt < 2 ^ 53.

(** One pass of the loop over the zero array: the array is as it was, and
    the curve drawn is all [nan]. *)
Lemma wiggle_trace_zeros i h so be :
  h !! k = Some (Buf (zeros ns nt)) → (i < nt)%nat →
  wiggle_trace lwidth gain typeD color K xs ts sk (PyInt 1) 0 i (World h so be) =
    (Ok tt, World h so
              (be ++ trace_cmds lwidth typeD color ts (Z.of_nat i)
                       (replicate ns F64.nan) (replicate ns false))).
Proof.
  intros Hk Hi. unfold wiggle_trace.
  assert (∀ so' be', heap (World h so' be') !! k = Some (Buf (zeros ns nt))) as Hw
    by done.
  rewrite (bind_ok _ _ _ _ _ (array_set_zeros k ns nt 0 i _ (Hw so be) ns_pos Hi)).
  assert (nrows K = ns) as -> by (unfold K, nrows; simpl; lia).
  rewrite (bind_ok _ _ _ _ _
             (array_set_zeros k ns nt (ns - 1) i _ (Hw so be) ltac:(lia) Hi)).
  unfold xs at 1. unfold coords_get. rewrite (range_lookup _ _ Hi).
  erewrite bind_ok; [|reflexivity].
  rewrite (bind_ok _ _ _ _ _ (read_column_zeros k ns nt i _ (Hw so be) Hi)).
  rewrite trace_curve_zeros by (done || lia).
  erewrite bind_ok; [|reflexivity].
  erewrite bind_ok; [|reflexivity].
  unfold trace_cmds. case_decide; [|done].
  erewrite bind_ok; cycle 1.
  { apply for_each_unchanged. intros a [_ Ha]%elem_of_seq.
    apply (zero_negative_zeros k ns nt); [apply Hw|simpl in Ha; lia|done]. }
  rewrite (to_float_small (Z.of_nat i)) by lia.
  erewrite bind_ok; [|reflexivity].
  rewrite fmap_replicate, ltb_nan.
  unfold bind, emit. simpl. by rewrite <- !app_assoc.
Qed.

End ZeroTrace.

Lemma range_cons n : (0 < n)%nat → ∃ l, Py.range 0 (Z.of_nat n) = 0 :: l.
Proof.
  intros Hn. unfold Py.range. rewrite Z.sub_0_r, Nat2Z.id.
  destruct n as [|n]; [lia|]. simpl. eauto.
Qed.

Lemma plotted_app a b : plotted (a ++ b) = plotted a ++ plotted b.
Proof. apply omap_app. Qed.

Lemma plotted_trace_cmds lwidth typeD color ts i curve where_ :
  plotted (trace_cmds lwidth typeD color ts i curve where_) = [curve].
Proof. unfold trace_cmds. by case_decide. Qed.

Lemma plotted_traces {A} (out : A → list cmd) (curve : A → list float) l :
  (∀ a, plotted (out a) = [curve a]) →
  plotted (concat (map out l)) = map curve l.
Proof.
  intros H. induction l as [|a l IH]; [done|].
  simpl. by rewrite plotted_app, H, IH.
Qed.

(** The range selection and the percentile clip of an all-zero view: a copy,
    then the clipped array, both all zero. *)
Lemma select_clip_zeros self perc p msg buf w :
  heap w !! nd_base (Data self) = Some (Buf buf) →
  window (Data self) buf = zeros (nrows (Data self)) (ncols (Data self)) →
  Np.percentile (zeros (nrows (Data self)) (ncols (Data self))) perc = Ok p →
  F64.is_nan p = false →
  select_clip self None None false perc msg w =
    (Ok (NdArray (S (length (heap w))) 0 (nrows (Data self)) 0 (ncols (Data self))),
     World (heap w ++ [Buf (zeros (nrows (Data self)) (ncols (Data self)));
                       Buf (zeros (nrows (Data self)) (ncols (Data self)))])
           (stdout w) (backend w)).
Proof.
  intros Hbuf Hwin Hperc Hnan.
  set (ns := nrows (Data self)) in *. set (nt := ncols (Data self)) in *.
  assert (select_range self None None false msg w =
            (Ok (NdArray (length (heap w)) 0 ns 0 nt),
             World (heap w ++ [Buf (zeros ns nt)]) (stdout w) (backend w))) as Hsel.
  { unfold select_range, select_view, check_interval.
    do 3 (erewrite bind_ok; [|reflexivity]).
    rewrite (bind_ok _ _ _ _ _ (copy_array_run _ _ _ Hbuf)). by rewrite Hwin. }
  unfold select_clip. rewrite (bind_ok _ _ _ _ _ Hsel). unfold percentile_clip.
  erewrite bind_ok; cycle 1.
  { apply read_array_run. simpl. by apply list_lookup_middle. }
  rewrite window_zeros, Hperc. erewrite bind_ok; [|reflexivity].
  rewrite clip_zeros by done.
  unfold new_array, bind, alloc, ret. simpl.
  rewrite length_app. simpl. rewrite Nat.add_1_r. unfold nrows, ncols. simpl.
  rewrite !Nat.sub_0_r. by rewrite <- app_assoc.
Qed.

Section ZeroRender.

Variables (skipt : Z) (lwidth : float) (gain : pynum) (typeD color : string).
Variables (k ns nt : nat).

Hypothesis gain_ok : gain_in_range gain skipt.
Hypothesis skipt_ok : 0 < skipt < 2 ^ 53.
Hypothesis ns_pos : (0 < ns)%nat.
Hypothesis nt_ok : (2 ≤ nt)%nat ∧ Z.of_nat nt <= 1000000000.

(** The renderer on the zero array, without coordinates or ranges: it
    returns, the array is as it was, and every curve drawn is all [nan]. *)
Lemma wiggle_render_zeros h so be idx :
  h !! k = Some (Buf (zeros ns nt)) →
  Py.range_step nt skipt = Ok idx →
  ∃ be',
    wiggle_render None None None None skipt lwidth gain typeD color
      (NdArray k 0 ns 0 nt) (World h so be) = (Ok tt, World h so be') ∧
    plotted be' = plotted be ++ map (λ _, replicate ns F64.nan) idx.
Proof.
  intros Hk Hidx. destruct nt_ok as [Hnt2 Hnt9].
  assert (∀ so' be', heap (World h so' be') !! k = Some (Buf (zeros ns nt))) as Hw
    by done.
  pose proof (range_lookup nt 0 ltac:(lia)) as Hx0.
  pose proof (range_lookup nt 1 ltac:(lia)) as Hx1.
  pose proof (range_lookup nt (nt - 1) ltac:(lia)) as Hxl.
  destruct (range_cons ns ns_pos) as [tl Htl].
  unfold wiggle_render.
  assert (nrows (NdArray k 0 ns 0 nt) = ns) as -> by (unfold nrows; simpl; lia).
  assert (ncols (NdArray k 0 ns 0 nt) = nt) as -> by (unfold ncols; simpl; lia).
  do 2 (erewrite bind_ok; [|reflexivity]).
  unfold effective_skipt.
  assert ((1000000000 <? Z.of_nat nt) = false) as -> by (apply Z.ltb_ge; lia).
  erewrite bind_ok; [|reflexivity].
  unfold wiggle_x_axis, time_axis.
  do 2 (erewrite bind_ok; [|reflexivity]).
  unfold coords_get at 1 2. rewrite Hx0, Hx1.
  do 3 (erewrite bind_ok; [|reflexivity]).
  erewrite bind_ok; [|by apply read_array_run, Hw].
  rewrite window_zeros, nanmax_zeros by lia.
  erewrite bind_ok; [|reflexivity].
  rewrite Hidx. erewrite bind_ok; [|reflexivity].
  change (PrimFloat.abs 0) with 0%float.
  change (PyInt (Z.of_nat 1 - Z.of_nat 0)) with (PyInt 1).
  cbn [fst snd].
  erewrite bind_ok; cycle 1.
  { apply (for_each_emits idx _
             (λ i, trace_cmds lwidth typeD color (IntCoords (Py.range 0 (Z.of_nat ns)))
                     (Z.of_nat i) (replicate ns F64.nan) (replicate ns false))).
    intros i be1 Hi. apply wiggle_trace_zeros; try done; try lia.
    by eapply range_step_lt. }
  unfold coords_last, coords_len, coords_get. rewrite range_length, Hx0, Hxl.
  do 4 (erewrite bind_ok; [|reflexivity]).
  erewrite bind_ok; [|reflexivity].
  unfold coords_min, coords_max. rewrite Htl.
  do 2 (erewrite bind_ok; [|reflexivity]).
  erewrite bind_ok; [|reflexivity].
  erewrite bind_ok; [|reflexivity].
  unfold emit. cbn [heap stdout backend].
  eexists. split; [reflexivity|].
  rewrite !plotted_app.
  rewrite (plotted_traces _ (λ _, replicate ns F64.nan)).
  - cbn [plotted omap list_omap]. by rewrite !app_nil_r.
  - intros i. apply plotted_trace_cmds.
Qed.

End ZeroRender.

(** C8 (as amended).  For an all-zero view drawn without coordinates or
    ranges the wiggle renderer has no guard for [maxval = 0]: the percentile
    clipper returns all zeros (whenever the percentile itself is a number),
    [np.nanmax] of it is 0, the division [trace / maxval] is carried out as
    [0/0], and every sample of every curve drawn is [nan]; no exception is
    raised and the call returns. *)
Theorem wiggle_zero_view
    self perc p skipt lwidth gain typeD color buf w :
  let ns := nrows (Data self) in
  let nt := ncols (Data self) in
  heap w !! nd_base (Data self) = Some (Buf buf) →
  window (Data self) buf = zeros ns nt →
  (0 < ns)%nat → (2 ≤ nt)%nat → Z.of_nat nt <= 1000000000 →
  Np.percentile (zeros ns nt) perc = Ok p → F64.is_nan p = false →
  0 < skipt < 2 ^ 53 → gain_in_range gain skipt →
  ∃ w' idx,
    wiggle self None None None None false perc skipt lwidth gain typeD color w
      = (Ok tt, w') ∧
    heap w' = heap w ++ [Buf (zeros ns nt); Buf (zeros ns nt)] ∧
    Np.nanmax (zeros ns nt) = Ok 0%float ∧
    Py.range_step nt skipt = Ok idx ∧
    plotted (backend w') = plotted (backend w) ++ map (λ _, replicate ns F64.nan) idx.
Proof.
  intros ns nt Hbuf Hwin Hns Hnt Hnt9 Hperc Hnan Hsk Hgain.
  assert (∃ idx, Py.range_step nt skipt = Ok idx) as [idx Hidx].
  { unfold Py.range_step.
    assert ((skipt =? 0) = false) as -> by (apply Z.eqb_neq; lia).
    assert ((skipt <? 0) = false) as -> by (apply Z.ltb_ge; lia).
    by eexists. }
  pose proof (select_clip_zeros self perc p
                "Error: trace_interval should be a list of two elements" buf w
                Hbuf Hwin Hperc Hnan) as Hsel.
  fold ns nt in Hsel.
  destruct (wiggle_render_zeros skipt lwidth gain typeD color (S (length (heap w))) ns nt
              Hgain Hsk Hns (conj Hnt Hnt9)
              (heap w ++ [Buf (zeros ns nt); Buf (zeros ns nt)]) (stdout w) (backend w) idx)
    as (be' & Hrun & Hplot); [|done|].
  { rewrite lookup_app_r by lia.
    by replace (S (length (heap w)) - length (heap w))%nat with 1%nat by lia. }
  exists (World (heap w ++ [Buf (zeros ns nt); Buf (zeros ns nt)]) (stdout w) be'), idx.
  unfold wiggle. rewrite (bind_ok _ _ _ _ _ Hsel).
  split; [exact Hrun|]. split; [done|]. split; [by apply nanmax_zeros; lia|]. done.
Qed.

Lemma wiggle_zero_view_witness :
  let w := Survey.world_of Survey.flat [] in
  let self := Survey.box 3 4 in
  Np.percentile Survey.flat 50 = Ok 0%float ∧
  ∃ w' idx,
    wiggle self None None None None false 50 1 0.5 (PyInt 1) "VA" "red" w = (Ok tt, w') ∧
    heap w' = heap w ++ [Buf (zeros 3 4); Buf (zeros 3 4)] ∧
    Np.nanmax (zeros 3 4) = Ok 0%float ∧
    Py.range_step 4 1 = Ok idx ∧
    plotted (backend w') = plotted (backend w) ++ map (λ _, replicate 3 F64.nan) idx.
Proof.
  intros w self. split; [vm_compute; reflexivity|].
  apply (wiggle_zero_view self 50 0 1 0.5 (PyInt 1) "VA" "red" Survey.flat w).
  - reflexivity.
  - vm_compute. reflexivity.
  - vm_compute. lia.
  - vm_compute. lia.
  - vm_compute. discriminate.
  - vm_compute. reflexivity.
  - vm_compute. reflexivity.
  - split; vm_compute; reflexivity.
  - vm_compute. reflexivity.
Defined.

(** C8 (the claim as stated fails).  For the all-zero dataset of three
    samples of four traces with [perc = 50] the call returns, but the four
    curves drawn are [nan] in every sample, not the baselines 0, 1, 2, 3: the
    division by [maxval = 0] was not skipped. *)
Lemma wiggle_zero_view_draws_nan :
  let w := Survey.world_of Survey.flat [] in
  let r := wiggle (Survey.box 3 4) None None None None false 50 1 0.5 (PyInt 1)
             "VA" "red" w in
  r.1 = Ok tt ∧
  plotted (backend r.2) = replicate 4 (replicate 3 F64.nan) ∧
  forallb (forallb F64.is_nan) (plotted (backend r.2)) = true ∧
  existsb (λ curve, forallb (λ v, PrimFloat.eqb v 0) curve) (plotted (backend r.2)) = false.
Proof. repeat split; vm_compute; reflexivity. Qed.

(** ** The curves of the wiggle plot *)

Lemma fmap_fixed {A} (f : A → A) (l : list A) :
  Forall (λ a, f a = a) l → map f l = l.
Proof. induction 1 as [|a l Ha _ IH]; [done|]. simpl. by rewrite Ha, IH. Qed.

Lemma window_covers k nr nc rows :
  covers nr nc rows → window (NdArray k 0 nr 0 nc) rows = rows.
Proof.
  intros [Hlen Hrows]. unfold window, nrows, ncols. simpl. rewrite !Nat.sub_0_r.
  rewrite drop_0, take_ge by done. apply fmap_fixed.
  eapply Forall_impl; [exact Hrows|]. intros r Hr. rewrite drop_0. by apply take_ge.
Qed.

Lemma covers_insert nr nc rows r row c v :
  covers nr nc rows → rows !! r = Some row →
  covers nr nc (<[r := <[c := v]> row]> rows).
Proof.
  intros [Hlen Hrows] Hr. split; [by rewrite length_insert|].
  apply Forall_insert; [done|]. rewrite length_insert.
  by eapply (Forall_lookup_1 _ _ _ _ Hrows).
Qed.

Lemma column_length rows i : length (column rows i) = length rows.
Proof. unfold column. by rewrite length_map. Qed.

Lemma column_insert_same rows r row c v :
  rows !! r = Some row → (c < length row)%nat →
  column (<[r := <[c := v]> row]> rows) c = <[r := v]> (column rows c).
Proof.
  intros Hr Hc. unfold column.
  change (map ?f ?l) with (f <$> l). rewrite list_fmap_insert. f_equal.
  by rewrite nth_lookup, list_lookup_insert_eq.
Qed.

Lemma column_insert_other rows r row c v j :
  rows !! r = Some row → j ≠ c →
  column (<[r := <[c := v]> row]> rows) j = column rows j.
Proof.
  intros Hr Hj. unfold column.
  change (map ?f ?l) with (f <$> l). rewrite list_fmap_insert.
  apply list_insert_id. rewrite list_lookup_fmap, Hr. simpl. f_equal.
  by rewrite !nth_lookup, list_lookup_insert_ne.
Qed.

Lemma plotted_snoc be c :
  (∀ xs ys col lw, c ≠ Plot xs ys col lw) → plotted (be ++ [c]) = plotted be.
Proof.
  intros Hc. rewrite plotted_app. unfold plotted at 2. simpl.
  destruct c; try by rewrite app_nil_r. by destruct (Hc xs ys color lwidth).
Qed.

Section WorkingArray.

Variables (k nr nc : nat).
Let K := NdArray k 0 nr 0 nc.

Lemma array_set_inv r c v w w' :
  array_set K r c v w = (Ok tt, w') →
  ∃ cur row,
    heap w !! k = Some (Buf cur) ∧ (r < nr)%nat ∧ (c < nc)%nat ∧
    cur !! r = Some row ∧ (c < length row)%nat ∧
    w' = World (<[k := Buf (<[r := <[c := v]> row]> cur)]> (heap w)) (stdout w) (backend w).
Proof.
  unfold array_set. intros (cur & w1 & [Hk ->]%load_buf_inv & H)%bind_inv_ok.
  unfold K, nrows, ncols in H. simpl in H. rewrite !Nat.sub_0_r in H.
  case_decide as Hd; [|discriminate]. destruct Hd as [Hr Hc].
  destruct (cur !! r) as [row|] eqn:Er; [|discriminate].
  case_decide; [|discriminate]. injection H as <-.
  by exists cur, row.
Qed.

(** What is known of the working array while the loop runs: it is the
    buffer at [k], it has the shape of [K], and its columns other than those
    in [done] are those of [rows]. *)
Definition working (rows : list (list float)) (done_ : list nat) (w : world) : Prop :=
  ∃ cur, heap w !! k = Some (Buf cur) ∧ covers nr nc cur ∧
         ∀ j, j ∉ done_ → column cur j = column rows j.

Lemma working_weaken rows d d' w :
  working rows d w → (∀ j, j ∈ d → j ∈ d') → working rows d' w.
Proof. intros (cur & ? & ? & H) Hd. exists cur. naive_solver. Qed.

(** An assignment into column [i] *)
Lemma array_set_working rows d r i v w w' :
  working rows d w → i ∈ d → array_set K r i v w = (Ok tt, w') →
  working rows d w' ∧ backend w' = backend w.
Proof.
  intros (cur & Hk & Hcov & Hcols) Hi
    (cur' & row & Hk' & Hr & Hc & Hrow & Hlen & ->)%array_set_inv.
  pose proof (eq_trans (eq_sym Hk) Hk') as [= <-].
  split; [|done]. exists (<[r := <[i := v]> row]> cur). simpl.
  split; [by apply list_lookup_insert_eq; eapply lookup_lt_Some|].
  split; [by apply covers_insert|].
  intros j Hj. rewrite column_insert_other; [by apply Hcols|done|].
  intros ->. done.
Qed.

Lemma array_get_inv r c v w w' : array_get K r c w = (Ok v, w') → w' = w.
Proof.
  unfold array_get. intros (rows & w1 & (? & _ & _ & ->)%read_array_inv & H)%bind_inv_ok.
  destruct (rows !! r) as [row|]; [|discriminate].
  destruct (row !! c); [|discriminate]. by injection H.
Qed.

Lemma zero_negative_working rows d i a w w' :
  working rows d w → i ∈ d → zero_negative K i a w = (Ok tt, w') →
  working rows d w' ∧ backend w' = backend w.
Proof.
  intros Hw Hi. unfold zero_negative.
  intros (v & w1 & ->%array_get_inv & H)%bind_inv_ok.
  destruct (PrimFloat.ltb v 0).
  - by eapply array_set_working.
  - by injection H as <-.
Qed.

Lemma zero_negatives_working rows d i l w w' :
  working rows d w → i ∈ d →
  for_each l (zero_negative K i) w = (Ok tt, w') →
  working rows d w' ∧ backend w' = backend w.
Proof.
  intros Hw Hi. revert w Hw. induction l as [|a l IH]; intros w Hw; simpl.
  - by intros [= <-].
  - intros ([] & w1 & Ha & H)%bind_inv_ok.
    destruct (zero_negative_working _ _ _ _ _ _ Hw Hi Ha) as [Hw1 Hb1].
    destruct (IH _ Hw1 H) as [Hw' Hb']. split; [done|congruence].
Qed.

End WorkingArray.

Section TraceLoop.

Variables (lwidth : float) (gain : pynum) (typeD color : string).
Variables (k nr nc : nat) (xs ts : coords) (sk : Z) (dx : pynum) (maxval : float).
Let K := NdArray k 0 nr 0 nc.

(** One pass of the loop: the curve drawn for trace [i] is that of column
    [i] of the clipped data with its two end samples set to zero; the pass
    writes into column [i] of the working array only. *)
Lemma wiggle_trace_inv rows d i w w' :
  working k nr nc rows d w → i ∉ d →
  wiggle_trace lwidth gain typeD color K xs ts sk dx maxval i w = (Ok tt, w') →
  ∃ xi curve,
    coords_get xs i = Ok xi ∧
    trace_curve gain xi sk dx maxval (pinned (column rows i)) = Ok curve ∧
    plotted (backend w') = plotted (backend w) ++ [curve] ∧
    working k nr nc rows (i :: d) w'.
Proof.
  intros (cur & Hk & Hcov & Hcols) Hi. unfold wiggle_trace.
  intros ([] & w1 & H1 & H)%bind_inv_ok.
  apply array_set_inv in H1 as (cur' & row0 & Hk' & Hr0 & Hc & Hrow0 & Hlen0 & ->).
  pose proof (eq_trans (eq_sym Hk) Hk') as [= <-].
  apply bind_inv_ok in H as ([] & w2 & H2 & H).
  unfold K, nrows in H2. simpl in H2. rewrite Nat.sub_0_r in H2.
  apply array_set_inv in H2 as (cur1 & row1 & Hk1 & Hr1 & _ & Hrow1 & Hlen1 & ->).
  simpl in Hk1. rewrite list_lookup_insert_eq in Hk1 by by eapply lookup_lt_Some.
  injection Hk1 as <-. simpl in H. rewrite list_insert_insert_eq in H.
  set (cur1 := <[0%nat := <[i := 0%float]> row0]> cur) in *.
  set (cur2 := <[(nr - 1)%nat := <[i := 0%float]> row1]> cur1) in *.
  assert (covers nr nc cur1) as Hcov1 by (by apply covers_insert).
  assert (covers nr nc cur2) as Hcov2 by (by apply covers_insert).
  assert (length cur = nr) as Hnr.
  { apply lookup_lt_Some in Hrow1. unfold cur1 in Hrow1.
    rewrite length_insert in Hrow1. destruct Hcov. lia. }
  assert (column cur2 i = pinned (column rows i)) as Hpin.
  { unfold cur2, cur1, pinned.
    rewrite !column_insert_same by done.
    rewrite <- (Hcols i Hi), column_length, Hnr. done. }
  assert (∀ j, j ∉ i :: d → column cur2 j = column rows j) as Hcols2.
  { intros j Hj. rewrite not_elem_of_cons in Hj. destruct Hj as [Hji Hjd].
    unfold cur2, cur1. rewrite !column_insert_other by done. by apply Hcols. }
  set (h2 := <[k := Buf cur2]> (heap w)) in *.
  assert (h2 !! k = Some (Buf cur2)) as Hk2
    by by apply list_lookup_insert_eq; eapply lookup_lt_Some.
  apply bind_inv_ok in H as (xi & ? & [Hxi ->]%lift_inv_ok & H).
  apply bind_inv_ok in H as (trace & w3 & Htr & H).
  unfold read_column in Htr.
  apply bind_inv_ok in Htr as (rws & ? & (buf & Hbuf & -> & ->)%read_array_inv & Htr).
  simpl in Hbuf. pose proof (eq_trans (eq_sym Hk2) Hbuf) as [= <-].
  injection Htr as <- <-. fold K in H.
  unfold K in H at 1. rewrite window_covers in H by done.
  change (map (λ row, nth i row F64.nan) cur2) with (column cur2 i) in H.
  rewrite Hpin in H.
  apply bind_inv_ok in H as (curve & ? & [Hcurve ->]%lift_inv_ok & H).
  apply bind_inv_ok in H as ([] & ? & ->%emit_inv & H). simpl in H.
  exists xi, curve. split; [done|]. split; [done|].
  set (w4 := World h2 (stdout w) (backend w ++ [Plot curve ts color lwidth])) in *.
  assert (working k nr nc rows (i :: d) w4) as Hw4 by by exists cur2.
  assert (plotted (backend w4) = plotted (backend w) ++ [curve]) as Hp4
    by by unfold w4; simpl; rewrite plotted_app.
  case_decide.
  - apply bind_inv_ok in H as ([] & w5 & Hloop & H).
    destruct (zero_negatives_working k nr nc rows (i :: d) i _ _ _ Hw4
                ltac:(by left) Hloop) as [Hw5 Hb5].
    apply bind_inv_ok in H as (off & ? & [_ ->]%lift_inv_ok & H).
    apply bind_inv_ok in H as ([] & ? & ->%emit_inv & H).
    apply emit_inv in H as ->. simpl.
    split.
    + rewrite !plotted_snoc by done. by rewrite Hb5.
    + destruct Hw5 as (c5 & ? & ? & ?). by exists c5.
  - injection H as <-. done.
Qed.

(** The loop over the traces to draw. *)
Lemma wiggle_loop_inv rows idx : ∀ d w w',
  working k nr nc rows d w → NoDup idx → (∀ i, i ∈ idx → i ∉ d) →
  for_each idx (wiggle_trace lwidth gain typeD color K xs ts sk dx maxval) w = (Ok tt, w') →
  ∃ curves,
    plotted (backend w') = plotted (backend w) ++ curves ∧
    Forall2 (λ i curve, ∃ xi, coords_get xs i = Ok xi ∧
               trace_curve gain xi sk dx maxval (pinned (column rows i)) = Ok curve)
            idx curves.
Proof.
  induction idx as [|i idx IH]; intros d w w' Hw Hnd Hd; simpl.
  - intros [= <-]. exists []. by rewrite app_nil_r.
  - intros ([] & w1 & Hi & H)%bind_inv_ok.
    apply NoDup_cons in Hnd as [Hni Hnd].
    destruct (wiggle_trace_inv rows d i w w1 Hw (Hd i ltac:(by left)) Hi)
      as (xi & curve & Hxi & Hcurve & Hp & Hw1).
    destruct (IH (i :: d) w1 w' Hw1 Hnd) as (curves & Hp' & Hall); [|done|].
    { intros j Hj. rewrite not_elem_of_cons. split; [by intros ->|].
      apply Hd. by right. }
    exists (curve :: curves). split.
    + by rewrite Hp', Hp, <- app_assoc.
    + constructor; [by exists xi|done].
Qed.

End TraceLoop.

(** ** The range selection and the clip do not call the backend *)

Section Silent.

Variable be : list cmd.

Definition silent (w : world) : Prop := backend w = be.

Lemma silent_load l : triple silent (load l) (λ _, True).
Proof. intros w Hw. unfold load. by destruct (heap w !! l). Qed.

Lemma silent_store l o : triple silent (store l o) (λ _, True).
Proof. by intros w Hw. Qed.

Lemma silent_alloc o : triple silent (alloc o) (λ _, True).
Proof. by intros w Hw. Qed.

Lemma silent_print o : triple silent (print o) (λ _, True).
Proof. by intros w Hw. Qed.

End Silent.

Ltac head_of m := lazymatch m with ?f _ => head_of f | _ => m end.

(** Through a computation made of the heap operations and [print]. *)
Ltac silent_go :=
  cbv zeta;
  lazymatch goal with
  | |- triple _ (raise _) _ => apply triple_raise
  | |- triple _ (ret _) _ => by apply triple_ret
  | |- triple _ (lift _) _ => apply triple_lift_any
  | |- triple _ (load _) _ => apply silent_load
  | |- triple _ (store _ _) _ => apply silent_store
  | |- triple _ (alloc _) _ => apply silent_alloc
  | |- triple _ (print _) _ => apply silent_print
  | |- triple _ (bind _ _) _ =>
      eapply (triple_bind _ _ _ (λ _, True)); [silent_go | intros ? _; silent_go]
  | |- triple _ (match ?x with _ => _ end) _ => destruct x; silent_go
  | |- triple _ ?m _ => let h := head_of m in unfold h; silent_go
  end.

Lemma silent_select_clip be self ti tsi tw perc msg :
  triple (silent be) (select_clip self ti tsi tw perc msg) (λ _, True).
Proof. silent_go. Qed.

Lemma select_clip_backend self ti tsi tw perc msg D w w1 :
  select_clip self ti tsi tw perc msg w = (Ok D, w1) → backend w1 = backend w.
Proof.
  intros H.
  destruct (silent_select_clip (backend w) self ti tsi tw perc msg w eq_refl) as [Hb _].
  by rewrite H in Hb.
Qed.

(** ** The clipped array *)

Lemma window_shape a buf : covers (nrows a) (ncols a) (window a buf).
Proof.
  unfold window. split.
  - rewrite length_map, length_take. lia.
  - apply Forall_fmap, Forall_forall. intros r _. simpl. rewrite length_take. lia.
Qed.

Lemma clip_covers nr nc rows lo hi : covers nr nc rows → covers nr nc (Np.clip rows lo hi).
Proof.
  intros [H1 H2]. unfold Np.clip. split; [by rewrite length_map|].
  apply Forall_fmap. eapply Forall_impl; [done|]. intros r Hr. simpl.
  by rewrite length_map.
Qed.

(** The clip returns a new array that is the whole of a new buffer. *)
Lemma percentile_clip_inv D perc K w w1 :
  percentile_clip D perc w = (Ok K, w1) →
  ∃ rows,
    K = NdArray (length (heap w)) 0 (nrows D) 0 (ncols D) ∧
    heap w1 !! length (heap w) = Some (Buf rows) ∧
    covers (nrows D) (ncols D) rows.
Proof.
  unfold percentile_clip.
  intros (rows & ? & (buf & Hbuf & -> & ->)%read_array_inv & H)%bind_inv_ok.
  apply bind_inv_ok in H as (p & ? & [Hp ->]%lift_inv_ok & H).
  unfold new_array, bind, alloc, ret in H. simpl in H. injection H as <- <-.
  eexists. split; [done|]. simpl. split.
  - by apply list_lookup_middle.
  - apply clip_covers, window_shape.
Qed.

(** ** The traces drawn *)

Lemma range_step_NoDup n step idx : Py.range_step n step = Ok idx → NoDup idx.
Proof.
  unfold Py.range_step. destruct (step =? 0) eqn:E0; [done|].
  destruct (step <? 0) eqn:E1.
  - intros [= <-]. apply NoDup_nil_2.
  - intros [= <-]. apply Z.eqb_neq in E0. apply Z.ltb_ge in E1.
    change (map ?f ?l) with (f <$> l).
    apply NoDup_fmap_2_strong; [|apply NoDup_seq].
    intros a b _ _ Hab. assert (0 < Z.to_nat step)%nat by lia. nia.
Qed.

Lemma effective_skipt_inv skipt n sk w w' :
  effective_skipt skipt n w = (Ok sk, w') →
  w' = w ∧ ∀ w0, (effective_skipt skipt n w0).1 = Ok sk.
Proof.
  unfold effective_skipt. destruct (_ <? _).
  - intros (s & ? & [Hs ->]%lift_inv_ok & H)%bind_inv_ok. injection H as <- <-.
    split; [done|]. intros w0. unfold bind, lift. by rewrite Hs.
  - by intros [= <- <-].
Qed.

(** [index_bounds] reads the heap only. *)
Lemma index_bounds_heap l ij w w' w0 :
  index_bounds l w = (Ok ij, w') → heap w0 = heap w →
  w' = w ∧ index_bounds l w0 = (Ok ij, w0).
Proof.
  unfold index_bounds. intros H Hh.
  apply bind_inv_ok in H as (a & ? & (items & Hl & Ha & ->)%list_get_inv & H).
  apply bind_inv_ok in H as (b & ? & (items' & Hl' & Hb & ->)%list_get_inv & H).
  apply bind_inv_ok in H as (i & ? & [Hi ->]%lift_inv_ok & H).
  apply bind_inv_ok in H as (j & ? & [Hj ->]%lift_inv_ok & H).
  injection H as <- <-. split; [done|].
  rewrite <- Hh in Hl, Hl'.
  rewrite (bind_ok _ _ _ _ _ (list_get_run _ _ _ _ _ Hl Ha)).
  rewrite (bind_ok _ _ _ _ _ (list_get_run _ _ _ _ _ Hl' Hb)).
  unfold bind, lift. by rewrite Hi, Hj.
Qed.

(** The x axis: one call on the backend, to label it; the coordinates
    depend on the heap only. *)
Lemma wiggle_x_axis_inv x ti n xs w w' :
  wiggle_x_axis x ti n w = (Ok xs, w') →
  (∃ lbl, w' = World (heap w) (stdout w) (backend w ++ [SetXLabel lbl])) ∧
  ∀ w0, heap w0 = heap w → (wiggle_x_axis x ti n w0).1 = Ok xs.
Proof.
  unfold wiggle_x_axis. destruct x as [xv|].
  - intros ([] & ? & ->%emit_inv & H)%bind_inv_ok. injection H as <- <-.
    split; [by eexists|]. done.
  - intros (xs' & w1 & Hxs & H)%bind_inv_ok.
    apply bind_inv_ok in H as ([] & ? & ->%emit_inv & H). injection H as <- <-.
    destruct ti as [l|].
    + apply bind_inv_ok in Hxs as (ij & w2 & Hij & Hxs). injection Hxs as <- <-.
      split.
      * destruct (index_bounds_heap _ _ _ _ w Hij eq_refl) as [-> _]. by eexists.
      * intros w0 Hw0. destruct (index_bounds_heap _ _ _ _ w0 Hij Hw0) as [_ Hij0].
        unfold bind at 1. unfold bind at 1. by rewrite Hij0.
    + injection Hxs as <- <-. split; [by eexists|]. done.
Qed.

Section RenderCurves.

Variables (x t : option (list float)) (ti tsi : option loc).
Variables (skipt : Z) (lwidth : float) (gain : pynum) (typeD color : string).
Variables (k nr nc : nat).

(** The renderer on a clipped array that is the whole of its buffer
    [rows]: what it draws. *)
Lemma wiggle_render_inv rows w w' :
  heap w !! k = Some (Buf rows) → covers nr nc rows →
  wiggle_render x t ti tsi skipt lwidth gain typeD color (NdArray k 0 nr 0 nc) w
    = (Ok tt, w') →
  ∃ sk xs x1 x0 dx Dmax idx curves,
    (effective_skipt skipt nc w).1 = Ok sk ∧
    (wiggle_x_axis x ti nc w).1 = Ok xs ∧
    coords_get xs 1 = Ok x1 ∧ coords_get xs 0 = Ok x0 ∧ Py.sub x1 x0 = Ok dx ∧
    Np.nanmax rows = Ok Dmax ∧
    Py.range_step nc sk = Ok idx ∧
    plotted (backend w') = plotted (backend w) ++ curves ∧
    Forall2 (λ i curve, ∃ xi,
               coords_get xs i = Ok xi ∧
               trace_curve gain xi sk dx (PrimFloat.abs Dmax) (pinned (column rows i))
                 = Ok curve)
            idx curves.
Proof.
  intros Hk Hcov. unfold wiggle_render.
  assert (nrows (NdArray k 0 nr 0 nc) = nr) as -> by (unfold nrows; simpl; lia).
  assert (ncols (NdArray k 0 nr 0 nc) = nc) as -> by (unfold ncols; simpl; lia).
  intros H.
  apply bind_inv_ok in H as ([] & ? & ->%emit_inv & H).
  apply bind_inv_ok in H as ([] & ? & ->%emit_inv & H).
  apply bind_inv_ok in H as (sk & ? & [-> Hsk]%effective_skipt_inv & H).
  apply bind_inv_ok in H as (xs & ? & [[lbl ->] Hxs]%wiggle_x_axis_inv & H).
  apply bind_inv_ok in H as (tyl & ? & ->%time_axis_inv & H).
  apply bind_inv_ok in H as (x1 & ? & [Hx1 ->]%lift_inv_ok & H).
  apply bind_inv_ok in H as (x0 & ? & [Hx0 ->]%lift_inv_ok & H).
  apply bind_inv_ok in H as (dx & ? & [Hdx ->]%lift_inv_ok & H).
  apply bind_inv_ok in H as (rows' & ? & (buf & Hbuf & -> & ->)%read_array_inv & H).
  simpl in Hbuf. pose proof (eq_trans (eq_sym Hk) Hbuf) as [= <-].
  rewrite window_covers in H by done.
  apply bind_inv_ok in H as (Dmax & ? & [HDmax ->]%lift_inv_ok & H).
  apply bind_inv_ok in H as (idx & ? & [Hidx ->]%lift_inv_ok & H).
  apply bind_inv_ok in H as ([] & w3 & Hloop & H).
  eapply (wiggle_loop_inv _ _ _ _ _ _ _ _ _ _ _ _ rows idx []) in Hloop
    as (curves & Hp & Hall); cycle 1.
  { exists rows. by split; [|split]. }
  { by eapply range_step_NoDup. }
  { intros i _. apply not_elem_of_nil. }
  apply bind_inv_ok in H as (x0' & ? & [_ ->]%lift_inv_ok & H).
  apply bind_inv_ok in H as (lo & ? & [_ ->]%lift_inv_ok & H).
  apply bind_inv_ok in H as (xl & ? & [_ ->]%lift_inv_ok & H).
  apply bind_inv_ok in H as (hi & ? & [_ ->]%lift_inv_ok & H).
  apply bind_inv_ok in H as ([] & ? & ->%emit_inv & H).
  apply bind_inv_ok in H as (tmin & ? & [_ ->]%lift_inv_ok & H).
  apply bind_inv_ok in H as (tmax & ? & [_ ->]%lift_inv_ok & H).
  apply bind_inv_ok in H as ([] & ? & ->%emit_inv & H).
  apply bind_inv_ok in H as ([] & ? & ->%emit_inv & H).
  apply emit_inv in H as ->.
  exists sk, xs, x1, x0, dx, Dmax, idx, curves.
  split; [apply Hsk|]. split; [by apply Hxs|].
  do 5 (split; [done|]). split; [|done].
  cbn [backend]. rewrite !plotted_snoc by done. rewrite Hp.
  cbn [backend]. by rewrite !plotted_snoc.
Qed.

End RenderCurves.

(** The curve of a trace, written out: the state of lines 219-220. *)
Lemma trace_curve_formula gain xi sk dx maxval trace curve :
  trace_curve gain xi sk dx maxval trace = Ok curve →
  ∃ xf c cf lo hi,
    Py.to_float xi = Ok xf ∧
    rbind (Py.mul gain (PyInt sk)) (λ gs, Py.mul gs dx) = Ok c ∧
    Py.to_float c = Ok cf ∧
    rbind (Py.sub xi dx) Py.to_float = Ok lo ∧
    rbind (Py.add dx xi) Py.to_float = Ok hi ∧
    curve = map (λ v, Np.clip1 lo hi (xf + cf * v / maxval)%float) trace.
Proof.
  unfold trace_curve.
  intros (gs & Hgs & H)%rbind_inv_ok.
  apply rbind_inv_ok in H as (c & Hc & H).
  apply rbind_inv_ok in H as (cf & Hcf & H).
  apply rbind_inv_ok in H as (xf & Hxf & H).
  apply rbind_inv_ok in H as (lo' & Hlo' & H).
  apply rbind_inv_ok in H as (hi' & Hhi' & H).
  apply rbind_inv_ok in H as (lo & Hlo & H).
  apply rbind_inv_ok in H as (hi & Hhi & H).
  injection H as <-. exists xf, c, cf, lo, hi.
  rewrite Hgs, Hlo', Hhi'. simpl. rewrite map_map. done.
Qed.

Lemma pinned_ends (l : list float) :
  l ≠ [] →
  pinned l !! 0%nat = Some 0%float ∧ pinned l !! (length l - 1)%nat = Some 0%float.
Proof.
  intros Hl. assert (0 < length l)%nat by (destruct l; [done|simpl; lia]).
  unfold pinned. split.
  - destruct (decide (length l - 1 = 0)%nat) as [->|Hne].
    + apply list_lookup_insert_eq. rewrite length_insert. lia.
    + rewrite list_lookup_insert_ne by done. by apply list_lookup_insert_eq.
  - apply list_lookup_insert_eq. rewrite length_insert. lia.
Qed.

Lemma nanmax_nonempty rows Dmax : Np.nanmax rows = Ok Dmax → rows ≠ [].
Proof. by intros H ->. Qed.

(** C5 (as amended).  When [wiggle] returns, the curves it has drawn are,
    for each rendered trace [i] of [range(0, ntraces, skipt)] and in that
    order, [clip(x[i] + gain*skipt*dx*trace/maxval, x[i]-dx, dx+x[i])],
    sample by sample, where [trace] is column [i] of the clipped view with
    its first and last sample set to zero, [dx = x[1] - x[0]], and [maxval]
    is the absolute value of [np.nanmax] of the clipped view (taken before
    any sample is set to zero), not the maximum itself.  The first and the
    last sample of each curve are therefore
    [clip(x[i] + gain*skipt*dx*0/maxval, x[i]-dx, dx+x[i])]. *)
Theorem wiggle_trace_curves
    self x t ti tsi tw perc skipt lwidth gain typeD color w w' :
  wiggle self x t ti tsi tw perc skipt lwidth gain typeD color w = (Ok tt, w') →
  ∃ D w1 rows sk xs x1 x0 dx Dmax idx curves,
    select_clip self ti tsi tw perc
      "Error: trace_interval should be a list of two elements" w = (Ok D, w1) ∧
    read_array D w1 = (Ok rows, w1) ∧
    (effective_skipt skipt (ncols D) w1).1 = Ok sk ∧
    (wiggle_x_axis x ti (ncols D) w1).1 = Ok xs ∧
    coords_get xs 1 = Ok x1 ∧ coords_get xs 0 = Ok x0 ∧ Py.sub x1 x0 = Ok dx ∧
    Np.nanmax rows = Ok Dmax ∧
    Py.range_step (ncols D) sk = Ok idx ∧
    plotted (backend w') = plotted (backend w) ++ curves ∧
    Forall2 (λ i curve, ∃ xi xf c cf lo hi,
               coords_get xs i = Ok xi ∧
               Py.to_float xi = Ok xf ∧
               rbind (Py.mul gain (PyInt sk)) (λ gs, Py.mul gs dx) = Ok c ∧
               Py.to_float c = Ok cf ∧
               rbind (Py.sub xi dx) Py.to_float = Ok lo ∧
               rbind (Py.add dx xi) Py.to_float = Ok hi ∧
               let maxval := PrimFloat.abs Dmax in
               let sample v := Np.clip1 lo hi (xf + cf * v / maxval)%float in
               curve = map sample (pinned (column rows i)) ∧
               curve !! 0%nat = Some (sample 0%float) ∧
               curve !! (length rows - 1)%nat = Some (sample 0%float))
            idx curves.
Proof.
  unfold wiggle. intros (D & w1 & Hsel & H)%bind_inv_ok.
  pose proof (select_clip_backend _ _ _ _ _ _ _ _ _ Hsel) as Hb.
  pose proof Hsel as (D0 & w0 & _ & Hclip)%bind_inv_ok.
  apply percentile_clip_inv in Hclip as (rows & -> & Hk & Hcov).
  set (k := length (heap w0)) in *.
  destruct (wiggle_render_inv _ _ _ _ _ _ _ _ _ _ _ _ _ _ _ Hk Hcov H)
    as (sk & xs & x1 & x0 & dx & Dmax & idx & curves & Hsk & Hxs & Hx1 & Hx0 & Hdx
        & HDmax & Hidx & Hp & Hall).
  assert (ncols (NdArray k 0 (nrows D0) 0 (ncols D0)) = ncols D0) as Hnc
    by (unfold ncols at 1; simpl; lia).
  exists (NdArray k 0 (nrows D0) 0 (ncols D0)), w1, rows, sk, xs, x1, x0, dx, Dmax, idx,
    curves.
  rewrite Hnc, <- Hb.
  split; [done|]. split.
  { rewrite (read_array_run (NdArray k 0 (nrows D0) 0 (ncols D0)) rows w1 Hk).
    by rewrite window_covers. }
  do 8 (split; [done|]).
  eapply Forall2_impl; [exact Hall|].
  intros i curve (xi & Hxi & Hcurve). cbv zeta.
  apply trace_curve_formula in Hcurve as (xf & c & cf & lo & hi & ? & ? & ? & ? & ? & ->).
  exists xi, xf, c, cf, lo, hi. do 6 (split; [done|]). split; [done|].
  assert (column rows i ≠ []) as Hne.
  { intros Hnil. apply (nanmax_nonempty _ _ HDmax).
    apply (f_equal length) in Hnil. rewrite column_length in Hnil.
    by destruct rows. }
  destruct (pinned_ends _ Hne) as [Hfirst Hlast]. rewrite column_length in Hlast.
  change (map ?f ?l) with (f <$> l). by rewrite !list_lookup_fmap, Hfirst, Hlast.
Qed.

Lemma wiggle_trace_curves_witness :
  let w := Survey.world_of Survey.small [] in
  let self := Survey.box 3 2 in
  let r := wiggle self None None None None false 100 1 0.5 (PyInt 1) "VA" "red" w in
  let rows := [[1; -1]; [2; -2]; [0; 0]]%float in
  let xs := IntCoords [0; 1] in
  let dx := PyInt 1 in
  r.1 = Ok tt ∧
  plotted (backend r.2) = [[0; 1; 0]; [1; 0; 1]]%float ∧
  ∃ D w1,
    select_clip self None None false 100
      "Error: trace_interval should be a list of two elements" w = (Ok D, w1) ∧
    read_array D w1 = (Ok rows, w1) ∧
    (effective_skipt 1 (ncols D) w1).1 = Ok 1 ∧
    (wiggle_x_axis None None (ncols D) w1).1 = Ok xs ∧
    coords_get xs 1 = Ok (PyInt 1) ∧ coords_get xs 0 = Ok (PyInt 0) ∧
    Py.sub (PyInt 1) (PyInt 0) = Ok dx ∧
    Np.nanmax rows = Ok 2%float ∧
    Py.range_step (ncols D) 1 = Ok [0; 1]%nat ∧
    Forall2 (λ i curve, ∃ xi xf c cf lo hi,
               coords_get xs i = Ok xi ∧
               Py.to_float xi = Ok xf ∧
               rbind (Py.mul (PyInt 1) (PyInt 1)) (λ gs, Py.mul gs dx) = Ok c ∧
               Py.to_float c = Ok cf ∧
               rbind (Py.sub xi dx) Py.to_float = Ok lo ∧
               rbind (Py.add dx xi) Py.to_float = Ok hi ∧
               let maxval := PrimFloat.abs 2 in
               let sample v := Np.clip1 lo hi (xf + cf * v / maxval)%float in
               curve = map sample (pinned (column rows i)) ∧
               curve !! 0%nat = Some (sample 0%float) ∧
               curve !! (length rows - 1)%nat = Some (sample 0%float))
            [0; 1]%nat [[0; 1; 0]; [1; 0; 1]]%float.
Proof.
  intros w self r rows xs dx.
  assert (r = (Ok tt, r.2)) as Hrun by (vm_compute; reflexivity).
  assert (plotted (backend r.2) = [[0; 1; 0]; [1; 0; 1]]%float) as Hplot
    by (vm_compute; reflexivity).
  split; [vm_compute; reflexivity|]. split; [exact Hplot|].
  destruct (wiggle_trace_curves self None None None None false 100 1 0.5 (PyInt 1)
              "VA" "red" w r.2 Hrun)
    as (D & w1 & rows' & sk & xs' & x1 & x0 & dx' & Dmax & idx & curves
        & Hsel & Hread & Hsk & Hxs & Hx1 & Hx0 & Hdx & HDmax & Hidx & Hp & Hall).
  pose proof Hsel as E. vm_compute in E. injection E as <- <-.
  pose proof Hread as E. vm_compute in E. injection E as <-.
  pose proof Hsk as E. vm_compute in E. injection E as <-.
  pose proof Hxs as E. vm_compute in E. injection E as <-.
  pose proof Hx1 as E. vm_compute in E. injection E as <-.
  pose proof Hx0 as E. vm_compute in E. injection E as <-.
  pose proof Hdx as E. vm_compute in E. injection E as <-.
  pose proof HDmax as E. vm_compute in E. injection E as <-.
  pose proof Hidx as E. vm_compute in E. injection E as <-.
  rewrite Hplot in Hp. vm_compute in Hp. subst curves.
  eexists _, _. repeat (split; [eassumption|]). exact Hall.
Defined.

(** C5 (the claim as stated fails).  On the all-negative view of four
    samples of two traces, with [perc = 100], every sample is clipped to -2,
    [np.nanmax] is -2 and the code divides by [maxval = 2]: the curve of
    trace 0 swings to the left of its baseline, [0, -1, -1, 0].  With
    [max(data) = -2] as the divisor, as the claim has it, the same trace
    would swing to the right, [0, 1, 1, 0]. *)
Lemma wiggle_scale_is_abs_of_max :
  let w := Survey.world_of Survey.trough [] in
  let r := wiggle (Survey.box 4 2) None None None None false 100 1 0.5 (PyInt 1)
             "VA" "red" w in
  let clipped := [[-2; -2]; [-2; -2]; [-2; -2]; [-2; -2]]%float in
  r.1 = Ok tt ∧
  Np.nanmax clipped = Ok (-2)%float ∧
  plotted (backend r.2) = [[0; -1; -1; 0]; [1; 0; 0; 1]]%float ∧
  trace_curve (PyInt 1) (PyInt 0) 1 (PyInt 1) (-2) (pinned (column clipped 0))
    = Ok [0; 1; 1; 0]%float.
Proof. repeat split; vm_compute; reflexivity. Qed.

(** * Further properties of the code *)

(** ** The constructor and [print_beta] *)

(** The toolbox of the example survey is the one that [__init__] builds
    from its header: 2000 microseconds give [dt = 0.002]. *)
Lemma init_survey :
  let w := Survey.world_of Survey.small [] in
  init (NdArray 0 0 3 0 2, 1%nat, NdArray 2 0 1 0 2) w = (Ok (Survey.box 3 2), w).
Proof. vm_compute. reflexivity. Qed.

(** Python divides two ints exactly and rounds once: a header entry beyond
    the binary64 range still has its quotient. *)
Lemma int_truediv_beyond_binary64 :
  Py.to_float (PyInt (10 ^ 310)) = Raise OverflowError ∧
  Py.truediv_int (PyInt (10 ^ 310)) 1000000 = Ok (F64.of_Z (10 ^ 304)).
Proof. split; vm_compute; reflexivity. Qed.

Lemma window_length a buf : (length (window a buf) ≤ nrows a)%nat.
Proof. unfold window. rewrite length_map, length_take. lia. Qed.

Lemma window_row_length a buf r row :
  window a buf !! r = Some row → (length row ≤ ncols a)%nat.
Proof.
  unfold window. change (map ?f ?l) with (f <$> l).
  rewrite list_lookup_fmap. destruct (_ !! r); [|done].
  intros [= <-]. rewrite length_take. lia.
Qed.

(** [print_beta] on a trace header table with fewer than five rows or
    fewer than two columns: the time step is printed, then [STH[4,1]]
    raises [IndexError]; the second line is not printed. *)
Theorem print_beta_short_table self buf w :
  heap w !! nd_base (STH self) = Some (Buf buf) →
  (nrows (STH self) ≤ 4 ∨ ncols (STH self) ≤ 1)%nat →
  print_beta self w =
    (Raise IndexError,
     World (heap w) (stdout w ++ [OutFormat "time step in s: {}" (PyFloat (dt self))])
       (backend w)).
Proof.
  intros Hbuf Hshape. unfold print_beta.
  erewrite bind_ok; [|reflexivity].
  apply bind_raise. unfold array_get.
  erewrite bind_ok; [|by apply read_array_run].
  destruct (window (STH self) buf !! 4%nat) as [row|] eqn:Er; [|done].
  destruct (row !! 1%nat) eqn:Ec; [|done]. exfalso.
  apply lookup_lt_Some in Ec. pose proof (window_row_length _ _ _ _ Er).
  apply lookup_lt_Some in Er. pose proof (window_length (STH self) buf). lia.
Qed.

Lemma print_beta_short_table_witness :
  let w := Survey.world_of Survey.small [] in
  let self := Survey.box 3 2 in
  print_beta self w =
    (Raise IndexError,
     World (heap w) (stdout w ++ [OutFormat "time step in s: {}" (PyFloat (dt self))])
       (backend w)).
Proof.
  intros w self. apply (print_beta_short_table self [[0; 10]]%float w).
  - reflexivity.
  - left. vm_compute. lia.
Defined.

(** [print_beta] when the table has the two elements: two lines are
    printed, the time step and the difference [STH[4,1] - STH[4,0]];
    nothing else changes. *)
Theorem print_beta_prints self buf row a b w :
  heap w !! nd_base (STH self) = Some (Buf buf) →
  window (STH self) buf !! 4%nat = Some row →
  row !! 1%nat = Some a → row !! 0%nat = Some b →
  print_beta self w =
    (Ok tt,
     World (heap w)
       (stdout w ++ [OutFormat "time step in s: {}" (PyFloat (dt self));
                     OutFormat "receiver sampling: {}" (PyFloat (PrimFloat.sub a b))])
       (backend w)).
Proof.
  intros Hbuf Hrow Ha Hb. unfold print_beta.
  erewrite bind_ok; [|reflexivity].
  assert (∀ so c v, row !! c = Some v →
            array_get (STH self) 4 c (World (heap w) so (backend w))
              = (Ok v, World (heap w) so (backend w))) as Hget.
  { intros so c v Hc. unfold array_get.
    erewrite bind_ok; [|by apply read_array_run]. by rewrite Hrow, Hc. }
  rewrite (bind_ok _ _ _ _ _ (Hget _ _ _ Ha)).
  rewrite (bind_ok _ _ _ _ _ (Hget _ _ _ Hb)).
  unfold print. simpl. by rewrite <- app_assoc.
Qed.

Lemma print_beta_prints_witness :
  let table := [[0; 0]; [0; 0]; [0; 0]; [0; 0]; [100; 125]]%float in
  let w := World [Buf Survey.small; PyDict [("dt", PyInt 2000)]; Buf table] [] [] in
  let self := ToolBox (NdArray 0 0 3 0 2) 1 (NdArray 2 0 5 0 2) (2000 / 1000000)%float in
  print_beta self w =
    (Ok tt,
     World (heap w)
       [OutFormat "time step in s: {}" (PyFloat (2000 / 1000000));
        OutFormat "receiver sampling: {}" (PyFloat (125 - 100))]
       []).
Proof.
  intros table w self.
  apply (print_beta_prints self table [100; 125]%float 125 100 w); reflexivity.
Defined.

(** ** What a call that returns has gone through *)

Lemma check_interval_inv iv msg w w' :
  check_interval iv msg w = (Ok tt, w') →
  w' = w ∧ ∀ l, iv = Some l → ∃ a b, heap w !! l = Some (PyList [a; b]).
Proof.
  unfold check_interval. destruct iv as [l|]; [|by intros [= <-]].
  intros (items & ? & [Hl ->]%load_list_inv & H)%bind_inv_ok.
  case_decide as Hd; [done|]. injection H as <-. split; [done|].
  intros ? [= <-]. destruct items as [|a [|b [|c items]]]; simpl in Hd;
    first [by eauto | exfalso; apply Hd; left; lia].
Qed.

Lemma int_bounds_inv l ij w w' : int_bounds l w = (Ok ij, w') → w' = w.
Proof.
  unfold int_bounds.
  intros (a & ? & (? & _ & _ & ->)%list_get_inv & H)%bind_inv_ok.
  apply bind_inv_ok in H as (i & ? & [_ ->]%lift_inv_ok & H).
  apply bind_inv_ok in H as (b & ? & (? & _ & _ & ->)%list_get_inv & H).
  apply bind_inv_ok in H as (j & ? & [_ ->]%lift_inv_ok & H).
  by injection H.
Qed.

Lemma ncols_slice_rows a i j : ncols (slice_rows a i j) = ncols a.
Proof. unfold slice_rows. by destruct (Py.slice _ _ _). Qed.

Lemma nrows_slice_cols a i j : nrows (slice_cols a i j) = nrows a.
Proof. unfold slice_cols. by destruct (Py.slice _ _ _). Qed.

(** The view selected: a window on a new buffer that holds the elements of
    the dataset; without a trace range it has all the traces, without a
    sample range all the samples. *)
Lemma select_view_inv self ti tsi D w w1 :
  select_view self ti tsi w = (Ok D, w1) →
  ∃ buf,
    heap w !! nd_base (Data self) = Some (Buf buf) ∧
    w1 = World (heap w ++ [Buf (window (Data self) buf)]) (stdout w) (backend w) ∧
    nd_base D = length (heap w) ∧
    (ti = None → ncols D = ncols (Data self)) ∧
    (tsi = None → nrows D = nrows (Data self)).
Proof.
  unfold select_view. intros (D0 & w0 & Hcopy & H)%bind_inv_ok.
  unfold copy_array in Hcopy.
  apply bind_inv_ok in Hcopy as (rows & ? & (buf & Hbuf & -> & ->)%read_array_inv & Hcopy).
  unfold new_array, bind, alloc, ret in Hcopy. simpl in Hcopy. injection Hcopy as <- <-.
  apply bind_inv_ok in H as (D1 & w2 & H1 & H).
  set (D0 := NdArray (length (heap w)) 0 (nrows (Data self)) 0 (ncols (Data self))) in *.
  assert (nrows D0 = nrows (Data self)) as Hnr by (unfold nrows at 1; simpl; lia).
  assert (ncols D0 = ncols (Data self)) as Hnc by (unfold ncols at 1; simpl; lia).
  assert (w2 = World (heap w ++ [Buf (window (Data self) buf)]) (stdout w) (backend w)
          ∧ nd_base D1 = length (heap w)
          ∧ (ti = None → ncols D1 = ncols (Data self))
          ∧ nrows D1 = nrows (Data self)) as (-> & Hb1 & Hc1 & Hr1).
  { destruct ti as [l|].
    - apply bind_inv_ok in H1 as (ij & ? & ->%int_bounds_inv & H1). injection H1 as <- <-.
      by rewrite nd_base_slice_cols, nrows_slice_cols.
    - by injection H1 as <- <-. }
  exists buf. split; [done|]. destruct tsi as [l|].
  - apply bind_inv_ok in H as (ij & ? & ->%int_bounds_inv & H). injection H as <- <-.
    rewrite nd_base_slice_rows, ncols_slice_rows. by repeat split.
  - injection H as <- <-. by repeat split.
Qed.

(** The range selection with the time window off: two checks, then the
    view. *)
Lemma select_range_inv self ti tsi msg D w w1 :
  select_range self ti tsi false msg w = (Ok D, w1) →
  select_view self ti tsi w = (Ok D, w1) ∧
  (∀ l, ti = Some l → ∃ a b, heap w !! l = Some (PyList [a; b])) ∧
  (∀ l, tsi = Some l → ∃ a b, heap w !! l = Some (PyList [a; b])).
Proof.
  unfold select_range. intros ([] & ? & [= <-] & H)%bind_inv_ok.
  apply bind_inv_ok in H as ([] & ? & [-> Hti]%check_interval_inv & H).
  apply bind_inv_ok in H as ([] & ? & [-> Htsi]%check_interval_inv & H).
  done.
Qed.

(** The clipped array that the renderers work on. *)
Lemma select_clip_shape self ti tsi tw perc msg K w w1 :
  select_clip self ti tsi tw perc msg w = (Ok K, w1) →
  ∃ k nr nc rows,
    K = NdArray k 0 nr 0 nc ∧
    heap w1 !! k = Some (Buf rows) ∧ covers nr nc rows ∧
    (ti = None → nc = ncols (Data self)) ∧
    (tsi = None → nr = nrows (Data self)).
Proof.
  unfold select_clip. intros (D0 & w0 & Hsel & Hclip)%bind_inv_ok.
  apply percentile_clip_inv in Hclip as (rows & -> & Hk & Hcov).
  exists (length (heap w0)), (nrows D0), (ncols D0), rows.
  do 3 (split; [done|]).
  unfold select_range in Hsel.
  apply bind_inv_ok in Hsel as ([] & ? & _ & Hsel).
  apply bind_inv_ok in Hsel as ([] & ? & _ & Hsel).
  apply bind_inv_ok in Hsel as ([] & ? & _ & Hsel).
  by apply select_view_inv in Hsel as (buf & _ & _ & _ & ? & ?).
Qed.

Lemma wiggle_inv self x t ti tsi tw perc skipt lwidth gain typeD color w w' :
  wiggle self x t ti tsi tw perc skipt lwidth gain typeD color w = (Ok tt, w') →
  ∃ k nr nc rows w1,
    select_clip self ti tsi tw perc
      "Error: trace_interval should be a list of two elements" w
      = (Ok (NdArray k 0 nr 0 nc), w1) ∧
    heap w1 !! k = Some (Buf rows) ∧ covers nr nc rows ∧
    (ti = None → nc = ncols (Data self)) ∧
    (tsi = None → nr = nrows (Data self)) ∧
    wiggle_render x t ti tsi skipt lwidth gain typeD color (NdArray k 0 nr 0 nc) w1
      = (Ok tt, w').
Proof.
  unfold wiggle. intros (K & w1 & Hsel & H)%bind_inv_ok.
  pose proof Hsel as (k & nr & nc & rows & -> & ? & ? & ? & ?)%select_clip_shape.
  by exists k, nr, nc, rows, w1.
Qed.

Lemma Forall2_functional {A B} (R : A → B → Prop) l k1 k2 :
  (∀ a b1 b2, R a b1 → R a b2 → b1 = b2) →
  Forall2 R l k1 → Forall2 R l k2 → k1 = k2.
Proof.
  intros HR H1. revert k2. induction H1 as [|a b l k1 Hab _ IH]; intros k2 H2.
  - by inversion H2.
  - inversion H2 as [|? b2 ? k2' Hab2 H2']; subst. f_equal; [by eapply HR|by apply IH].
Qed.

(** The curves of the wiggle plot do not depend on the line width, the
    fill mode or the colour: in particular the loop of lines 226-228, which
    sets the negative samples of a trace to zero when [typeD] is ['VA'],
    runs after the curve is computed and changes none that is drawn. *)
Theorem wiggle_curves_regardless_of_style
    self x t ti tsi tw perc skipt gain lwidth1 typeD1 color1 lwidth2 typeD2 color2
    w w1 w2 :
  wiggle self x t ti tsi tw perc skipt lwidth1 gain typeD1 color1 w = (Ok tt, w1) →
  wiggle self x t ti tsi tw perc skipt lwidth2 gain typeD2 color2 w = (Ok tt, w2) →
  plotted (backend w1) = plotted (backend w2).
Proof.
  intros (k & nr & nc & rows & wa & Hsel & Hk & Hcov & _ & _ & Hr1)%wiggle_inv
         (k' & nr' & nc' & rows' & wa' & Hsel' & Hk' & Hcov' & _ & _ & Hr2)%wiggle_inv.
  pose proof (eq_trans (eq_sym Hsel) Hsel') as [= <- <- <- <-].
  pose proof (eq_trans (eq_sym Hk) Hk') as [= <-].
  apply (wiggle_render_inv _ _ _ _ _ _ _ _ _ _ _ _ _ _ _ Hk Hcov) in Hr1
    as (sk & xs & x1 & x0 & dx & Dmax & idx & curves & Hsk & Hxs & Hx1 & Hx0 & Hdx
        & HDmax & Hidx & Hp & Hall).
  apply (wiggle_render_inv _ _ _ _ _ _ _ _ _ _ _ _ _ _ _ Hk Hcov) in Hr2
    as (sk' & xs' & x1' & x0' & dx' & Dmax' & idx' & curves' & Hsk' & Hxs' & Hx1'
        & Hx0' & Hdx' & HDmax' & Hidx' & Hp' & Hall').
  pose proof (eq_trans (eq_sym Hsk) Hsk') as [= <-].
  pose proof (eq_trans (eq_sym Hxs) Hxs') as [= <-].
  pose proof (eq_trans (eq_sym Hx1) Hx1') as [= <-].
  pose proof (eq_trans (eq_sym Hx0) Hx0') as [= <-].
  pose proof (eq_trans (eq_sym Hdx) Hdx') as [= <-].
  pose proof (eq_trans (eq_sym HDmax) HDmax') as [= <-].
  pose proof (eq_trans (eq_sym Hidx) Hidx') as [= <-].
  rewrite Hp, Hp'. f_equal.
  eapply Forall2_functional; [|exact Hall|exact Hall'].
  intros i c1 c2 (xi & Hxi & Hc1) (xi' & Hxi' & Hc2). simpl in *.
  pose proof (eq_trans (eq_sym Hxi) Hxi') as [= <-].
  by pose proof (eq_trans (eq_sym Hc1) Hc2) as [= <-].
Qed.

Lemma wiggle_curves_regardless_of_style_witness :
  let w := Survey.world_of Survey.small [] in
  let self := Survey.box 3 2 in
  plotted (backend (wiggle self None None None None false 100 1 0.5 (PyInt 1)
                      "VA" "red" w).2) =
  plotted (backend (wiggle self None None None None false 100 1 2 (PyInt 1)
                      "wiggle" "black" w).2).
Proof.
  intros w self.
  apply (wiggle_curves_regardless_of_style self None None None None false 100 1
           (PyInt 1) 0.5 "VA" "red" 2 "wiggle" "black" w);
    vm_compute; reflexivity.
Defined.

(** A wiggle plot needs two traces and a step: when [wiggle] returns, the
    x coordinates ([x], or the trace numbers of all the traces when no [x]
    and no trace range is given) hold at least two elements, since
    [dx = x[1] - x[0]] was computed, and, unless there are more than 10^9
    traces, [skipt] is not 0, since [range(0, ntraces, skipt)] was built. *)
Theorem wiggle_needs_two_traces
    self x t tsi tw perc skipt lwidth gain typeD color w w' :
  wiggle self x t None tsi tw perc skipt lwidth gain typeD color w = (Ok tt, w') →
  (2 ≤ match x with Some xv => length xv | None => ncols (Data self) end)%nat ∧
  (Z.of_nat (ncols (Data self)) <= 1000000000 → skipt ≠ 0).
Proof.
  intros (k & nr & nc & rows & w1 & Hsel & Hk & Hcov & Hnc & _ & Hr)%wiggle_inv.
  rewrite <- (Hnc eq_refl).
  apply (wiggle_render_inv _ _ _ _ _ _ _ _ _ _ _ _ _ _ _ Hk Hcov) in Hr
    as (sk & xs & x1 & x0 & dx & Dmax & idx & curves & Hsk & Hxs & Hx1 & Hx0 & Hdx
        & HDmax & Hidx & Hp & Hall).
  split.
  - unfold wiggle_x_axis in Hxs. destruct x as [xv|]; injection Hxs as <-.
    + simpl in Hx1. destruct (xv !! 1%nat) eqn:E; [|done].
      by apply lookup_lt_Some in E.
    + simpl in Hx1. destruct (Py.range 0 (Z.of_nat nc) !! 1%nat) eqn:E; [|done].
      apply lookup_lt_Some in E. by rewrite range_length in E.
  - intros Hsmall ->. unfold effective_skipt in Hsk.
    assert ((1000000000 <? Z.of_nat nc) = false) as Hlt by (apply Z.ltb_ge; lia).
    rewrite Hlt in Hsk. injection Hsk as <-. done.
Qed.

Lemma wiggle_needs_two_traces_witness :
  let self := Survey.box 3 2 in
  (2 ≤ ncols (Data self))%nat ∧
  (Z.of_nat (ncols (Data self)) <= 1000000000 → 1 ≠ 0).
Proof.
  intros self.
  apply (wiggle_needs_two_traces self None None None false 100 1 0.5 (PyInt 1)
           "VA" "red" (Survey.world_of Survey.small [])
           (wiggle self None None None None false 100 1 0.5 (PyInt 1)
              "VA" "red" (Survey.world_of Survey.small [])).2).
  vm_compute. reflexivity.
Defined.

(** ** The sample range and the axes *)

Lemma index_bounds_ints l ij w w' :
  index_bounds l w = (Ok ij, w') →
  ∃ items, heap w !! l = Some (PyList items) ∧
           items !! 0%nat = Some (PyInt ij.1) ∧ items !! 1%nat = Some (PyInt ij.2).
Proof.
  unfold index_bounds. intros H.
  apply bind_inv_ok in H as (a & ? & (items & Hl & Ha & ->)%list_get_inv & H).
  apply bind_inv_ok in H as (b & ? & (items' & Hl' & Hb & ->)%list_get_inv & H).
  apply bind_inv_ok in H as (i & ? & [Hi ->]%lift_inv_ok & H).
  apply bind_inv_ok in H as (j & ? & [Hj ->]%lift_inv_ok & H).
  injection H as <- _. pose proof (eq_trans (eq_sym Hl) Hl') as [= <-].
  exists items. destruct a, b; try discriminate.
  injection Hi as <-. injection Hj as <-. done.
Qed.

Lemma time_axis_ints l t ns r w w' :
  time_axis (Some l) t ns w = (Ok r, w') →
  ∃ items a b, heap w !! l = Some (PyList items) ∧
               items !! 0%nat = Some (PyInt a) ∧ items !! 1%nat = Some (PyInt b).
Proof.
  unfold time_axis. destruct t;
    intros (ij & ? & (items & ? & ? & ?)%index_bounds_ints & _)%bind_inv_ok;
    by exists items, ij.1, ij.2.
Qed.

Lemma percentile_clip_world D perc K w w1 :
  percentile_clip D perc w = (Ok K, w1) →
  ∃ b, w1 = World (heap w ++ [Buf b]) (stdout w) (backend w).
Proof.
  unfold percentile_clip.
  intros (rows & ? & (buf & Hbuf & -> & ->)%read_array_inv & H)%bind_inv_ok.
  apply bind_inv_ok in H as (p & ? & [Hp ->]%lift_inv_ok & H).
  unfold new_array, bind, alloc, ret in H. simpl in H. injection H as _ <-.
  by eexists.
Qed.

(** With the time window off the selection and the clip add two buffers
    to the heap and change nothing else. *)
Lemma select_clip_world self ti tsi perc msg K w w1 :
  select_clip self ti tsi false perc msg w = (Ok K, w1) →
  (∃ b1 b2, w1 = World (heap w ++ [Buf b1; Buf b2]) (stdout w) (backend w)) ∧
  (∀ l, tsi = Some l → ∃ a b, heap w !! l = Some (PyList [a; b])).
Proof.
  unfold select_clip. intros (D0 & w0 & Hsel & Hclip)%bind_inv_ok.
  apply select_range_inv in Hsel as ((buf & _ & -> & _)%select_view_inv & _ & Htsi).
  apply percentile_clip_world in Hclip as [b ->]. simpl.
  split; [|done]. eexists _, b. by rewrite <- app_assoc.
Qed.

Lemma wiggle_render_time_axis x t ti tsi skipt lwidth gain typeD color D w w' :
  wiggle_render x t ti tsi skipt lwidth gain typeD color D w = (Ok tt, w') →
  ∃ wa r, heap wa = heap w ∧ time_axis tsi t (nrows D) wa = (Ok r, wa).
Proof.
  unfold wiggle_render. intros H.
  apply bind_inv_ok in H as ([] & ? & ->%emit_inv & H).
  apply bind_inv_ok in H as ([] & ? & ->%emit_inv & H).
  apply bind_inv_ok in H as (sk & ? & [-> _]%effective_skipt_inv & H).
  apply bind_inv_ok in H as (xs & ? & [[lbl ->] _]%wiggle_x_axis_inv & H).
  apply bind_inv_ok in H as (tyl & wa & Ht & _).
  pose proof (time_axis_inv _ _ _ _ _ _ Ht) as ->.
  eexists _, tyl. split; [|exact Ht]. done.
Qed.

(** What a successful [imageseis_render] has read, made and called. *)
Lemma imageseis_render_calls x t tsi gain D img w w' :
  imageseis_render x t tsi gain D w = (Ok img, w') →
  ∃ rows Dmax g xl tyl amax g10,
    read_array D w = (Ok rows, w) ∧
    Np.max rows = Ok Dmax ∧
    Py.to_float gain = Ok g ∧
    Np.max (Np.abs rows) = Ok amax ∧
    image_x_axis x t (nrows D) (ncols D) w = (Ok xl, w) ∧
    time_axis tsi t (nrows D) w = (Ok tyl, w) ∧
    img = length (heap w) ∧
    let cb := Update (img + 2) (img + 1) (img + 3) img in
    w' = World (heap w ++
                  [Mesh (QuadMesh xl.1 tyl.1 (map (map (λ v, PrimFloat.mul v g)) rows)
                           (PrimFloat.opp Dmax, Dmax) "seismic");
                   SliderW (Slider "max clip " 0 amax amax [cb]);
                   SliderW (Slider "min clip" (PrimFloat.opp amax) 0 (PrimFloat.opp amax) [cb]);
                   SliderW (Slider "gain" g g10 g [cb])])
               (stdout w)
               (backend w ++
                  [SubplotsAdjust; Pcolormesh img; Colorbar; Axis "normal";
                   SetXLabel xl.2; SetYLabel tyl.2; Gca; InvertYAxis;
                   NewAxes; NewAxes; NewAxes;
                   NewSlider (img + 1); NewSlider (img + 2); NewSlider (img + 3);
                   OnChanged (img + 2) cb; OnChanged (img + 1) cb; OnChanged (img + 3) cb]).
Proof.
  unfold imageseis_render. intros H.
  apply bind_inv_ok in H as (rows & w1 & Hrows & H).
  pose proof Hrows as (buf & _ & _ & ->)%read_array_inv.
  apply bind_inv_ok in H as (Dmax & ? & [HDmax ->]%lift_inv_ok & H).
  apply bind_inv_ok in H as (m1 & ? & [Hm1 ->]%lift_inv_ok & H).
  apply bind_inv_ok in H as (mv & ? & [Hmv ->]%lift_inv_ok & H).
  apply bind_inv_ok in H as (maxval & ? & [Hmaxval ->]%lift_inv_ok & H).
  pose proof (image_maxval _ _ _ _ Hm1 Hmv Hmaxval) as ->.
  apply bind_inv_ok in H as (xl & wx & Hxl & H).
  pose proof (image_x_axis_inv _ _ _ _ _ _ _ Hxl) as ->.
  apply bind_inv_ok in H as (tyl & wt & Htyl & H).
  pose proof (time_axis_inv _ _ _ _ _ _ Htyl) as ->.
  apply bind_inv_ok in H as ([] & ? & ->%emit_inv & H).
  apply bind_inv_ok in H as (g & ? & [Hg ->]%lift_inv_ok & H).
  apply bind_inv_ok in H as (vmin & ? & [->%image_vmin ->]%lift_inv_ok & H).
  apply bind_inv_ok in H as (img' & ? & Halloc & H).
  injection Halloc as <- <-. simpl in H.
  do 7 (apply bind_inv_ok in H as ([] & ? & ->%emit_inv & H); simpl in H).
  pose proof H as (amax & g10 & Hamax & Hg10)%add_widgets_inv.
  rewrite (add_widgets_run gain rows g amax g10 _ _ _ _ Hamax Hg10) in H.
  injection H as <- <-.
  exists rows, Dmax, g, xl, tyl, amax, g10.
  do 7 (split; [done|]). simpl. by rewrite <- !app_assoc.
Qed.

(** With the time window off, a sample range of which an end is not an
    [int] stops both plots: [int()] accepts it for the slice of the data,
    but [range()] and the slice of [t] do not, so a call that returns was
    given a list of two [int]s. *)
Theorem sample_range_of_a_plot_is_integer
    self x t ti l perc skipt lwidth gain typeD color w :
  (∃ w', wiggle self x t ti (Some l) false perc skipt lwidth gain typeD color w
           = (Ok tt, w')) ∨
  (∃ img w', imageseis self x t ti (Some l) false gain perc w = (Ok img, w')) →
  ∃ a b, heap w !! l = Some (PyList [PyInt a; PyInt b]).
Proof.
  intros H.
  assert (∃ msg K w1 wa r,
            select_clip self ti (Some l) false perc msg w = (Ok K, w1) ∧
            heap wa = heap w1 ∧
            time_axis (Some l) t (nrows K) wa = (Ok r, wa))
    as (msg & K & w1 & wa & r & Hsel & Hwa & Ht).
  { destruct H as [[w' H]|(img & w' & H)].
    - unfold wiggle in H. apply bind_inv_ok in H as (K & w1 & Hsel & H).
      apply wiggle_render_time_axis in H as (wa & r & ? & ?).
      by eexists _, K, w1, wa, r.
    - unfold imageseis in H. apply bind_inv_ok in H as (K & w1 & Hsel & H).
      apply imageseis_render_calls in H
        as (? & ? & ? & ? & tyl & ? & ? & _ & _ & _ & _ & _ & Ht & _).
      by eexists _, K, w1, w1, tyl. }
  apply select_clip_world in Hsel as [(b1 & b2 & ->) Hl].
  destruct (Hl l eq_refl) as (a & b & Hab).
  apply time_axis_ints in Ht as (items & i & j & Hitems & Hi & Hj).
  rewrite Hwa in Hitems. simpl in Hitems.
  rewrite (lookup_app_l_Some _ _ _ _ Hab) in Hitems. injection Hitems as <-.
  injection Hi as ->. injection Hj as ->. by exists i, j.
Qed.

Lemma sample_range_of_a_plot_is_integer_witness :
  let w := Survey.world_of Survey.small [[PyInt 0; PyInt 3]] in
  ∃ a b, heap w !! 3%nat = Some (PyList [PyInt a; PyInt b]).
Proof.
  intros w.
  apply (sample_range_of_a_plot_is_integer (Survey.box 3 2) None None None 3%nat
           100 1 0.5 (PyInt 1) "VA" "red" w).
  right.
  exists 6%nat.
  exists (imageseis (Survey.box 3 2) None None None (Some 3%nat) false (PyInt 1) 100 w).2.
  vm_compute. reflexivity.
Defined.

Lemma image_x_axis_result x t ns n xl w w' :
  image_x_axis x t ns n w = (Ok xl, w') →
  xl.2 = "Distance [m]" ∧
  match x with
  | Some xv => xl.1 = FloatCoords xv ∧ length xv = n
  | None => xl.1 = IntCoords (map (λ z, z + 1) (Py.range 0 (Z.of_nat n)))
  end.
Proof.
  unfold image_x_axis. destruct x as [xv|]; [|by intros [= <- _]].
  case_decide as Hd; [by destruct t|]. intros [= <- _]. simpl.
  split; [done|]. split; [done|]. by destruct (decide (length xv = n)).
Qed.

Lemma time_axis_label tsi t ns r w w' :
  time_axis tsi t ns w = (Ok r, w') →
  r.2 = match t with Some _ => "Time [s]" | None => "Sample number" end.
Proof.
  unfold time_axis. destruct t, tsi.
  - intros (ij & ? & _ & H)%bind_inv_ok. by injection H as <- _.
  - by intros [= <- _].
  - intros (ij & ? & _ & H)%bind_inv_ok. by injection H as <- _.
  - by intros [= <- _].
Qed.

Lemma imageseis_inv self x t ti tsi tw gain perc img w w' :
  imageseis self x t ti tsi tw gain perc w = (Ok img, w') →
  ∃ k nr nc rows w1,
    select_clip self ti tsi tw perc
      "Error: timesample_interval should be a list of two elements" w
      = (Ok (NdArray k 0 nr 0 nc), w1) ∧
    heap w1 !! k = Some (Buf rows) ∧ covers nr nc rows ∧
    (ti = None → nc = ncols (Data self)) ∧
    (tsi = None → nr = nrows (Data self)) ∧
    backend w1 = backend w ∧
    imageseis_render x t tsi gain (NdArray k 0 nr 0 nc) w1 = (Ok img, w').
Proof.
  unfold imageseis. intros (K & w1 & Hsel & H)%bind_inv_ok.
  pose proof (select_clip_backend _ _ _ _ _ _ _ _ _ Hsel).
  pose proof Hsel as (k & nr & nc & rows & -> & ? & ? & ? & ?)%select_clip_shape.
  by exists k, nr, nc, rows, w1.
Qed.

(** The calls that [imageseis] makes on the backend, in order, when it
    returns.  The x axis is labelled ['Distance [m]'] whether or not [x] was
    given: line 323 binds [x] when it was [None], so the test of line 331
    always holds and the label ['Trace number'] of line 324 is overwritten.
    Without [x] the traces are numbered from 1; a given [x] has one element
    for each trace drawn. *)
Theorem imageseis_backend_calls self x t ti tsi tw gain perc img w w' :
  imageseis self x t ti tsi tw gain perc w = (Ok img, w') →
  ∃ M,
    raster (heap w') img = Some M ∧
    match x with
    | Some xv => mesh_x M = FloatCoords xv ∧ (ti = None → length xv = ncols (Data self))
    | None => ∃ n, mesh_x M = IntCoords (map (λ z, z + 1) (Py.range 0 (Z.of_nat n)))
    end ∧
    let cb := Update (img + 2) (img + 1) (img + 3) img in
    backend w' =
      backend w ++
        [SubplotsAdjust; Pcolormesh img; Colorbar; Axis "normal";
         SetXLabel "Distance [m]";
         SetYLabel (match t with Some _ => "Time [s]" | None => "Sample number" end);
         Gca; InvertYAxis; NewAxes; NewAxes; NewAxes;
         NewSlider (img + 1); NewSlider (img + 2); NewSlider (img + 3);
         OnChanged (img + 2) cb; OnChanged (img + 1) cb; OnChanged (img + 3) cb].
Proof.
  intros (k & nr & nc & rows & w1 & Hsel & Hk & Hcov & Hnc & _ & Hb & H)%imageseis_inv.
  apply imageseis_render_calls in H
    as (rows' & Dmax & g & xl & tyl & amax & g10 & _ & _ & _ & _ & Hxl & Htyl & -> & ->).
  apply image_x_axis_result in Hxl as [Hlabel Hx].
  apply time_axis_label in Htyl.
  eexists. split.
  { unfold raster. simpl. by rewrite list_lookup_middle. }
  simpl. split.
  - destruct x as [xv|].
    + destruct Hx as [-> Hlen]. split; [done|]. intros Hti. rewrite <- (Hnc Hti).
      rewrite Hlen. unfold ncols. simpl. lia.
    + rewrite Hx. by eexists.
  - by rewrite Hb, Hlabel, Htyl.
Qed.

Lemma imageseis_backend_calls_witness :
  let w := Survey.world_of Survey.small [] in
  let self := Survey.box 3 2 in
  let img := 5%nat in
  let w' := (imageseis self None None None None false (PyInt 1) 100 w).2 in
  ∃ M,
    raster (heap w') img = Some M ∧
    (∃ n, mesh_x M = IntCoords (map (λ z, z + 1) (Py.range 0 (Z.of_nat n)))) ∧
    let cb := Update (img + 2) (img + 1) (img + 3) img in
    backend w' =
      backend w ++
        [SubplotsAdjust; Pcolormesh img; Colorbar; Axis "normal";
         SetXLabel "Distance [m]"; SetYLabel "Sample number";
         Gca; InvertYAxis; NewAxes; NewAxes; NewAxes;
         NewSlider (img + 1); NewSlider (img + 2); NewSlider (img + 3);
         OnChanged (img + 2) cb; OnChanged (img + 1) cb; OnChanged (img + 3) cb].
Proof.
  intros w self img w'.
  apply (imageseis_backend_calls self None None None None false (PyInt 1) 100 img w w').
  vm_compute. reflexivity.
Defined.

(** ** The first move of a slider *)

(** When [imageseis] returns, the raster has the colour limits
    [(-max(Data), max(Data))] of line 355, and the sliders hold
    [max|Data|], [-max|Data|] and the gain.  The first move of the gain
    slider, to any value [v], replaces the limits by
    [(-max|Data| / v, max|Data| / v)]: the limits drawn at first are not
    those of the sliders' initial values. *)
Theorem first_gain_change_resets_limits self x t ti tsi tw gain perc img v w w' :
  imageseis self x t ti tsi tw gain perc w = (Ok img, w') →
  ∃ K w1 rows Dmax amax M w'',
    select_clip self ti tsi tw perc
      "Error: timesample_interval should be a list of two elements" w = (Ok K, w1) ∧
    read_array K w1 = (Ok rows, w1) ∧
    Np.max rows = Ok Dmax ∧
    Np.max (Np.abs rows) = Ok amax ∧
    raster (heap w') img = Some M ∧
    mesh_clim M = (PrimFloat.opp Dmax, Dmax) ∧
    slider_value (heap w') (img + 1) = Some amax ∧
    slider_value (heap w') (img + 2) = Some (PrimFloat.opp amax) ∧
    control_change (img + 3) v w' = (Ok tt, w'') ∧
    raster (heap w'') img
      = Some (with_clim M (PrimFloat.opp amax / v, amax / v)%float).
Proof.
  intros (k & nr & nc & rows & w1 & Hsel & Hk & Hcov & _ & _ & _ & H)%imageseis_inv.
  apply imageseis_render_calls in H
    as (rows' & Dmax & g & xl & tyl & amax & g10 & Hrows & HDmax & Hg & Hamax & _ & _
        & -> & ->).
  set (h := heap w1) in *. set (img := length h).
  set (cb := Update (img + 2) (img + 1) (img + 3) img).
  set (M := QuadMesh xl.1 tyl.1 (map (map (λ v, PrimFloat.mul v g)) rows')
              (PrimFloat.opp Dmax, Dmax) "seismic").
  set (s1 := Slider "max clip " 0 amax amax [cb]).
  set (s2 := Slider "min clip" (PrimFloat.opp amax) 0 (PrimFloat.opp amax) [cb]).
  set (s3 := Slider "gain" g g10 g [cb]).
  set (s3' := Slider "gain" g g10 v [cb]).
  set (be := backend w1 ++ _).
  assert (∀ tl j o, tl !! j = Some o → (h ++ tl) !! (img + j)%nat = Some o) as Hat.
  { intros tl j o Hj. rewrite lookup_app_r by (unfold img; lia).
    by replace (img + j - length h)%nat with j by (unfold img; lia). }
  set (h1 := h ++ [Mesh M; SliderW s1; SliderW s2; SliderW s3']).
  assert (control_change (img + 3) v
            (World (h ++ [Mesh M; SliderW s1; SliderW s2; SliderW s3]) (stdout w1) be)
          = (Ok tt,
             World (<[img := Mesh (with_clim M (PrimFloat.opp amax / v, amax / v)%float)]> h1)
               (stdout w1) (be ++ [Draw]))) as Hrun.
  { unfold control_change, bind at 1, load. cbn [heap].
    rewrite (Hat _ 3%nat (SliderW s3)) by done.
    unfold bind at 1, store. cbn [heap stdout backend sl_observers s3 for_each].
    replace (<[(img + 3)%nat := _]> (h ++ _)) with h1.
    2:{ unfold h1, img. by rewrite (insert_app_r h _ 3). }
    erewrite bind_ok; [reflexivity|].
    apply (update_run (img + 2) (img + 1) (img + 3) img (PrimFloat.opp amax) amax v M
             (World h1 (stdout w1) be)); unfold slider_value, raster, h1; cbn [heap].
    - by rewrite (Hat _ 2%nat (SliderW s2)).
    - by rewrite (Hat _ 1%nat (SliderW s1)).
    - by rewrite (Hat _ 3%nat (SliderW s3')).
    - replace img with (img + 0)%nat at 1 by lia. by rewrite (Hat _ 0%nat (Mesh M)). }
  exists (NdArray k 0 nr 0 nc), w1, rows', Dmax, amax, M. eexists.
  do 4 (split; [done|]).
  split; [|split; [done|split; [|split; [|split; [exact Hrun|]]]]];
    unfold slider_value, raster; cbn [heap].
  - replace img with (img + 0)%nat at 1 by lia. by rewrite (Hat _ 0%nat (Mesh M)).
  - by rewrite (Hat _ 1%nat (SliderW s1)).
  - by rewrite (Hat _ 2%nat (SliderW s2)).
  - rewrite list_lookup_insert_eq; [done|]. unfold h1, img. rewrite length_app. simpl. lia.
Qed.

Lemma first_gain_change_resets_limits_witness :
  let w := Survey.world_of Survey.small [] in
  let self := Survey.box 3 2 in
  let w' := (imageseis self None None None None false (PyInt 1) 100 w).2 in
  ∃ K w1 rows Dmax amax M w'',
    select_clip self None None false 100
      "Error: timesample_interval should be a list of two elements" w = (Ok K, w1) ∧
    read_array K w1 = (Ok rows, w1) ∧
    Np.max rows = Ok Dmax ∧
    Np.max (Np.abs rows) = Ok amax ∧
    raster (heap w') 5%nat = Some M ∧
    mesh_clim M = (PrimFloat.opp Dmax, Dmax) ∧
    slider_value (heap w') 6%nat = Some amax ∧
    slider_value (heap w') 7%nat = Some (PrimFloat.opp amax) ∧
    control_change 8%nat 4 w' = (Ok tt, w'') ∧
    raster (heap w'') 5%nat
      = Some (with_clim M (PrimFloat.opp amax / 4, amax / 4)%float).
Proof.
  intros w self w'.
  apply (first_gain_change_resets_limits self None None None None false (PyInt 1) 100
           5%nat 4 w w').
  vm_compute. reflexivity.
Defined.

(** ** A percentile out of range *)

Lemma silent_select_range be self ti tsi tw msg :
  triple (silent be) (select_range self ti tsi tw msg) (λ _, True).
Proof. silent_go. Qed.

(** The text printed for a malformed sample range plays no part when the
    selection succeeds. *)
Lemma select_range_any_msg self ti tsi tw msg msg' D w w1 :
  select_range self ti tsi tw msg w = (Ok D, w1) →
  select_range self ti tsi tw msg' w = (Ok D, w1).
Proof.
  unfold select_range. intros ([] & w0 & Hconv & H)%bind_inv_ok.
  rewrite (bind_ok _ _ _ _ _ Hconv).
  apply bind_inv_ok in H as ([] & wa & Hti & H).
  rewrite (bind_ok _ _ _ _ _ Hti).
  apply bind_inv_ok in H as ([] & wb & Htsi & H).
  pose proof Htsi as [-> Hl]%check_interval_inv.
  erewrite bind_ok; [exact H|].
  destruct tsi as [l|]; [|done]. destruct (Hl l eq_refl) as (a & b & Hab).
  by eapply check_interval_pair.
Qed.

Lemma select_range_readable self ti tsi tw msg D w w1 :
  select_range self ti tsi tw msg w = (Ok D, w1) →
  ∃ buf, heap w1 !! nd_base D = Some (Buf buf).
Proof.
  unfold select_range. intros ([] & w0 & _ & H)%bind_inv_ok.
  apply bind_inv_ok in H as ([] & wa & _ & H).
  apply bind_inv_ok in H as ([] & wb & _ & H).
  apply select_view_inv in H as (buf & _ & -> & -> & _). simpl.
  eexists. by apply list_lookup_middle.
Qed.

(** A percentile outside [0, 100] stops both plots with [ValueError] when
    the selected view is handed to [np.percentile]: the copy of the data
    has been made, nothing has been drawn. *)
Theorem percentile_out_of_range
    self x t ti tsi tw perc skipt lwidth gain typeD color msg D w w1 :
  select_range self ti tsi tw msg w = (Ok D, w1) →
  (PrimFloat.leb 0 (perc / 100) && PrimFloat.leb (perc / 100) 1) = false →
  wiggle self x t ti tsi tw perc skipt lwidth gain typeD color w
    = (Raise ValueError, w1) ∧
  imageseis self x t ti tsi tw gain perc w = (Raise ValueError, w1) ∧
  backend w1 = backend w.
Proof.
  intros Hsel Hperc.
  assert (percentile_clip D perc w1 = (Raise ValueError, w1)) as Hclip.
  { destruct (select_range_readable _ _ _ _ _ _ _ _ Hsel) as [buf Hbuf].
    unfold percentile_clip.
    rewrite (bind_ok _ _ _ _ _ (read_array_run _ _ _ Hbuf)).
    apply bind_raise. unfold lift, Np.percentile. by rewrite Hperc. }
  assert (∀ m, select_clip self ti tsi tw perc m w = (Raise ValueError, w1)) as Hraise.
  { intros m. unfold select_clip.
    by rewrite (bind_ok _ _ _ _ _ (select_range_any_msg _ _ _ _ _ m _ _ _ Hsel)). }
  split; [|split].
  - unfold wiggle. by rewrite (bind_raise _ _ _ _ _ (Hraise _)).
  - unfold imageseis. by rewrite (bind_raise _ _ _ _ _ (Hraise _)).
  - destruct (silent_select_range (backend w) self ti tsi tw msg w eq_refl) as [Hb _].
    by rewrite Hsel in Hb.
Qed.

Lemma percentile_out_of_range_witness :
  let w := Survey.world_of Survey.small [] in
  let self := Survey.box 3 2 in
  let w1 := World (heap w ++ [Buf Survey.small]) [] [] in
  wiggle self None None None None false 150 1 0.5 (PyInt 1) "VA" "red" w
    = (Raise ValueError, w1) ∧
  imageseis self None None None None false (PyInt 1) 150 w = (Raise ValueError, w1) ∧
  backend w1 = backend w.
Proof.
  intros w self w1.
  apply (percentile_out_of_range self None None None None false 150 1 0.5 (PyInt 1)
           "VA" "red" "" (NdArray 3 0 3 0 2) w w1); vm_compute; reflexivity.
Defined.

(** ** The clipping law *)

(** The order of binary64 values, read on their specification. *)
Lemma SFcompare_refl s : s ≠ S754_nan → SFcompare s s = Some Eq.
Proof.
  destruct s as [[]|[]| |[] m e]; try done; intros _; simpl;
    by rewrite Z.compare_refl, Pos.compare_cont_refl.
Qed.

Lemma SFcompare_antisym s1 s2 :
  SFcompare s2 s1 = option_map CompOpp (SFcompare s1 s2).
Proof.
  destruct s1 as [[]|[]| |[] m1 e1], s2 as [[]|[]| |[] m2 e2]; try reflexivity; simpl;
    rewrite (Z.compare_antisym e1 e2); destruct (e1 ?= e2)%Z; simpl; try reflexivity;
    f_equal; rewrite (Pos.compare_cont_antisym m1 m2 Eq); simpl;
    rewrite ?CompOpp_involutive; reflexivity.
Qed.

Lemma is_nan_spec x :
  F64.is_nan x = match Prim2SF x with S754_nan => true | _ => false end.
Proof.
  unfold F64.is_nan, PrimFloat.is_nan. rewrite FloatAxioms.eqb_spec. unfold SFeqb.
  destruct (Prim2SF x) as [s|s| |s m e] eqn:E; try done;
    by rewrite SFcompare_refl.
Qed.

Lemma leb_refl x : F64.is_nan x = false → PrimFloat.leb x x = true.
Proof.
  rewrite is_nan_spec, leb_spec. unfold SFleb. intros H.
  rewrite SFcompare_refl; [done|]. by intros E; rewrite E in H.
Qed.

Lemma ltb_leb x y : PrimFloat.ltb x y = true → PrimFloat.leb x y = true.
Proof.
  rewrite ltb_spec, leb_spec. unfold SFltb, SFleb.
  by destruct (SFcompare _ _) as [[]|].
Qed.

Lemma not_ltb_leb x y :
  F64.is_nan x = false → F64.is_nan y = false →
  PrimFloat.ltb x y = false → PrimFloat.leb y x = true.
Proof.
  rewrite !is_nan_spec, ltb_spec, leb_spec. unfold SFltb, SFleb.
  rewrite (SFcompare_antisym (Prim2SF x) (Prim2SF y)). intros Hx Hy.
  destruct (SFcompare (Prim2SF x) (Prim2SF y)) as [[]|] eqn:E; try done.
  by destruct (Prim2SF x), (Prim2SF y).
Qed.

Lemma is_nan_abs x : F64.is_nan (PrimFloat.abs x) = F64.is_nan x.
Proof. rewrite !is_nan_spec, abs_spec. by destruct (Prim2SF x). Qed.

Lemma is_nan_opp x : F64.is_nan (PrimFloat.opp x) = F64.is_nan x.
Proof. rewrite !is_nan_spec, opp_spec. by destruct (Prim2SF x). Qed.

Lemma opp_abs_leb p :
  F64.is_nan p = false →
  PrimFloat.leb (PrimFloat.opp (PrimFloat.abs p)) (PrimFloat.abs p) = true.
Proof.
  rewrite is_nan_spec, leb_spec, opp_spec, abs_spec. unfold SFleb.
  destruct (Prim2SF p) as [[]|[]| |[] m e]; try done.
Qed.

(** A sample [x] saturated to the bound [b]: the result is not a number,
    or it lies in [[-b, b]] and is [x] or one of the two ends. *)
Definition saturated (b x r : float) : Prop :=
  F64.is_nan r = true ∨
  (PrimFloat.leb (PrimFloat.opp b) r = true ∧ PrimFloat.leb r b = true ∧
   (r = x ∨ r = b ∨ r = PrimFloat.opp b)).

Lemma clip1_saturated p x :
  let b := PrimFloat.abs p in
  saturated b x (Np.clip1 (PrimFloat.opp b) b x).
Proof.
  intros b. unfold saturated, Np.clip1, Np.fmax, Np.fmin.
  destruct (F64.is_nan x) eqn:Hx.
  { left. by rewrite Hx. }
  destruct (F64.is_nan p) eqn:Hp.
  { left. assert (F64.is_nan (PrimFloat.opp b) = true) as Hlo
      by by unfold b; rewrite is_nan_opp, is_nan_abs.
    assert (PrimFloat.ltb (PrimFloat.opp b) x = false) as ->.
    { rewrite ltb_spec. rewrite is_nan_spec in Hlo. unfold SFltb.
      by destruct (Prim2SF (PrimFloat.opp b)). }
    by rewrite Hlo. }
  right.
  assert (F64.is_nan b = false) as Hb by by unfold b; rewrite is_nan_abs.
  assert (F64.is_nan (PrimFloat.opp b) = false) as Hlo by by rewrite is_nan_opp.
  pose proof (opp_abs_leb p Hp) as Hlohi. fold b in Hlohi.
  destruct (PrimFloat.ltb (PrimFloat.opp b) x) eqn:E1.
  - rewrite Hx. destruct (PrimFloat.ltb x b) eqn:E2.
    + split; [by apply ltb_leb|]. split; [by apply ltb_leb|]. by left.
    + split; [done|]. split; [by apply leb_refl|]. right. by left.
  - rewrite Hlo. destruct (PrimFloat.ltb (PrimFloat.opp b) b) eqn:E2.
    + split; [by apply leb_refl|]. split; [done|]. right. by right.
    + split; [done|]. split; [by apply leb_refl|]. right. by left.
Qed.

Lemma Forall2_map_r {A B} (R : A → B → Prop) (f : A → B) l :
  (∀ a, R a (f a)) → Forall2 R l (map f l).
Proof. intros H. induction l; constructor; auto. Qed.

(** The percentile clip saturates and never removes: what it returns is a
    new array of the shape of the view, and each of its samples is the
    sample of the view at the same place saturated to the bound
    [|np.percentile(Data, perc)|]: it lies between minus the bound and the
    bound, unless it is not a number. *)
Theorem percentile_clip_saturates D perc K w w1 :
  percentile_clip D perc w = (Ok K, w1) →
  ∃ rows p clipped,
    read_array D w = (Ok rows, w) ∧
    Np.percentile rows perc = Ok p ∧
    read_array K w1 = (Ok clipped, w1) ∧
    nrows K = nrows D ∧ ncols K = ncols D ∧
    nd_base K ≠ nd_base D ∧
    Forall2 (Forall2 (saturated (PrimFloat.abs p))) rows clipped.
Proof.
  intros H. pose proof H as (clipped & -> & Hk & Hcov)%percentile_clip_inv.
  unfold percentile_clip in H.
  apply bind_inv_ok in H as (rows & ? & Hrows & H).
  pose proof Hrows as (buf & Hbuf & -> & ->)%read_array_inv.
  apply bind_inv_ok in H as (p & ? & [Hp ->]%lift_inv_ok & H).
  unfold new_array, bind, alloc, ret in H. simpl in H. injection H as <-.
  simpl in Hk. rewrite list_lookup_middle in Hk by done. injection Hk as <-.
  eexists _, p, _. split; [done|]. split; [done|]. split.
  { erewrite read_array_run; [|simpl; by apply list_lookup_middle].
    by rewrite window_covers. }
  split; [unfold nrows at 1; simpl; lia|].
  split; [unfold ncols at 1; simpl; lia|].
  split.
  { simpl. apply lookup_lt_Some in Hbuf. lia. }
  unfold Np.clip. apply Forall2_map_r. intros row. apply Forall2_map_r. intros x.
  apply clip1_saturated.
Qed.

Lemma percentile_clip_saturates_witness :
  let w := ClipExamples.world_of ClipExamples.skewed in
  let D := ClipExamples.view 1 3 in
  ∃ rows p clipped,
    read_array D w = (Ok rows, w) ∧
    Np.percentile rows 50 = Ok p ∧
    read_array (NdArray 1 0 1 0 3) (percentile_clip D 50 w).2
      = (Ok clipped, (percentile_clip D 50 w).2) ∧
    nrows (NdArray 1 0 1 0 3) = nrows D ∧ ncols (NdArray 1 0 1 0 3) = ncols D ∧
    nd_base (NdArray 1 0 1 0 3) ≠ nd_base D ∧
    Forall2 (Forall2 (saturated (PrimFloat.abs p))) rows clipped.
Proof.
  intros w D.
  apply (percentile_clip_saturates D 50 (NdArray 1 0 1 0 3) w (percentile_clip D 50 w).2).
  vm_compute. reflexivity.
Defined.

(** ** The time window, converted twice *)

(** The conversion of the time window is written into the caller's list,
    so it is not idempotent: a second call with the same list takes the
    sample indices left by the first for seconds and divides them by [dt]
    again. *)
Theorem timewindow_conversion_repeats self ts a b rest qa qb i0 i1 q0 q1 j0 j1 w :
  heap w !! ts = Some (PyList (a :: b :: rest)) →
  Py.truediv a (dt self) = Ok qa → F64.trunc qa = Ok i0 →
  Py.truediv b (dt self) = Ok qb → F64.trunc qb = Ok i1 →
  Py.truediv (PyInt i0) (dt self) = Ok q0 → F64.trunc q0 = Ok j0 →
  Py.truediv (PyInt i1) (dt self) = Ok q1 → F64.trunc q1 = Ok j1 →
  (convert_timewindow self (Some ts) ;; convert_timewindow self (Some ts)) w =
    (Ok tt,
     World (<[ts := PyList (PyInt j0 :: PyInt j1 :: rest)]> (heap w))
       (stdout w ++ [OutList (PyInt i0 :: PyInt i1 :: rest);
                     OutList (PyInt j0 :: PyInt j1 :: rest)])
       (backend w)).
Proof.
  intros Hts Ha Hi0 Hb Hi1 Ha' Hj0 Hb' Hj1.
  rewrite (bind_ok _ _ _ _ _ (convert_timewindow_run _ _ _ _ _ _ _ _ _ _ Hts Ha Hi0 Hb Hi1)).
  set (w1 := World _ _ _).
  assert (heap w1 !! ts = Some (PyList (PyInt i0 :: PyInt i1 :: rest))) as Hts1.
  { simpl. apply list_lookup_insert_eq. by eapply lookup_lt_Some. }
  rewrite (convert_timewindow_run _ _ _ _ _ _ _ _ _ _ Hts1 Ha' Hj0 Hb' Hj1).
  simpl. by rewrite list_insert_insert_eq, <- app_assoc.
Qed.

Lemma timewindow_conversion_repeats_witness :
  let w := Survey.world_of Survey.small [[PyFloat Survey.s01; PyFloat Survey.s03]] in
  let self := Survey.box 3 2 in
  (convert_timewindow self (Some 3%nat) ;; convert_timewindow self (Some 3%nat)) w =
    (Ok tt,
     World (<[3%nat := PyList [PyInt 25000; PyInt 75000]]> (heap w))
       (stdout w ++ [OutList [PyInt 50; PyInt 150]; OutList [PyInt 25000; PyInt 75000]])
       (backend w)).
Proof.
  intros w self.
  apply (timewindow_conversion_repeats self 3%nat (PyFloat Survey.s01) (PyFloat Survey.s03)
           [] 50 150 50 150 25000 75000 25000 75000 w); vm_compute; reflexivity.
Defined.

(** ** The calls of [wiggle] on the axes *)

Section Grows.

Variable be : list cmd.

(** The record of the backend calls only grows. *)
Definition grows (w : world) : Prop := ∃ cmds, backend w = be ++ cmds.

Lemma grows_load l : triple grows (load l) (λ _, True).
Proof. intros w Hw. unfold load. by destruct (heap w !! l). Qed.

Lemma grows_store l o : triple grows (store l o) (λ _, True).
Proof. by intros w Hw. Qed.

Lemma grows_alloc o : triple grows (alloc o) (λ _, True).
Proof. by intros w Hw. Qed.

Lemma grows_print o : triple grows (print o) (λ _, True).
Proof. by intros w Hw. Qed.

Lemma grows_emit c : triple grows (emit c) (λ _, True).
Proof.
  intros w [cmds Hw]. split; [|done]. exists (cmds ++ [c]). simpl.
  by rewrite Hw, <- app_assoc.
Qed.

End Grows.

Ltac grows_go :=
  cbv zeta;
  lazymatch goal with
  | |- triple _ (raise _) _ => apply triple_raise
  | |- triple _ (ret _) _ => by apply triple_ret
  | |- triple _ (lift _) _ => apply triple_lift_any
  | |- triple _ (load _) _ => apply grows_load
  | |- triple _ (store _ _) _ => apply grows_store
  | |- triple _ (alloc _) _ => apply grows_alloc
  | |- triple _ (print _) _ => apply grows_print
  | |- triple _ (emit _) _ => apply grows_emit
  | |- triple _ (for_each _ _) _ => apply triple_for_each; intros ?; grows_go
  | |- triple _ (bind _ _) _ =>
      eapply (triple_bind _ _ _ (λ _, True)); [grows_go | intros ? _; grows_go]
  | |- triple _ (match ?x with _ => _ end) _ => destruct x; grows_go
  | |- triple _ ?m _ => let h := head_of m in unfold h; grows_go
  end.

Lemma grows_wiggle_trace be lwidth gain typeD color D xs ts sk dx maxval i :
  triple (grows be) (wiggle_trace lwidth gain typeD color D xs ts sk dx maxval i)
    (λ _, True).
Proof. grows_go. Qed.

Lemma wiggle_loop_grows lwidth gain typeD color D xs ts sk dx maxval idx w w' :
  for_each idx (wiggle_trace lwidth gain typeD color D xs ts sk dx maxval) w = (Ok tt, w') →
  ∃ cmds, backend w' = backend w ++ cmds.
Proof.
  intros H.
  destruct (triple_for_each (grows (backend w)) idx _
              (grows_wiggle_trace (backend w) lwidth gain typeD color D xs ts sk dx maxval)
              w) as [Hg _].
  { exists []. by rewrite app_nil_r. }
  by rewrite H in Hg.
Qed.

Lemma wiggle_x_axis_label x ti n xs w w' :
  wiggle_x_axis x ti n w = (Ok xs, w') →
  backend w' =
    backend w ++
      [SetXLabel (match x with Some _ => "Distance [m]" | None => "Trace number" end)].
Proof.
  unfold wiggle_x_axis. destruct x as [xv|].
  - intros ([] & ? & ->%emit_inv & H)%bind_inv_ok. by injection H as _ <-.
  - intros (xs' & w1 & Hxs & H)%bind_inv_ok.
    apply bind_inv_ok in H as ([] & ? & ->%emit_inv & H). injection H as _ <-. simpl.
    destruct ti as [l|].
    + apply bind_inv_ok in Hxs as (ij & w2 & ->%index_bounds_inv & Hxs).
      by injection Hxs as _ <-.
    + by injection Hxs as _ <-.
Qed.

(** The calls of [wiggle] on the axes, around those of the loop: the x axis
    is labelled ['Distance [m]'] with [x] and ['Trace number'] without, the
    y axis ['Time [s]'] with [t] and ['Sample number'] without; the x limits
    are [x[0] - 1] and [x[-1] + 1], the y limits the least and the largest
    of the sample coordinates, and the y axis is inverted. *)
Theorem wiggle_axis_calls
    self x t ti tsi tw perc skipt lwidth gain typeD color w w' :
  wiggle self x t ti tsi tw perc skipt lwidth gain typeD color w = (Ok tt, w') →
  ∃ K w1 xs tyl x0 xl lo hi tmin tmax cmds,
    select_clip self ti tsi tw perc
      "Error: trace_interval should be a list of two elements" w = (Ok K, w1) ∧
    (wiggle_x_axis x ti (ncols K) w1).1 = Ok xs ∧
    (time_axis tsi t (nrows K) w1).1 = Ok tyl ∧
    coords_get xs 0 = Ok x0 ∧ Py.sub x0 (PyInt 1) = Ok lo ∧
    coords_last xs = Ok xl ∧ Py.add xl (PyInt 1) = Ok hi ∧
    coords_min tyl.1 = Ok tmin ∧ coords_max tyl.1 = Ok tmax ∧
    backend w' =
      backend w ++
        [Gca; Gca;
         SetXLabel (match x with Some _ => "Distance [m]" | None => "Trace number" end)]
        ++ cmds ++
        [SetXLim lo hi; SetYLim tmin tmax; InvertYAxis;
         SetYLabel (match t with Some _ => "Time [s]" | None => "Sample number" end)].
Proof.
  unfold wiggle. intros (K & w1 & Hsel & H)%bind_inv_ok.
  pose proof (select_clip_backend _ _ _ _ _ _ _ _ _ Hsel) as Hb.
  unfold wiggle_render in H.
  apply bind_inv_ok in H as ([] & ? & ->%emit_inv & H).
  apply bind_inv_ok in H as ([] & ? & ->%emit_inv & H).
  apply bind_inv_ok in H as (sk & ? & [-> _]%effective_skipt_inv & H).
  apply bind_inv_ok in H as (xs & wx & Hxs & H).
  pose proof (wiggle_x_axis_label _ _ _ _ _ _ Hxs) as Hbx.
  pose proof Hxs as [[lbl ->] Hxs1]%wiggle_x_axis_inv.
  apply bind_inv_ok in H as (tyl & wt & Ht & H).
  pose proof (time_axis_inv _ _ _ _ _ _ Ht) as ->.
  pose proof (time_axis_label _ _ _ _ _ _ Ht) as Hyl.
  assert ((time_axis tsi t (nrows K) w1).1 = Ok tyl) as Ht1.
  { revert Ht. unfold time_axis. destruct t, tsi; simpl; try by intros [= <-].
    - intros (ij & ? & Hij & H')%bind_inv_ok.
      destruct (index_bounds_heap _ _ _ _ w1 Hij eq_refl) as [-> Hij1].
      unfold bind. rewrite Hij1. by injection H' as <-.
    - intros (ij & ? & Hij & H')%bind_inv_ok.
      destruct (index_bounds_heap _ _ _ _ w1 Hij eq_refl) as [-> Hij1].
      unfold bind. rewrite Hij1. by injection H' as <-. }
  apply bind_inv_ok in H as (x1 & ? & [_ ->]%lift_inv_ok & H).
  apply bind_inv_ok in H as (x0' & ? & [_ ->]%lift_inv_ok & H).
  apply bind_inv_ok in H as (dx & ? & [_ ->]%lift_inv_ok & H).
  apply bind_inv_ok in H as (rows & ? & (buf & _ & _ & ->)%read_array_inv & H).
  apply bind_inv_ok in H as (Dmax & ? & [_ ->]%lift_inv_ok & H).
  apply bind_inv_ok in H as (idx & ? & [_ ->]%lift_inv_ok & H).
  apply bind_inv_ok in H as ([] & w3 & Hloop & H).
  apply wiggle_loop_grows in Hloop as [cmds Hcmds].
  apply bind_inv_ok in H as (x0 & ? & [Hx0 ->]%lift_inv_ok & H).
  apply bind_inv_ok in H as (lo & ? & [Hlo ->]%lift_inv_ok & H).
  apply bind_inv_ok in H as (xl & ? & [Hxl ->]%lift_inv_ok & H).
  apply bind_inv_ok in H as (hi & ? & [Hhi ->]%lift_inv_ok & H).
  apply bind_inv_ok in H as ([] & ? & ->%emit_inv & H).
  apply bind_inv_ok in H as (tmin & ? & [Hmin ->]%lift_inv_ok & H).
  apply bind_inv_ok in H as (tmax & ? & [Hmax ->]%lift_inv_ok & H).
  apply bind_inv_ok in H as ([] & ? & ->%emit_inv & H).
  apply bind_inv_ok in H as ([] & ? & ->%emit_inv & H).
  apply emit_inv in H as ->.
  exists K, w1, xs, tyl, x0, xl, lo, hi, tmin, tmax, cmds.
  split; [done|]. split; [by apply Hxs1|]. do 7 (split; [done|]).
  cbn [backend]. rewrite Hcmds. cbn [backend] in Hbx |- *. rewrite Hbx. cbn [backend].
  rewrite Hb, Hyl. by rewrite <- !app_assoc.
Qed.

Lemma wiggle_axis_calls_witness :
  let w := Survey.world_of Survey.small [] in
  let self := Survey.box 3 2 in
  let w' := (wiggle self None None None None false 100 1 0.5 (PyInt 1) "VA" "red" w).2 in
  ∃ K w1 xs tyl x0 xl lo hi tmin tmax cmds,
    select_clip self None None false 100
      "Error: trace_interval should be a list of two elements" w = (Ok K, w1) ∧
    (wiggle_x_axis None None (ncols K) w1).1 = Ok xs ∧
    (time_axis None None (nrows K) w1).1 = Ok tyl ∧
    coords_get xs 0 = Ok x0 ∧ Py.sub x0 (PyInt 1) = Ok lo ∧
    coords_last xs = Ok xl ∧ Py.add xl (PyInt 1) = Ok hi ∧
    coords_min tyl.1 = Ok tmin ∧ coords_max tyl.1 = Ok tmax ∧
    backend w' =
      backend w ++ [Gca; Gca; SetXLabel "Trace number"] ++ cmds ++
        [SetXLim lo hi; SetYLim tmin tmax; InvertYAxis; SetYLabel "Sample number"].
Proof.
  intros w self w'.
  apply (wiggle_axis_calls self None None None None false 100 1 0.5 (PyInt 1)
           "VA" "red" w w').
  vm_compute. reflexivity.
Defined.
